(** * dotprompt: a shallow embedding of the .prompt parser, document model,
    substitution engine and validator (src/python/src/dotprompt).

    Python strings are modelled as lists of ASCII characters ([text]);
    Python's [str.strip], [str.splitlines], the regular expressions of the
    source and its ordered dictionaries are written out below. *)

From Stdlib Require Import Ascii String List Bool Arith Lia.
From Stdlib Require Import Sorting.Sorted Sorting.Permutation.
Import ListNotations.

(* ------------------------------------------------------------------ *)
(** ** Text primitives *)

Definition text := list ascii.

Definition s2l : string -> text := list_ascii_of_string.

Definition ch (c : ascii) : text := [c].

Definition nl : text := ch "010".

(** Python's [str.isspace] on ASCII: space, \t \n \v \f \r and \x1c..\x1f. *)
Definition is_space (c : ascii) : bool :=
  let n := nat_of_ascii c in
  (n =? 32) || ((9 <=? n) && (n <=? 13)) || ((28 <=? n) && (n <=? 31)).

(** [\w] on ASCII: letters, digits and underscore. *)
Definition is_word (c : ascii) : bool :=
  let n := nat_of_ascii c in
  ((48 <=? n) && (n <=? 57)) || ((65 <=? n) && (n <=? 90))
  || ((97 <=? n) && (n <=? 122)) || (n =? 95).

Fixpoint lstrip (s : text) : text :=
  match s with
  | c :: r => if is_space c then lstrip r else s
  | [] => []
  end.

Definition rstrip (s : text) : text := rev (lstrip (rev s)).

(** [str.strip()] *)
Definition strip (s : text) : text := rstrip (lstrip s).

Definition text_eqb (a b : text) : bool :=
  if list_eq_dec ascii_dec a b then true else false.

Fixpoint startswith (p s : text) : bool :=
  match p, s with
  | [], _ => true
  | c :: p', d :: s' => Ascii.eqb c d && startswith p' s'
  | _ :: _, [] => false
  end.

Definition endswith (p s : text) : bool := startswith (rev p) (rev s).

Definition contains_char (c : ascii) (s : text) : bool :=
  existsb (Ascii.eqb c) s.

(** [s.split(c, 1)]: the part before the first [c] and, when there is one,
    the part after it. *)
Fixpoint split_once (c : ascii) (s : text) : text * option text :=
  match s with
  | [] => ([], None)
  | d :: r =>
      if Ascii.eqb c d then ([], Some r)
      else let '(a, b) := split_once c r in (d :: a, b)
  end.

(** [sep.join(parts)] *)
Fixpoint join (sep : text) (parts : list text) : text :=
  match parts with
  | [] => []
  | [p] => p
  | p :: ps => p ++ sep ++ join sep ps
  end.

(** [s.split(sep)] for a one-character separator. *)
Fixpoint split_on (c : ascii) (s : text) : list text :=
  match s with
  | [] => [[]]
  | d :: r =>
      if Ascii.eqb c d then [] :: split_on c r
      else match split_on c r with
           | x :: xs => (d :: x) :: xs
           | [] => [[d]]
           end
  end.

(** [str.splitlines()] on ASCII: \n, \r, \r\n, \v, \f, \x1c, \x1d, \x1e end a
    line; a final terminator does not open an empty last line. *)
Definition is_line_break (c : ascii) : bool :=
  let n := nat_of_ascii c in
  (n =? 10) || (n =? 13) || (n =? 11) || (n =? 12) || ((28 <=? n) && (n <=? 30)).

Fixpoint splitlines_aux (s : text) (cur : text) : list text :=
  match s with
  | [] => match cur with [] => [] | _ => [rev cur] end
  | c :: r =>
      if is_line_break c then
        let r' := if (nat_of_ascii c =? 13) then
                    match r with
                    | d :: r2 => if nat_of_ascii d =? 10 then r2 else r
                    | [] => r
                    end
                  else r in
        rev cur :: splitlines_aux r' []
      else splitlines_aux r (c :: cur)
  end.

Definition splitlines (s : text) : list text := splitlines_aux s [].

Definition upper_char (c : ascii) : ascii :=
  let n := nat_of_ascii c in
  if (97 <=? n) && (n <=? 122) then ascii_of_nat (n - 32) else c.

Definition upper (s : text) : text := map upper_char s.

(** Ordered dictionaries (Python dicts keep insertion order): assignment to
    an existing key keeps its position, a new key goes last. *)
Definition dict (V : Type) := list (text * V).

Fixpoint dict_get {V} (k : text) (d : dict V) : option V :=
  match d with
  | [] => None
  | (k', v) :: d' => if text_eqb k k' then Some v else dict_get k d'
  end.

Fixpoint dict_set {V} (k : text) (v : V) (d : dict V) : dict V :=
  match d with
  | [] => [(k, v)]
  | (k', v') :: d' =>
      if text_eqb k k' then (k', v) :: d' else (k', v') :: dict_set k v d'
  end.

Definition dict_mem {V} (k : text) (d : dict V) : bool :=
  match dict_get k d with Some _ => true | None => false end.

(* ------------------------------------------------------------------ *)
(** ** Regular-expression scanning ([re.sub], [re.findall])

    A pattern that never matches the empty string is given by a matcher:
    [at s] tries the pattern at the start of [s] (Python's leftmost,
    backtracking semantics, written out per pattern below) and returns the
    match's data and the text after the match.  [re.sub] and [re.findall]
    scan left to right; after a match they resume at its end, otherwise one
    character further.  The fuel [S (length s)] always suffices, since every
    match consumes at least one character. *)

Definition matcher (M : Type) := text -> option (M * text).

Fixpoint sub_fuel {M} (at_ : matcher M) (repl : M -> text) (n : nat) (s : text)
  : text :=
  match n with
  | 0 => s
  | S n' =>
      match s with
      | [] => []
      | c :: r =>
          match at_ s with
          | Some (m, rest) => repl m ++ sub_fuel at_ repl n' rest
          | None => c :: sub_fuel at_ repl n' r
          end
      end
  end.

Definition re_sub {M} (at_ : matcher M) (repl : M -> text) (s : text) : text :=
  sub_fuel at_ repl (S (length s)) s.

Fixpoint findall_fuel {M} (at_ : matcher M) (n : nat) (s : text) : list M :=
  match n with
  | 0 => []
  | S n' =>
      match s with
      | [] => []
      | c :: r =>
          match at_ s with
          | Some (m, rest) => m :: findall_fuel at_ n' rest
          | None => findall_fuel at_ n' r
          end
      end
  end.

Definition re_findall {M} (at_ : matcher M) (s : text) : list M :=
  findall_fuel at_ (S (length s)) s.

(** [[^%]*?%\)] after an opening [(%]: the text after the first [%] when
    that [%] is followed by [)]. *)
Fixpoint find_pct (r : text) : option text :=
  match r with
  | [] => None
  | c :: r' =>
      if Ascii.eqb c "%" then
        match r' with
        | d :: r2 => if Ascii.eqb d ")" then Some r2 else None
        | [] => None
        end
      else find_pct r'
  end.

(** [\(%[^%]*?%\)] (with or without DOTALL: the class already admits \n). *)
Definition comment_at : matcher unit :=
  fun s => match s with
           | c :: d :: r =>
               if Ascii.eqb c "(" && Ascii.eqb d "%" then
                 match find_pct r with Some rest => Some (tt, rest) | None => None end
               else None
           | _ => None
           end.

(** [\(%[^%]*?%\)$]: as above, anchored at the end of the string or just
    before a final newline. *)
Definition trailing_comment_at : matcher unit :=
  fun s => match s with
           | c :: d :: r =>
               if Ascii.eqb c "(" && Ascii.eqb d "%" then
                 match find_pct r with
                 | Some [] => Some (tt, [])
                 | Some [e] => if Ascii.eqb e "010" then Some (tt, [e]) else None
                 | _ => None
                 end
               else None
           | _ => None
           end.

(** [.*?}}] without DOTALL: the shortest group before a [}}], not crossing
    a newline. *)
Fixpoint find_close (r : text) : option (text * text) :=
  match r with
  | [] => None
  | c :: r' =>
      match r' with
      | d :: r2 =>
          if Ascii.eqb c "}" && Ascii.eqb d "}" then Some ([], r2)
          else if Ascii.eqb c "010" then None
          else match find_close r' with
               | Some (g, r3) => Some (c :: g, r3)
               | None => None
               end
      | [] => None
      end
  end.

(** [{{(.*?)}}] *)
Definition double_brace_at : matcher text :=
  fun s => match s with
           | c :: d :: r =>
               if Ascii.eqb c "{" && Ascii.eqb d "{" then find_close r else None
           | _ => None
           end.

Fixpoint takewhile (p : ascii -> bool) (s : text) : text :=
  match s with
  | c :: r => if p c then c :: takewhile p r else []
  | [] => []
  end.

Fixpoint dropwhile (p : ascii -> bool) (s : text) : text :=
  match s with
  | c :: r => if p c then dropwhile p r else s
  | [] => []
  end.

(** [\{(\w+)\}]: the greedy word run is the only candidate, since a shorter
    run is followed by a word character, not by [}]. *)
Definition var_at : matcher text :=
  fun s => match s with
           | c :: r =>
               if Ascii.eqb c "{" then
                 match takewhile is_word r, dropwhile is_word r with
                 | [], _ => None
                 | w, e :: rest => if Ascii.eqb e "}" then Some (w, rest) else None
                 | _, [] => None
                 end
               else None
           | [] => None
           end.

(** [set(...)] over a list of names: the distinct names, first occurrence
    first (the order of a Python set is irrelevant to every use below). *)
Fixpoint dedup (l : list text) : list text :=
  match l with
  | [] => []
  | x :: r => if existsb (text_eqb x) r then dedup r else x :: dedup r
  end.

(* ------------------------------------------------------------------ *)
(** ** The document model ([models.PromptObject]) *)

Record PromptObject := mkPrompt {
  metadata : dict text;
  defaults : dict text;
  content : text
}.

(** Values passed to [process(kwargs)]: Python's [None] or an object,
    seen through [str()]. *)
Inductive pyval := PyNone | PyStr (s : text).

Definition py_str (v : pyval) : text :=
  match v with PyNone => s2l "None" | PyStr s => s end.

(* ------------------------------------------------------------------ *)
(** ** The parser ([parse.PromptParser.__init__]) *)

Inductive section := METADATA | DEFAULTS | CONTENT.

Definition section_eqb (a b : section) : bool :=
  match a, b with
  | METADATA, METADATA | DEFAULTS, DEFAULTS | CONTENT, CONTENT => true
  | _, _ => false
  end.

Definition section_of_name (n : text) : option section :=
  if text_eqb n (s2l "METADATA") then Some METADATA
  else if text_eqb n (s2l "DEFAULTS") then Some DEFAULTS
  else if text_eqb n (s2l "CONTENT") then Some CONTENT
  else None.

(** [section_header.fullmatch(line)] for
    [\[\s*(METADATA|DEFAULTS|CONTENT)\s*\]] with IGNORECASE. *)
Definition header_fullmatch (line : text) : option section :=
  match line with
  | c :: r =>
      if Ascii.eqb c "[" then
        match rev r with
        | e :: mid_rev =>
            if Ascii.eqb e "]" then section_of_name (upper (strip (rev mid_rev)))
            else None
        | [] => None
        end
      else None
  | [] => None
  end.

Inductive ParseError :=
  | EmptyText                              (* "El texto del prompt no puede estar vacío" *)
  | OrderDefaultsContent                   (* "[DEFAULTS] must appear before [CONTENT]" *)
  | EmptyMetadataValue (lineno : nat) (key : text)
  | ContentMissing                         (* "Falta o está vacía la sección [CONTENT]" *)
  | FormatVersionMissing.                  (* "Falta @format_version en [METADATA]" *)

(** A small error monad for the [raise ValueError] paths. *)
Inductive result (A : Type) := Ok (a : A) | Err (e : ParseError).
Arguments Ok {A} a.
Arguments Err {A} e.

Definition bind {A B} (m : result A) (f : A -> result B) : result B :=
  match m with Ok a => f a | Err e => Err e end.

Notation "x <- m ;; k" := (bind m (fun x => k))
  (at level 61, m at next level, right associativity).

(** First pass: the line index of the last header of each section, skipping
    blank lines and lines starting with [#]. *)
Fixpoint header_positions (i : nat) (lines : list text) (pos : list (section * nat))
  : list (section * nat) :=
  match lines with
  | [] => pos
  | raw :: ls =>
      let line := strip raw in
      let pos' :=
        match line with
        | [] => pos
        | c :: _ =>
            if Ascii.eqb c "#" then pos
            else match header_fullmatch line with
                 | Some s => (s, i) :: pos
                 | None => pos
                 end
        end in
      header_positions (S i) ls pos'
  end.

Fixpoint position_of (s : section) (pos : list (section * nat)) : option nat :=
  match pos with
  | [] => None
  | (s', i) :: pos' => if section_eqb s s' then Some i else position_of s pos'
  end.

(** The only order check of the parser (parse.py lines 29-31). *)
Definition check_order (pos : list (section * nat)) : result unit :=
  match position_of CONTENT pos, position_of DEFAULTS pos with
  | Some c, Some d => if c <? d then Err OrderDefaultsContent else Ok tt
  | _, _ => Ok tt
  end.

Record ParseState := mkState {
  current_section : option section;
  current_key : option text;
  st_metadata : dict text;
  st_defaults : dict text;
  st_content : list text
}.

Definition init_state : ParseState := mkState None None [] [] [].

Definition is_full_comment (line : text) : bool :=
  startswith (s2l "(%") line && endswith (s2l "%)") line.

Definition field_dict (sec : section) (st : ParseState) : dict text :=
  match sec with DEFAULTS => st_defaults st | _ => st_metadata st end.

Definition set_field_dict (sec : section) (d : dict text) (st : ParseState) : ParseState :=
  match sec with
  | DEFAULTS => mkState (current_section st) (current_key st) (st_metadata st) d (st_content st)
  | _ => mkState (current_section st) (current_key st) d (st_defaults st) (st_content st)
  end.

Definition set_key (k : option text) (st : ParseState) : ParseState :=
  mkState (current_section st) k (st_metadata st) (st_defaults st) (st_content st).

(** Content lines: [comment_pattern.sub('', line).strip()]. *)
Definition clean_content_line (line : text) : text :=
  strip (re_sub trailing_comment_at (fun _ => []) line).

(** One iteration of the second loop (parse.py lines 33-60), for the line of
    index [i]. *)
Definition parse_step (st : ParseState) (i : nat) (raw : text) : result ParseState :=
  let line := strip raw in
  if (match line with [] => true | _ => false end) || is_full_comment line then Ok st
  else
  match header_fullmatch line with
  | Some s => Ok (mkState (Some s) None (st_metadata st) (st_defaults st) (st_content st))
  | None =>
    match current_section st with
    | Some CONTENT =>
        let l := clean_content_line line in
        match l with
        | [] => Ok st
        | _ => Ok (mkState (current_section st) (current_key st) (st_metadata st)
                           (st_defaults st) (st_content st ++ [l]))
        end
    | Some sec =>
        if startswith (s2l "@") line then
          if contains_char ">" line then
            let key := strip (tl (fst (split_once ">" line))) in
            Ok (set_key (Some key) (set_field_dict sec (dict_set key [] (field_dict sec st)) st))
          else
            let '(k0, rest) := split_once " " (tl line) in
            let key := strip k0 in
            let value := match rest with Some v => strip v | None => [] end in
            match sec, value with
            | METADATA, [] => Err (EmptyMetadataValue (S i) key)
            | _, _ => Ok (set_field_dict sec (dict_set key value (field_dict sec st)) st)
            end
        else
          match current_key st with
          | Some ((_ :: _) as k) =>
              (* the open key is always present in its section's dict *)
              match dict_get k (field_dict sec st) with
              | Some v => Ok (set_field_dict sec (dict_set k (v ++ ch "010" ++ line) (field_dict sec st)) st)
              | None => Ok st
              end
          | _ => Ok st
          end
    | None => Ok st
    end
  end.

Fixpoint parse_loop (i : nat) (lines : list text) (st : ParseState) : result ParseState :=
  match lines with
  | [] => Ok st
  | raw :: ls => st' <- parse_step st i raw ;; parse_loop (S i) ls st'
  end.

Definition parse_lines (lines : list text) : result PromptObject :=
  _ <- check_order (header_positions 0 lines []) ;;
  st <- parse_loop 0 lines init_state ;;
  match st_content st with
  | [] => Err ContentMissing
  | _ =>
      if dict_mem (s2l "format_version") (st_metadata st) then
        Ok (mkPrompt (st_metadata st) (st_defaults st) (join (ch "010") (st_content st)))
      else Err FormatVersionMissing
  end.

(** [PromptParser(text).obj] *)
Definition parse (t : text) : result PromptObject :=
  match strip t with
  | [] => Err EmptyText
  | _ => parse_lines (splitlines t)
  end.

(** The content section read line by line: each line is trimmed; blank
    lines and full-line [(%...%)] comments are dropped; the rest lose a
    final [(%...%)] span and are trimmed again, and the empty ones are
    dropped. *)
Fixpoint content_lines (L : list text) : list text :=
  match L with
  | [] => []
  | raw :: L' =>
      let line := strip raw in
      if (match line with [] => true | _ => false end) || is_full_comment line
      then content_lines L'
      else match clean_content_line line with
           | [] => content_lines L'
           | l => l :: content_lines L'
           end
  end.

(** The lines the second loop reads while [current_section] is
    "content", starting from the section [cur]: a line that fullmatches a
    section header switches the section, every other line is kept when
    the section is CONTENT. *)
Fixpoint content_region (cur : option section) (L : list text) : list text :=
  match L with
  | [] => []
  | raw :: L' =>
      match header_fullmatch (strip raw) with
      | Some s => content_region (Some s) L'
      | None =>
          match cur with
          | Some CONTENT => raw :: content_region cur L'
          | _ => content_region cur L'
          end
      end
  end.

(* ------------------------------------------------------------------ *)
(** ** Serialization ([PromptObject.text], [_serialize_section]) *)

Definition serialize_field (kv : text * text) : list text :=
  let '(key, value) := kv in
  if contains_char "010" value then
    (s2l "@" ++ key ++ s2l " >") :: map (fun l => s2l "  " ++ l) (split_on "010" value)
  else [s2l "@" ++ key ++ s2l " " ++ value].

Definition serialize_section (section : dict text) : text :=
  join (ch "010") (flat_map serialize_field section).

Definition to_text (d : PromptObject) : text :=
  let parts :=
    [s2l "[METADATA]"; serialize_section (metadata d)]
    ++ (match defaults d with
        | [] => []
        | _ => [ch "010" ++ s2l "[DEFAULTS]"; serialize_section (defaults d)]
        end)
    ++ [ch "010" ++ s2l "[CONTENT]"; content d] in
  join (ch "010") parts.

(* ------------------------------------------------------------------ *)
(** ** Derived variables and substitution
    ([get_variables_info], [process]) *)

(** [re.sub(r'\(%[^%]*?%\)', '', content, flags=re.DOTALL)] *)
Definition strip_comments (c : text) : text := re_sub comment_at (fun _ => []) c.

(** [re.sub(r'{{(.*?)}}', r'{\1}', processed)] *)
Definition unbrace (c : text) : text :=
  re_sub double_brace_at (fun g => ch "{" ++ g ++ ch "}") c.

Definition normalize (c : text) : text := unbrace (strip_comments c).

(** [set(re.findall(r'\{(\w+)\}', processed))] *)
Definition variables_of (c : text) : list text :=
  dedup (re_findall var_at (normalize c)).

(** A placeholder name, as [\w+] matches it. *)
Definition is_name (w : text) : bool :=
  match w with [] => false | _ => forallb is_word w end.

(** [{w}] occurs somewhere in [t]. *)
Definition occurs (w t : text) : Prop :=
  exists a b, t = a ++ ("{"%char :: w ++ ["}"%char]) ++ b.

(** A piece of text that comment stripping passes through unchanged: no
    [%] and no [(] inside, not starting with [)]. *)
Definition plain_segment (seg : text) : Prop :=
  seg <> [] /\ (forall x, In x seg -> x <> "%"%char /\ x <> "("%char)
  /\ (forall y s', seg = y :: s' -> y <> ")"%char).

(** Stripping comments from [A ++ seg ++ B] either keeps [seg] in place
    between two pieces that do not depend on it, or removes it inside a
    comment. *)
Definition strip_transparent_at (A B : text) : Prop :=
  (exists P Q, forall seg, plain_segment seg ->
     strip_comments (A ++ seg ++ B) = P ++ seg ++ Q)
  \/ (exists R, forall seg, plain_segment seg -> strip_comments (A ++ seg ++ B) = R).

(** The documented reading of the derived variables, for comparison
    with [variables_of]: every [(%...%)] span is removed, whatever its
    interior (non-greedy [\(%.*?%\)] with DOTALL). *)
Fixpoint find_pct_close_any (r : text) : option text :=
  match r with
  | [] => None
  | c :: r' =>
      match r' with
      | d :: r2 => if Ascii.eqb c "%" && Ascii.eqb d ")" then Some r2
                   else find_pct_close_any r'
      | [] => None
      end
  end.

Definition any_comment_at : matcher unit :=
  fun s => match s with
           | c :: d :: r =>
               if Ascii.eqb c "(" && Ascii.eqb d "%" then
                 match find_pct_close_any r with Some rest => Some (tt, rest) | None => None end
               else None
           | _ => None
           end.

Definition spec_variables (c : text) : list text :=
  dedup (re_findall var_at (unbrace (re_sub any_comment_at (fun _ => []) c))).

(** [sorted] on strings: code-point lexicographic order. *)
Fixpoint text_ltb (a b : text) : bool :=
  match a, b with
  | [], [] => false
  | [], _ :: _ => true
  | _ :: _, [] => false
  | c :: a', d :: b' =>
      if nat_of_ascii c <? nat_of_ascii d then true
      else if nat_of_ascii d <? nat_of_ascii c then false
      else text_ltb a' b'
  end.

Definition text_leb (a b : text) : bool := negb (text_ltb b a).

Definition text_le (a b : text) : Prop := text_leb a b = true.

Fixpoint insert_sorted (x : text) (l : list text) : list text :=
  match l with
  | [] => [x]
  | y :: l' => if text_leb x y then x :: l else y :: insert_sorted x l'
  end.

Fixpoint sort_texts (l : list text) : list text :=
  match l with
  | [] => []
  | x :: l' => insert_sorted x (sort_texts l')
  end.

Inductive ProcessResult :=
  | Rendered (out : text)
  | ValueError (msg : text).

Definition unknown_kwargs_prefix : text :=
  s2l "Los siguientes kwargs no corresponden a variables: ".

Definition mem_text (x : text) (l : list text) : bool := existsb (text_eqb x) l.

(** [values[key] = kwargs.get(key, self.defaults.get(key))] *)
Definition resolve (d : PromptObject) (kwargs : dict pyval) (key : text) : pyval :=
  match dict_get key kwargs with
  | Some v => v
  | None => match dict_get key (defaults d) with Some s => PyStr s | None => PyNone end
  end.

(** The replacement of [\{(\w+)\}]:
    [str(values[name]) if values[name] is not None else m.group(0)].
    [values] is indexed only by names found by the same regex on the same
    string, so every lookup succeeds; it is written as a function. *)
Definition render_var (values : text -> pyval) (w : text) : text :=
  match values w with
  | PyNone => ch "{" ++ w ++ ch "}"
  | v => py_str v
  end.

(** [PromptObject.process(kwargs)]; the advisories go to
    [warnings.warn] and do not change the returned value. *)
Definition process (d : PromptObject) (kwargs : dict pyval) : ProcessResult :=
  let processed := normalize (content d) in
  let variables := dedup (re_findall var_at processed) in
  let extra := filter (fun k => negb (mem_text k variables)) (dedup (map fst kwargs)) in
  match extra with
  | _ :: _ => ValueError (unknown_kwargs_prefix ++ join (s2l ", ") (sort_texts extra))
  | [] => Rendered (re_sub var_at (render_var (resolve d kwargs)) processed)
  end.

(* ------------------------------------------------------------------ *)
(** ** The validator's section extraction ([validators.PromptValidator]) *)

(** [SECTION_PATTERN.match(line)]: a prefix match of
    [\[\s*(METADATA|DEFAULTS|CONTENT)\s*\]], IGNORECASE; returns the
    upper-cased name. *)
Definition section_prefix_match (line : text) : option text :=
  match line with
  | c :: r =>
      if Ascii.eqb c "[" then
        let r1 := dropwhile is_space r in
        let try_name (n : text) :=
          if text_eqb (upper (firstn (length n) r1)) n then
            match dropwhile is_space (skipn (length n) r1) with
            | e :: _ => if Ascii.eqb e "]" then Some n else None
            | [] => None
            end
          else None in
        match try_name (s2l "METADATA") with
        | Some n => Some n
        | None => match try_name (s2l "DEFAULTS") with
                  | Some n => Some n
                  | None => try_name (s2l "CONTENT")
                  end
        end
      else None
  | [] => None
  end.

(** [_calculate_section_positions] *)
Fixpoint section_positions_from (i : nat) (lines : list text) (pos : dict nat) : dict nat :=
  match lines with
  | [] => pos
  | line :: ls =>
      let pos' := match section_prefix_match (strip line) with
                  | Some n => dict_set n i pos
                  | None => pos
                  end in
      section_positions_from (S i) ls pos'
  end.

Definition calculate_section_positions (lines : list text) : dict nat :=
  section_positions_from 0 lines [].

(** [_extract_section] *)
Definition extract_section (lines : list text) (pos : dict nat) (name : text) : list text :=
  match dict_get name pos with
  | None => []
  | Some p =>
      let start_line := S p in
      let end_line := fold_left (fun e (sp : text * nat) =>
                        let q := snd sp in
                        if (start_line <? q) && (q <? e) then q else e) pos (length lines) in
      firstn (end_line - start_line) (skipn start_line lines)
  end.

(** [PromptValidator(text=t).sections[name]] *)
Definition validator_section (t : text) (name : text) : list text :=
  let lines := splitlines t in
  extract_section lines (calculate_section_positions lines) name.

(* ------------------------------------------------------------------ *)
(** ** Editing a document ([add_metadata], [remove_metadata], ...) *)

(** [del d[k]] on a dictionary holding [k]. *)
Fixpoint dict_del {V} (k : text) (d : dict V) : dict V :=
  match d with
  | [] => []
  | (k', v) :: d' => if text_eqb k k' then d' else (k', v) :: dict_del k d'
  end.

(** [d.update(m)]: the items of [m] assigned in order. *)
Definition dict_update {V} (d m : dict V) : dict V :=
  fold_left (fun acc (kv : text * V) => dict_set (fst kv) (snd kv) acc) m d.

(** [add_metadata(key, value)] *)
Definition add_metadata (key value : text) (d : PromptObject) : PromptObject :=
  mkPrompt (dict_set key value (metadata d)) (defaults d) (content d).

(** [remove_metadata(key)] *)
Definition remove_metadata (key : text) (d : PromptObject) : PromptObject :=
  if dict_mem key (metadata d)
  then mkPrompt (dict_del key (metadata d)) (defaults d) (content d)
  else d.

(** [add_default(key, value)] *)
Definition add_default (key value : text) (d : PromptObject) : PromptObject :=
  mkPrompt (metadata d) (dict_set key value (defaults d)) (content d).

(** [remove_default(key)] *)
Definition remove_default (key : text) (d : PromptObject) : PromptObject :=
  if dict_mem key (defaults d)
  then mkPrompt (metadata d) (dict_del key (defaults d)) (content d)
  else d.

(** [update_metadata(metadata_dict)] *)
Definition update_metadata (m : dict text) (d : PromptObject) : PromptObject :=
  mkPrompt (dict_update (metadata d) m) (defaults d) (content d).

(** [update_defaults(defaults_dict)] *)
Definition update_defaults (m : dict text) (d : PromptObject) : PromptObject :=
  mkPrompt (metadata d) (dict_update (defaults d) m) (content d).

(** [remove_metadata_keys(keys)] *)
Definition remove_metadata_keys (keys : list text) (d : PromptObject) : PromptObject :=
  fold_left (fun d key => remove_metadata key d) keys d.

(** [remove_default_keys(keys)] *)
Definition remove_default_keys (keys : list text) (d : PromptObject) : PromptObject :=
  fold_left (fun d key => remove_default key d) keys d.

(** [update_content(new_content)] *)
Definition update_content (new_content : text) (d : PromptObject) : PromptObject :=
  mkPrompt (metadata d) (defaults d) (strip new_content).

(** [metadata_text()] *)
Definition metadata_text (d : PromptObject) : text :=
  s2l "[METADATA]" ++ nl ++ serialize_section (metadata d).

(** [defaults_text()] *)
Definition defaults_text (d : PromptObject) : text :=
  match defaults d with
  | [] => []
  | _ => s2l "[DEFAULTS]" ++ nl ++ serialize_section (defaults d)
  end.

(** [content_text()] *)
Definition content_text (d : PromptObject) : text :=
  s2l "[CONTENT]" ++ nl ++ content d.

(** [get_variables_info()]: each variable with [has_default] and
    [default_value] ([None] when absent). *)
Definition get_variables_info (d : PromptObject) : dict (bool * option text) :=
  map (fun v => (v, (dict_mem v (defaults d), dict_get v (defaults d))))
      (variables_of (content d)).

(* ------------------------------------------------------------------ *)
(** ** The builder ([creator.PromptBuilder], [creator.create]) *)

Record PromptBuilder := mkBuilder {
  b_metadata : dict text;
  b_defaults : dict text;
  b_content : text
}.

Inductive BuildError :=
  | ValueMissing     (* "Debe proporcionar un valor cuando se pasa una sola clave" *)
  | ContentEmpty.    (* "El contenido del prompt no puede estar vacío" *)

Inductive build_result (A : Type) := BOk (a : A) | BErr (e : BuildError).
Arguments BOk {A} a.
Arguments BErr {A} e.

(** [PromptBuilder()] *)
Definition builder_init : PromptBuilder :=
  mkBuilder [(s2l "format_version", s2l "0.0.1")] [] [].

(** [metadata(key)] with [key] a dict: the current [format_version] (or
    ["0.0.1"]) is put back after the update. *)
Definition builder_metadata_dict (b : PromptBuilder) (m : dict text) : PromptBuilder :=
  let fv := match dict_get (s2l "format_version") (b_metadata b) with
            | Some v => v
            | None => s2l "0.0.1"
            end in
  mkBuilder (dict_set (s2l "format_version") fv (dict_update (b_metadata b) m))
            (b_defaults b) (b_content b).

(** [metadata(key, value)] with [key] a str. *)
Definition builder_metadata_key (b : PromptBuilder) (k : text) (value : option text)
  : build_result PromptBuilder :=
  match value with
  | None => BErr ValueMissing
  | Some v => BOk (mkBuilder (dict_set k v (b_metadata b)) (b_defaults b) (b_content b))
  end.

(** [defaults(key)] with [key] a dict. *)
Definition builder_defaults_dict (b : PromptBuilder) (m : dict text) : PromptBuilder :=
  mkBuilder (b_metadata b) (dict_update (b_defaults b) m) (b_content b).

(** [defaults(key, value)] with [key] a str. *)
Definition builder_defaults_key (b : PromptBuilder) (k : text) (value : option text)
  : build_result PromptBuilder :=
  match value with
  | None => BErr ValueMissing
  | Some v => BOk (mkBuilder (b_metadata b) (dict_set k v (b_defaults b)) (b_content b))
  end.

(** [content(text)] *)
Definition builder_content (b : PromptBuilder) (t : text) : PromptBuilder :=
  mkBuilder (b_metadata b) (b_defaults b) (strip t).

(** [build()] *)
Definition build (b : PromptBuilder) : build_result PromptObject :=
  match b_content b with
  | [] => BErr ContentEmpty
  | _ => BOk (mkPrompt (b_metadata b) (b_defaults b) (b_content b))
  end.

(** A chain of builder calls, [PromptBuilder().m1(...).m2(...)...]. *)
Inductive builder_call :=
  | CallMetadataDict (m : dict text)
  | CallMetadataKey (k : text) (value : option text)
  | CallDefaultsDict (m : dict text)
  | CallDefaultsKey (k : text) (value : option text)
  | CallContent (t : text).

Definition builder_apply (b : PromptBuilder) (c : builder_call) : build_result PromptBuilder :=
  match c with
  | CallMetadataDict m => BOk (builder_metadata_dict b m)
  | CallMetadataKey k v => builder_metadata_key b k v
  | CallDefaultsDict m => BOk (builder_defaults_dict b m)
  | CallDefaultsKey k v => builder_defaults_key b k v
  | CallContent t => BOk (builder_content b t)
  end.

Fixpoint builder_run (b : PromptBuilder) (calls : list builder_call) : build_result PromptBuilder :=
  match calls with
  | [] => BOk b
  | c :: cs => match builder_apply b c with
               | BOk b' => builder_run b' cs
               | BErr e => BErr e
               end
  end.

(** [to_builder()] *)
Definition to_builder (d : PromptObject) : PromptBuilder :=
  builder_content (builder_defaults_dict (builder_metadata_dict builder_init (metadata d))
                                         (defaults d))
                  (content d).

(** The [meta_] and [default_] keyword arguments of [create], prefix removed. *)
Definition prefixed_step (acc : dict text * dict text) (kv : text * text) : dict text * dict text :=
  let '(meta, dflt) := acc in
  let '(k, v) := kv in
  if startswith (s2l "meta_") k then (dict_set (skipn 5 k) v meta, dflt)
  else if startswith (s2l "default_") k then (meta, dict_set (skipn 8 k) v dflt)
  else (meta, dflt).

Definition split_prefixed (kwargs : dict text) : dict text * dict text :=
  fold_left prefixed_step kwargs ([], []).

(** [create(metadata, defaults, content, kwargs)]; the arguments are
    typed here, so the [isinstance] failures cannot arise. *)
Definition create (metadata_arg defaults_arg : option (dict text)) (content_arg : option text)
  (kwargs : dict text) : build_result PromptObject :=
  let b1 := match metadata_arg with Some m => builder_metadata_dict builder_init m
                                  | None => builder_init end in
  let b2 := match defaults_arg with Some m => builder_defaults_dict b1 m | None => b1 end in
  let b3 := match content_arg with Some t => builder_content b2 t | None => b2 end in
  let '(meta, dflt) := split_prefixed kwargs in
  let b4 := match meta with [] => b3 | _ => builder_metadata_dict b3 meta end in
  let b5 := match dflt with [] => b4 | _ => builder_defaults_dict b4 dflt end in
  build b5.

(* ------------------------------------------------------------------ *)
(** ** The validator's checks ([_validate_sections_presence],
       [_validate_variables]) *)

(** [_validate_sections_presence]: the errors it adds. *)
Definition validate_sections_presence (pos : dict nat) : list text :=
  (if dict_mem (s2l "METADATA") pos then [] else [s2l "Missing required section [METADATA]"])
  ++ (if dict_mem (s2l "CONTENT") pos then [] else [s2l "Missing required section [CONTENT]"]).

(** [_validate_sections_order]: the errors it adds. *)
Definition validate_sections_order (pos : dict nat) : list text :=
  (match dict_get (s2l "METADATA") pos, dict_get (s2l "CONTENT") pos with
   | Some m, Some c =>
       if c <? m then [s2l "Incorrect order: [METADATA] must appear before [CONTENT]"] else []
   | _, _ => []
   end)
  ++ (match dict_get (s2l "DEFAULTS") pos with
      | Some df =>
          (match dict_get (s2l "METADATA") pos with
           | Some m => if df <? m then [s2l "Incorrect order: [DEFAULTS] must appear after [METADATA]"] else []
           | None => []
           end)
          ++ (match dict_get (s2l "CONTENT") pos with
              | Some c => if c <? df then [s2l "Incorrect order: [DEFAULTS] must appear before [CONTENT]"] else []
              | None => []
              end)
      | None => []
      end).

(** [.*?%\)] without DOTALL: the shortest run before [%)], not crossing a
    newline. *)
Fixpoint find_pct_close_nonl (r : text) : option text :=
  match r with
  | [] => None
  | c :: r' =>
      match r' with
      | d :: r2 => if Ascii.eqb c "%" && Ascii.eqb d ")" then Some r2
                   else if Ascii.eqb c "010" then None
                   else find_pct_close_nonl r'
      | [] => None
      end
  end.

(** [\(%.*?%\)] without DOTALL. *)
Definition inline_comment_at : matcher unit :=
  fun s => match s with
           | c :: d :: r =>
               if Ascii.eqb c "(" && Ascii.eqb d "%" then
                 match find_pct_close_nonl r with Some rest => Some (tt, rest) | None => None end
               else None
           | _ => None
           end.

(** The variable set of [_validate_variables] for the content text [c]:
    [set(re.findall(r'\{(\w+)\}', re.sub(r'\(%.*?%\)', '', c)))]. *)
Definition validator_variables (c : text) : list text :=
  dedup (re_findall var_at (re_sub inline_comment_at (fun _ => []) c)).

(* ================================================================== *)
(** * Properties *)


Module Concrete.

(** C1 (round trip): the metadata field [@desc >] with no continuation
    line parses to the empty value; [to_text] renders it as [@desc ] and
    parsing that text fails, since a metadata field may not be empty. *)
Theorem roundtrip_fails_empty_multiline :
  let t := s2l "[METADATA]" ++ nl ++ s2l "@format_version 1.0" ++ nl
           ++ s2l "@desc >" ++ nl ++ s2l "[CONTENT]" ++ nl ++ s2l "Hi" in
  let d := mkPrompt [(s2l "format_version", s2l "1.0"); (s2l "desc", [])] [] (s2l "Hi") in
  parse t = Ok d
  /\ to_text d = s2l "[METADATA]" ++ nl ++ s2l "@format_version 1.0" ++ nl
                 ++ s2l "@desc " ++ nl ++ nl ++ s2l "[CONTENT]" ++ nl ++ s2l "Hi"
  /\ parse (to_text d) = Err (EmptyMetadataValue 3 (s2l "desc")).
Proof. vm_compute. repeat split. Qed.

(** C1 (round trip), a second defect: two trailing comments on a content
    line; parsing removes the last one, re-parsing the rendered text
    removes the other, so the content changes. *)
Lemma roundtrip_changes_content :
  let t := s2l "[METADATA]" ++ nl ++ s2l "@format_version 1.0" ++ nl
           ++ s2l "[CONTENT]" ++ nl ++ s2l "a (%x%) (%y%)" in
  let d := mkPrompt [(s2l "format_version", s2l "1.0")] [] (s2l "a (%x%)") in
  parse t = Ok d
  /\ parse (to_text d) = Ok (mkPrompt [(s2l "format_version", s2l "1.0")] [] (s2l "a")).
Proof. vm_compute. split; reflexivity. Qed.

(** C2: [[CONTENT]] before [[METADATA]] is accepted by the parser, which
    checks only the DEFAULTS/CONTENT order. *)
Theorem content_before_metadata_parses :
  parse (s2l "[CONTENT]" ++ nl ++ s2l "Hello" ++ nl ++ s2l "[METADATA]" ++ nl
         ++ s2l "@format_version 1.0")
  = Ok (mkPrompt [(s2l "format_version", s2l "1.0")] [] (s2l "Hello")).
Proof. vm_compute. reflexivity. Qed.

(** C9: a header on the line right after [[METADATA]] is not taken as the
    end of the METADATA section: that section is given the [[CONTENT]]
    header line and the content line. *)
Theorem extract_section_adjacent_header :
  validator_section (s2l "[METADATA]" ++ nl ++ s2l "[CONTENT]" ++ nl ++ s2l "Hello")
                    (s2l "METADATA")
  = [s2l "[CONTENT]"; s2l "Hello"].
Proof. vm_compute. reflexivity. Qed.

End Concrete.

(* ------------------------------------------------------------------ *)
(** ** Unfolding [re_sub] and [re_findall] *)

Section Scan.
Context {M : Type} (at_ : matcher M).
Hypothesis at_shrinks :
  forall s m rest, at_ s = Some (m, rest) -> length rest < length s.

Lemma sub_fuel_irrel (repl : M -> text) :
  forall n k s, length s < n -> length s < k ->
    sub_fuel at_ repl n s = sub_fuel at_ repl k s.
Proof.
  induction n as [|n IH]; intros k s Hn Hk; [lia|].
  destruct k as [|k]; [lia|].
  destruct s as [|c r]; [reflexivity|]. simpl.
  destruct (at_ (c :: r)) as [[m rest]|] eqn:E.
  - apply at_shrinks in E. simpl in *. f_equal. apply IH; lia.
  - f_equal. apply IH; simpl in *; lia.
Qed.

Lemma re_sub_nil (repl : M -> text) : re_sub at_ repl [] = [].
Proof. reflexivity. Qed.

Lemma re_sub_cons (repl : M -> text) c r :
  re_sub at_ repl (c :: r) =
  match at_ (c :: r) with
  | Some (m, rest) => repl m ++ re_sub at_ repl rest
  | None => c :: re_sub at_ repl r
  end.
Proof.
  unfold re_sub.
  change (sub_fuel at_ repl (S (length (c :: r))) (c :: r)) with
    (match at_ (c :: r) with
     | Some (m, rest) => repl m ++ sub_fuel at_ repl (length (c :: r)) rest
     | None => c :: sub_fuel at_ repl (length (c :: r)) r
     end).
  destruct (at_ (c :: r)) as [[m rest]|] eqn:E.
  - apply at_shrinks in E. f_equal. apply sub_fuel_irrel; simpl in *; lia.
  - reflexivity.
Qed.

Lemma findall_fuel_irrel :
  forall n k s, length s < n -> length s < k ->
    findall_fuel at_ n s = findall_fuel at_ k s.
Proof.
  induction n as [|n IH]; intros k s Hn Hk; [lia|].
  destruct k as [|k]; [lia|].
  destruct s as [|c r]; [reflexivity|]. simpl.
  destruct (at_ (c :: r)) as [[m rest]|] eqn:E.
  - apply at_shrinks in E. simpl in *. f_equal. apply IH; lia.
  - apply IH; simpl in *; lia.
Qed.

Lemma re_findall_nil : re_findall at_ [] = [].
Proof. reflexivity. Qed.

Lemma re_findall_cons c r :
  re_findall at_ (c :: r) =
  match at_ (c :: r) with
  | Some (m, rest) => m :: re_findall at_ rest
  | None => re_findall at_ r
  end.
Proof.
  unfold re_findall.
  change (findall_fuel at_ (S (length (c :: r))) (c :: r)) with
    (match at_ (c :: r) with
     | Some (m, rest) => m :: findall_fuel at_ (length (c :: r)) rest
     | None => findall_fuel at_ (length (c :: r)) r
     end).
  destruct (at_ (c :: r)) as [[m rest]|] eqn:E.
  - apply at_shrinks in E. f_equal. apply findall_fuel_irrel; simpl in *; lia.
  - reflexivity.
Qed.
End Scan.

(** Every matcher of the source consumes at least one character. *)

Lemma find_pct_shorter r rest : find_pct r = Some rest -> length rest < length r.
Proof.
  induction r as [|c r IH]; simpl; [discriminate|].
  destruct (Ascii.eqb c "%").
  - destruct r as [|d r2]; [discriminate|].
    destruct (Ascii.eqb d ")"); [intros [= <-]; simpl; lia | discriminate].
  - intros H. apply IH in H. lia.
Qed.

Lemma comment_at_shrinks s m rest : comment_at s = Some (m, rest) -> length rest < length s.
Proof.
  unfold comment_at. destruct s as [|c [|d r]]; try discriminate.
  destruct (Ascii.eqb c "(" && Ascii.eqb d "%"); [|discriminate].
  destruct (find_pct r) eqn:E; [|discriminate].
  intros [= _ <-]. apply find_pct_shorter in E. simpl. lia.
Qed.

Lemma trailing_comment_at_shrinks s m rest :
  trailing_comment_at s = Some (m, rest) -> length rest < length s.
Proof.
  unfold trailing_comment_at. destruct s as [|c [|d r]]; try discriminate.
  destruct (Ascii.eqb c "(" && Ascii.eqb d "%"); [|discriminate].
  destruct (find_pct r) as [[|e [|f l]]|] eqn:E; try discriminate.
  - intros [= _ <-]. simpl. lia.
  - destruct (Ascii.eqb e "010"); [|discriminate].
    intros [= _ <-]. apply find_pct_shorter in E. simpl in *. lia.
Qed.

Lemma find_close_shorter r g rest :
  find_close r = Some (g, rest) -> length rest < length r.
Proof.
  revert g. induction r as [|c r IH]; intros g; simpl; [discriminate|].
  destruct r as [|d r2]; [discriminate|].
  destruct (Ascii.eqb c "}" && Ascii.eqb d "}").
  - intros [= _ <-]. simpl. lia.
  - destruct (Ascii.eqb c "010"); [discriminate|].
    case_eq (find_close (d :: r2)); [|discriminate].
    intros [g' r3] E [= _ <-]. apply IH in E. simpl in *. lia.
Qed.

Lemma double_brace_at_shrinks s m rest :
  double_brace_at s = Some (m, rest) -> length rest < length s.
Proof.
  unfold double_brace_at. destruct s as [|c [|d r]]; try discriminate.
  destruct (Ascii.eqb c "{" && Ascii.eqb d "{"); [|discriminate].
  intros H. apply find_close_shorter in H. simpl. lia.
Qed.

Lemma dropwhile_shorter p s : length (dropwhile p s) <= length s.
Proof. induction s as [|c s IH]; simpl; [lia|]. destruct (p c); simpl; lia. Qed.

Lemma var_at_shrinks s m rest : var_at s = Some (m, rest) -> length rest < length s.
Proof.
  unfold var_at. destruct s as [|c r]; [discriminate|].
  destruct (Ascii.eqb c "{"); [|discriminate].
  pose proof (dropwhile_shorter is_word r) as Hd.
  destruct (takewhile is_word r) as [|x w]; [discriminate|].
  destruct (dropwhile is_word r) as [|e l]; [discriminate|].
  destruct (Ascii.eqb e "}"); [|discriminate].
  intros [= _ <-]. simpl in *. lia.
Qed.

Lemma find_pct_close_any_shorter r rest :
  find_pct_close_any r = Some rest -> length rest < length r.
Proof.
  induction r as [|c r IH]; simpl; [discriminate|].
  destruct r as [|d r2]; [discriminate|].
  destruct (Ascii.eqb c "%" && Ascii.eqb d ")").
  - intros [= <-]. simpl. lia.
  - intros H. apply IH in H. simpl in *. lia.
Qed.

Lemma any_comment_at_shrinks s m rest :
  any_comment_at s = Some (m, rest) -> length rest < length s.
Proof.
  unfold any_comment_at. destruct s as [|c [|d r]]; try discriminate.
  destruct (Ascii.eqb c "(" && Ascii.eqb d "%"); [|discriminate].
  destruct (find_pct_close_any r) eqn:E; [|discriminate].
  intros [= _ <-]. apply find_pct_close_any_shorter in E. simpl. lia.
Qed.

(* ------------------------------------------------------------------ *)
(** ** Placeholders found by [\{(\w+)\}] *)

Module Vars.

Lemma is_name_spec w :
  is_name w = true <-> w <> [] /\ (forall c, In c w -> is_word c = true).
Proof.
  unfold is_name. destruct w as [|c w]; [split; [discriminate|intros [H _]; congruence]|].
  rewrite forallb_forall. split.
  - intros H. split; [discriminate|exact H].
  - intros [_ H]. exact H.
Qed.

Lemma ascii_eqb_false c d : c <> d -> Ascii.eqb c d = false.
Proof. intros H. apply Ascii.eqb_neq. exact H. Qed.

Lemma open_not_word : is_word "{" = false.
Proof. reflexivity. Qed.

Lemma close_not_word : is_word "}" = false.
Proof. reflexivity. Qed.

Lemma name_no_braces w c : is_name w = true -> In c w -> c <> "{"%char /\ c <> "}"%char.
Proof.
  intros Hw Hc. apply is_name_spec in Hw. destruct Hw as [_ Hw].
  specialize (Hw c Hc). split; intros ->; discriminate.
Qed.

Lemma takewhile_words w e rest :
  (forall c, In c w -> is_word c = true) -> is_word e = false ->
  takewhile is_word (w ++ e :: rest) = w /\ dropwhile is_word (w ++ e :: rest) = e :: rest.
Proof.
  intros Hw He. induction w as [|c w IH]; simpl.
  - rewrite He. split; reflexivity.
  - rewrite (Hw c (or_introl eq_refl)).
    destruct IH as [-> ->]; [intros x Hx; apply Hw; right; exact Hx|]. split; reflexivity.
Qed.

Lemma takewhile_dropwhile p s : s = takewhile p s ++ dropwhile p s.
Proof. induction s as [|c s IH]; simpl; [reflexivity|]. destruct (p c); simpl; congruence. Qed.

Lemma takewhile_all p s c : In c (takewhile p s) -> p c = true.
Proof.
  induction s as [|d s IH]; simpl; [tauto|].
  destruct (p d) eqn:E; simpl; [|tauto]. intros [<-|H]; auto.
Qed.

Lemma var_at_some s w rest :
  var_at s = Some (w, rest) -> s = "{"%char :: w ++ "}"%char :: rest /\ is_name w = true.
Proof.
  unfold var_at. destruct s as [|c r]; [discriminate|].
  destruct (Ascii.eqb c "{") eqn:Ec; [|discriminate].
  apply Ascii.eqb_eq in Ec. subst c.
  pose proof (takewhile_dropwhile is_word r) as Hr.
  pose proof (takewhile_all is_word r) as Hall.
  destruct (takewhile is_word r) as [|x w'] eqn:Et; [discriminate|].
  destruct (dropwhile is_word r) as [|e l] eqn:Ed; [discriminate|].
  destruct (Ascii.eqb e "}") eqn:Ee; [|discriminate].
  apply Ascii.eqb_eq in Ee. subst e. intros [= <- <-].
  split; [rewrite Hr; reflexivity|].
  apply is_name_spec. split; [discriminate|exact Hall].
Qed.

Lemma var_at_intro w rest :
  is_name w = true -> var_at ("{"%char :: w ++ "}"%char :: rest) = Some (w, rest).
Proof.
  intros Hw. pose proof Hw as Hw'. apply is_name_spec in Hw'. destruct Hw' as [Hne Hall].
  unfold var_at. simpl.
  destruct (takewhile_words w "}" rest Hall close_not_word) as [-> ->].
  destruct w as [|x w]; [congruence|]. reflexivity.
Qed.

Lemma name_close_inj w w' b b' :
  (forall c, In c w -> c <> "}"%char) -> (forall c, In c w' -> c <> "}"%char) ->
  w ++ "}"%char :: b = w' ++ "}"%char :: b' -> w = w' /\ b = b'.
Proof.
  revert w'. induction w as [|c w IH]; intros [|c' w'] Hw Hw' H; simpl in H.
  - inversion H. split; reflexivity.
  - injection H as Hc _. exfalso. apply (Hw' c'); [left; reflexivity|congruence].
  - injection H as Hc _. exfalso. apply (Hw c); [left; reflexivity|congruence].
  - inversion H; subst.
    destruct (IH w') as [-> ->]; auto.
    + intros x Hx. apply Hw. right. exact Hx.
    + intros x Hx. apply Hw'. right. exact Hx.
Qed.

Lemma occurs_cons w x t :
  occurs w (x :: t) <->
  (x = "{"%char /\ exists b, t = w ++ "}"%char :: b) \/ occurs w t.
Proof.
  split.
  - intros [[|y a] [b H]]; simpl in H; inversion H; subst.
    + left. split; [reflexivity|]. exists b. rewrite <- app_assoc. reflexivity.
    + right. exists a, b. reflexivity.
  - intros [[-> [b ->]]|[a [b ->]]].
    + exists [], b. simpl. rewrite <- app_assoc. reflexivity.
    + exists (x :: a), b. reflexivity.
Qed.

Lemma findall_var_at t w :
  In w (re_findall var_at t) <-> is_name w = true /\ occurs w t.
Proof.
  remember (length t) as n eqn:Hn. assert (Hle : length t <= n) by lia. clear Hn.
  revert t Hle. induction n as [|n IH]; intros t Hle.
  - destruct t; [|simpl in Hle; lia].
    rewrite re_findall_nil. split; [intros []|].
    intros [_ [a [b H]]]. destruct a; discriminate.
  - destruct t as [|c r].
    + rewrite re_findall_nil. split; [intros []|].
      intros [_ [a [b H]]]. destruct a; discriminate.
    + rewrite (re_findall_cons var_at var_at_shrinks).
      destruct (var_at (c :: r)) as [[w' rest]|] eqn:E.
      * pose proof E as E'. apply var_at_some in E'. destruct E' as [Ht Hw'].
        assert (Hlen : length rest <= n).
        { apply var_at_shrinks in E. simpl in *. lia. }
        split.
        -- intros [<-|Hin].
           ++ split; [exact Hw'|]. exists [], rest. rewrite Ht. simpl. rewrite <- app_assoc. reflexivity.
           ++ apply IH in Hin; [|exact Hlen]. destruct Hin as [Hw [a [b Hr]]].
              split; [exact Hw|]. exists (("{"%char :: w' ++ ["}"%char]) ++ a), b.
              rewrite Ht, Hr. simpl. rewrite <- !app_assoc. reflexivity.
        -- intros [Hw [a [b Hab]]]. rewrite Ht in Hab.
           destruct a as [|x a]; simpl in Hab.
           ++ injection Hab as Hrest. left. rewrite <- app_assoc in Hrest. simpl in Hrest.
              apply name_close_inj in Hrest as [Heq _]; [exact Heq| |];
                intros y Hy; [apply (name_no_braces w' y Hw' Hy)|apply (name_no_braces w y Hw Hy)].
           ++ injection Hab as Hx Hrest.
              apply app_eq_app in Hrest as [l [[Hw'2 Hl]|[Ha Hl]]].
              ** exfalso. destruct l as [|y l].
                 --- simpl in Hl. discriminate.
                 --- simpl in Hl. injection Hl as Hy _. subst y.
                     assert (Hin : In "{"%char w')
                       by (rewrite Hw'2; apply in_or_app; right; left; reflexivity).
                     exact (proj1 (name_no_braces w' _ Hw' Hin) eq_refl).
              ** destruct l as [|y l].
                 --- simpl in Hl. discriminate.
                 --- simpl in Hl. injection Hl as Hy Hl. subst y.
                     right. apply IH; [exact Hlen|]. split; [exact Hw|].
                     exists l, b. exact Hl.
      * assert (Hlen : length r <= n) by (simpl in Hle; lia).
        rewrite (IH r Hlen). split.
        -- intros [Hw Hocc]. split; [exact Hw|]. apply occurs_cons. right. exact Hocc.
        -- intros [Hw Hocc]. split; [exact Hw|]. apply occurs_cons in Hocc.
           destruct Hocc as [[-> [b ->]]|Hocc]; [|exact Hocc].
           rewrite var_at_intro in E; [discriminate|exact Hw].
Qed.

(** An occurrence of [{w}] cannot straddle a cut of the text where the left
    part ends with [}] or the right part starts with [{]. *)
Lemma occurs_app w L R :
  is_name w = true ->
  (exists l0, L = l0 ++ ["}"%char]) \/ (exists r0, R = "{"%char :: r0) ->
  (occurs w (L ++ R) <-> occurs w L \/ occurs w R).
Proof.
  intros Hw Hcut. split.
  - intros [a [b H]].
    apply app_eq_app in H as [l [[HL Hl]|[Ha Hl]]].
    + (* the occurrence starts in L *)
      apply app_eq_app in Hl as [l' [[HP HR]|[Hl Hb]]].
      * destruct l as [|y l].
        { right. exists [], b. simpl in HP. rewrite <- HP in HR. exact HR. }
        destruct l' as [|z l'].
        { left. exists a, []. rewrite app_nil_r in HP. rewrite HL, <- HP, app_nil_r.
          reflexivity. }
        exfalso. destruct Hcut as [[l0 HL0]|[r0 HR0]].
        -- assert (Hne : y :: l <> []) by discriminate.
           destruct (exists_last Hne) as [l1 [e He]].
           rewrite He in HL. rewrite HL0, app_assoc in HL.
           apply app_inj_tail in HL as [_ He'].
           assert (Hne' : z :: l' <> []) by discriminate.
           destruct (exists_last Hne') as [l2 [f Hf]].
           rewrite He, Hf in HP.
           assert (HP2 : ("{"%char :: w) ++ ["}"%char] = (l1 ++ e :: l2) ++ [f])
             by (simpl; rewrite HP, <- !app_assoc; reflexivity).
           apply app_inj_tail in HP2 as [HP3 _].
           assert (Hin : In e ("{"%char :: w)).
           { rewrite HP3. apply in_or_app. right. left. reflexivity. }
           destruct Hin as [Hin|Hin]; [congruence|].
           exact (proj2 (name_no_braces w e Hw Hin) (eq_sym He')).
        -- rewrite HR0 in HR. simpl in HR. injection HR as Hz _. subst z.
           simpl in HP. injection HP as _ HP.
           assert (Hin : In "{"%char (w ++ ["}"%char])).
           { rewrite HP. apply in_or_app. right. left. reflexivity. }
           apply in_app_or in Hin as [Hin|[Hin|[]]]; [|discriminate].
           exact (proj1 (name_no_braces w _ Hw Hin) eq_refl).
      * left. exists a, l'. rewrite HL, Hl. reflexivity.
    + right. exists l, b. exact Hl.
  - intros [[a [b ->]]|[a [b ->]]].
    + exists a, (b ++ R). rewrite <- !app_assoc. reflexivity.
    + exists (L ++ a), b. rewrite <- !app_assoc. reflexivity.
Qed.

Lemma occurs_short w t : is_name w = true -> length t < 3 -> ~ occurs w t.
Proof.
  intros Hw Hlen [a [b ->]]. apply is_name_spec in Hw. destruct Hw as [Hne _].
  destruct w as [|x w]; [congruence|].
  rewrite !length_app in Hlen. simpl in Hlen. rewrite length_app in Hlen. simpl in Hlen. lia.
Qed.

(** Adding an outer pair of braces around [{...}] adds no placeholder. *)
Lemma occurs_wrap w S0 :
  is_name w = true ->
  (exists s0, S0 = "{"%char :: s0) -> (exists s1, S0 = s1 ++ ["}"%char]) ->
  (occurs w ("{"%char :: S0 ++ ["}"%char]) <-> occurs w S0).
Proof.
  intros Hw Hs Hl.
  change ("{"%char :: S0 ++ ["}"%char]) with (["{"%char] ++ (S0 ++ ["}"%char])).
  rewrite occurs_app; [|exact Hw|].
  2:{ right. destruct Hs as [s0 ->]. exists (s0 ++ ["}"%char]). reflexivity. }
  rewrite occurs_app; [|exact Hw|left; exact Hl].
  assert (H1 : ~ occurs w ["{"%char]) by (apply occurs_short; [exact Hw|simpl; lia]).
  assert (H2 : ~ occurs w ["}"%char]) by (apply occurs_short; [exact Hw|simpl; lia]).
  tauto.
Qed.

Lemma occurs_single w x : is_name w = true -> is_name x = true ->
  (occurs w ("{"%char :: x ++ ["}"%char]) <-> w = x).
Proof.
  intros Hw Hx. rewrite occurs_cons. split.
  - intros [[_ [b Hb]]|Hocc].
    + apply name_close_inj in Hb as [Heq _]; [symmetry; exact Heq| |];
        intros y Hy; [apply (name_no_braces x y Hx Hy)|apply (name_no_braces w y Hw Hy)].
    + exfalso. destruct Hocc as [a [b Hab]].
      assert (Hin : In "{"%char (x ++ ["}"%char])).
      { rewrite Hab. apply in_or_app. right. left. reflexivity. }
      apply in_app_or in Hin as [Hin|[Hin|[]]]; [|discriminate].
      exact (proj1 (name_no_braces x _ Hx Hin) eq_refl).
  - intros ->. left. split; [reflexivity|]. exists []. reflexivity.
Qed.

(** ** [{{(.*?)}}] → [{\1}] changes no placeholder *)

Lemma unbrace_nil : unbrace [] = [].
Proof. reflexivity. Qed.

Lemma unbrace_cons c r :
  unbrace (c :: r) =
  match double_brace_at (c :: r) with
  | Some (g, rest) => ("{"%char :: g ++ ["}"%char]) ++ unbrace rest
  | None => c :: unbrace r
  end.
Proof.
  unfold unbrace. rewrite (re_sub_cons double_brace_at double_brace_at_shrinks).
  destruct (double_brace_at (c :: r)) as [[g rest]|]; [|reflexivity].
  unfold ch. simpl. rewrite <- app_assoc. reflexivity.
Qed.

Lemma find_close_some r g rest :
  find_close r = Some (g, rest) -> r = g ++ "}"%char :: "}"%char :: rest.
Proof.
  revert g. induction r as [|c r IH]; intros g; simpl; [discriminate|].
  destruct r as [|d r2]; [discriminate|].
  destruct (Ascii.eqb c "}" && Ascii.eqb d "}") eqn:E.
  - apply andb_prop in E as [E1 E2]. apply Ascii.eqb_eq in E1, E2. subst.
    intros [= <- <-]. reflexivity.
  - destruct (Ascii.eqb c "010"); [discriminate|].
    case_eq (find_close (d :: r2)); [|discriminate].
    intros [g' r3] E' [= <- <-]. apply IH in E'. rewrite E'. reflexivity.
Qed.

Lemma double_brace_at_some s g rest :
  double_brace_at s = Some (g, rest) ->
  s = "{"%char :: "{"%char :: g ++ "}"%char :: "}"%char :: rest.
Proof.
  unfold double_brace_at. destruct s as [|c [|d r]]; try discriminate.
  destruct (Ascii.eqb c "{" && Ascii.eqb d "{") eqn:E; [|discriminate].
  apply andb_prop in E as [E1 E2]. apply Ascii.eqb_eq in E1, E2. subst.
  intros H. apply find_close_some in H. rewrite H. reflexivity.
Qed.

Lemma double_brace_at_other c r : c <> "{"%char -> double_brace_at (c :: r) = None.
Proof.
  intros Hc. unfold double_brace_at. destruct r as [|d r]; [reflexivity|].
  rewrite (ascii_eqb_false _ _ Hc). reflexivity.
Qed.

Lemma unbrace_head_open r : exists u, unbrace ("{"%char :: r) = "{"%char :: u.
Proof.
  rewrite unbrace_cons. destruct (double_brace_at ("{"%char :: r)) as [[g rest]|].
  - exists ((g ++ ["}"%char]) ++ unbrace rest). reflexivity.
  - exists (unbrace r). reflexivity.
Qed.

Lemma unbrace_prefix u :
  (forall x, In x u -> x <> "{"%char) ->
  forall r, (exists b, unbrace r = u ++ b) <-> (exists b, r = u ++ b).
Proof.
  induction u as [|x u IH]; intros Hu r.
  - split; intros _; [exists r|exists (unbrace r)]; reflexivity.
  - assert (Hx : x <> "{"%char) by (apply Hu; left; reflexivity).
    assert (Hu' : forall y, In y u -> y <> "{"%char) by (intros y Hy; apply Hu; right; exact Hy).
    destruct r as [|d r].
    + rewrite unbrace_nil. split; intros [b Hb]; discriminate.
    + destruct (ascii_dec d "{"%char) as [->|Hd].
      * destruct (unbrace_head_open r) as [v Hv]. rewrite Hv.
        split; intros [b Hb]; injection Hb as Hb _; congruence.
      * rewrite unbrace_cons, (double_brace_at_other d r Hd).
        split; intros [b Hb]; injection Hb as -> Hb.
        -- destruct (proj1 (IH Hu' r) (ex_intro _ b Hb)) as [b' Hb'].
           exists b'. rewrite Hb'. reflexivity.
        -- destruct (proj2 (IH Hu' r) (ex_intro _ b Hb)) as [b' Hb'].
           exists b'. rewrite Hb'. reflexivity.
Qed.

Lemma unbrace_occurs t w :
  is_name w = true -> (occurs w (unbrace t) <-> occurs w t).
Proof.
  intros Hw.
  remember (length t) as n eqn:Hn. assert (Hle : length t <= n) by lia. clear Hn.
  revert t Hle. induction n as [|n IH]; intros t Hle.
  - destruct t; [rewrite unbrace_nil; reflexivity|simpl in Hle; lia].
  - destruct t as [|c r]; [rewrite unbrace_nil; reflexivity|].
    rewrite unbrace_cons.
    destruct (double_brace_at (c :: r)) as [[g rest]|] eqn:E.
    + pose proof (double_brace_at_shrinks _ _ _ E) as Hlen.
      apply double_brace_at_some in E. rewrite E.
      rewrite occurs_app; [|exact Hw|left; exists ("{"%char :: g); reflexivity].
      rewrite (IH rest); [|simpl in Hle, Hlen; lia].
      replace ("{"%char :: "{"%char :: g ++ "}"%char :: "}"%char :: rest)
        with (("{"%char :: ("{"%char :: g ++ ["}"%char]) ++ ["}"%char]) ++ rest)
        by (simpl; rewrite <- !app_assoc; reflexivity).
      rewrite (occurs_app w _ rest Hw).
      2:{ left. exists ("{"%char :: "{"%char :: g ++ ["}"%char]). simpl.
          rewrite <- !app_assoc. reflexivity. }
      rewrite (occurs_wrap w ("{"%char :: g ++ ["}"%char]));
        [reflexivity|exact Hw|eexists; reflexivity|].
      exists ("{"%char :: g). reflexivity.
    + rewrite !occurs_cons.
      rewrite (IH r); [|simpl in Hle; lia].
      assert (Hu : forall x, In x (w ++ ["}"%char]) -> x <> "{"%char).
      { intros x Hx. apply in_app_or in Hx as [Hx|[<-|[]]]; [|discriminate].
        exact (proj1 (name_no_braces w x Hw Hx)). }
      pose proof (unbrace_prefix _ Hu r) as Hp.
      assert (Hp' : (exists b, unbrace r = w ++ "}"%char :: b) <->
                    (exists b, r = w ++ "}"%char :: b)).
      { split; intros [b Hb].
        - assert (H : exists b, unbrace r = (w ++ ["}"%char]) ++ b)
            by (exists b; rewrite <- app_assoc; exact Hb).
          apply Hp in H as [b' Hb']. exists b'. rewrite Hb', <- app_assoc. reflexivity.
        - assert (H : exists b, r = (w ++ ["}"%char]) ++ b)
            by (exists b; rewrite <- app_assoc; exact Hb).
          apply Hp in H as [b' Hb']. exists b'. rewrite Hb', <- app_assoc. reflexivity. }
      tauto.
Qed.

(** ** Comment stripping passes plain segments through *)

Lemma strip_comments_cons c r :
  strip_comments (c :: r) =
  match comment_at (c :: r) with
  | Some (_, rest) => strip_comments rest
  | None => c :: strip_comments r
  end.
Proof.
  unfold strip_comments. rewrite (re_sub_cons comment_at comment_at_shrinks).
  destruct (comment_at (c :: r)) as [[m rest]|]; reflexivity.
Qed.

Lemma strip_noparen u B :
  (forall x, In x u -> x <> "("%char) -> strip_comments (u ++ B) = u ++ strip_comments B.
Proof.
  induction u as [|x u IH]; intros Hu; [reflexivity|].
  simpl. rewrite strip_comments_cons.
  assert (Hx : Ascii.eqb x "(" = false) by (apply ascii_eqb_false; apply Hu; left; reflexivity).
  replace (comment_at (x :: u ++ B)) with (@None (unit * text)).
  - rewrite IH; [reflexivity|]. intros y Hy. apply Hu. right. exact Hy.
  - unfold comment_at. destruct (u ++ B); [reflexivity|]. rewrite Hx. reflexivity.
Qed.

Lemma find_pct_nopct u X :
  (forall x, In x u -> x <> "%"%char) -> find_pct (u ++ X) = find_pct X.
Proof.
  induction u as [|x u IH]; intros Hu; [reflexivity|].
  simpl. rewrite ascii_eqb_false by (apply Hu; left; reflexivity).
  apply IH. intros y Hy. apply Hu. right. exact Hy.
Qed.

Lemma first_pct l :
  (forall x, In x l -> x <> "%"%char)
  \/ exists u v, l = u ++ "%"%char :: v /\ (forall x, In x u -> x <> "%"%char).
Proof.
  induction l as [|x l IH]; [left; intros x []|].
  destruct (ascii_dec x "%") as [->|Hx].
  - right. exists [], l. split; [reflexivity|intros y []].
  - destruct IH as [H|[u [v [-> Hu]]]].
    + left. intros y [<-|Hy]; [exact Hx|apply H; exact Hy].
    + right. exists (x :: u), v. split; [reflexivity|].
      intros y [<-|Hy]; [exact Hx|apply Hu; exact Hy].
Qed.

Lemma plain_segment_head seg :
  plain_segment seg -> exists y s', seg = y :: s' /\ y <> "%"%char /\ y <> ")"%char.
Proof.
  intros [Hne [Hin Hhd]]. destruct seg as [|y s']; [congruence|].
  exists y, s'. split; [reflexivity|]. split.
  - apply (Hin y). left. reflexivity.
  - apply (Hhd y s'). reflexivity.
Qed.

Lemma transparent_prepend c A' B :
  (forall seg, plain_segment seg -> comment_at (c :: A' ++ seg ++ B) = None) ->
  strip_transparent_at A' B -> strip_transparent_at (c :: A') B.
Proof.
  intros Hnone [[P [Q H]]|[R H]].
  - left. exists (c :: P), Q. intros seg Hs. simpl. rewrite strip_comments_cons, Hnone by exact Hs.
    rewrite H by exact Hs. reflexivity.
  - right. exists (c :: R). intros seg Hs. simpl. rewrite strip_comments_cons, Hnone by exact Hs.
    rewrite H by exact Hs. reflexivity.
Qed.

Lemma strip_transparent n : forall A B, length A <= n -> strip_transparent_at A B.
Proof.
  induction n as [|n IH]; intros A B Hle.
  - destruct A; [|simpl in Hle; lia].
    left. exists [], (strip_comments B). intros seg [_ [Hin _]].
    simpl. apply strip_noparen. intros x Hx. apply Hin. exact Hx.
  - destruct A as [|c A'].
    { left. exists [], (strip_comments B). intros seg [_ [Hin _]].
      simpl. apply strip_noparen. intros x Hx. apply Hin. exact Hx. }
    simpl in Hle.
    destruct (ascii_dec c "(") as [->|Hc].
    2:{ apply transparent_prepend; [|apply IH; lia].
        intros seg _. unfold comment_at. destruct (A' ++ seg ++ B); [reflexivity|].
        rewrite ascii_eqb_false by exact Hc. reflexivity. }
    destruct A' as [|d A''].
    { left. exists ["("%char], (strip_comments B). intros seg Hs.
      destruct (plain_segment_head seg Hs) as [y [s' [-> [Hy _]]]].
      simpl. rewrite strip_comments_cons. unfold comment_at. cbv beta iota.
      rewrite (ascii_eqb_false y _ Hy), andb_false_r.
      rewrite app_comm_cons, strip_noparen; [reflexivity|].
      destruct Hs as [_ [Hin _]]. intros x Hx. apply Hin. exact Hx. }
    destruct (ascii_dec d "%") as [->|Hd].
    2:{ apply transparent_prepend; [|apply IH; simpl in *; lia].
        intros seg _. unfold comment_at. cbn [app]. cbv beta iota.
        rewrite (ascii_eqb_false d "%" Hd), andb_false_r. reflexivity. }
    destruct (first_pct A'') as [Hno|[u [v [HA Hu]]]].
    + destruct (find_pct B) as [r2|] eqn:EB.
      * right. exists (strip_comments r2). intros seg Hs. simpl.
        rewrite strip_comments_cons. simpl.
        rewrite app_assoc, find_pct_nopct, EB; [reflexivity|].
        destruct Hs as [_ [Hin _]]. intros x Hx. apply in_app_or in Hx as [Hx|Hx].
        -- apply Hno. exact Hx.
        -- apply Hin. exact Hx.
      * apply transparent_prepend; [|apply IH; simpl in *; lia].
        intros seg Hs. simpl.
        rewrite app_assoc, find_pct_nopct, EB; [reflexivity|].
        destruct Hs as [_ [Hin _]]. intros x Hx. apply in_app_or in Hx as [Hx|Hx].
        -- apply Hno. exact Hx.
        -- apply Hin. exact Hx.
    + assert (Hnone : (forall seg, plain_segment seg ->
                       find_pct ("%"%char :: v ++ seg ++ B) = None) ->
                      strip_transparent_at ("("%char :: "%"%char :: A'') B).
      { intros Hn. apply transparent_prepend; [|apply IH; simpl in *; lia].
        intros seg Hs. simpl. subst A''. rewrite <- app_assoc, find_pct_nopct by exact Hu.
        rewrite <- app_comm_cons, (Hn seg Hs). reflexivity. }
      destruct v as [|e v'].
      * apply Hnone. intros seg Hs.
        destruct (plain_segment_head seg Hs) as [y [s' [-> [_ Hy]]]].
        simpl. rewrite ascii_eqb_false by exact Hy. reflexivity.
      * destruct (ascii_dec e ")") as [->|He].
        2:{ apply Hnone. intros seg _. simpl. rewrite ascii_eqb_false by exact He. reflexivity. }
        assert (Hv : length v' <= n).
        { subst A''. simpl in Hle. rewrite length_app in Hle. simpl in Hle. lia. }
        destruct (IH v' B Hv) as [[P [Q H]]|[R H]].
        -- left. exists P, Q. intros seg Hs. simpl. rewrite strip_comments_cons. simpl.
           subst A''. rewrite <- app_assoc, find_pct_nopct by exact Hu. simpl.
           apply H. exact Hs.
        -- right. exists R. intros seg Hs. simpl. rewrite strip_comments_cons. simpl.
           subst A''. rewrite <- app_assoc, find_pct_nopct by exact Hu. simpl.
           apply H. exact Hs.
Qed.

(** ** Distinct names *)

Lemma text_eqb_true a b : text_eqb a b = true <-> a = b.
Proof.
  unfold text_eqb. destruct (list_eq_dec ascii_dec a b); split; congruence.
Qed.

Lemma mem_text_In x l : mem_text x l = true <-> In x l.
Proof.
  unfold mem_text. rewrite existsb_exists. split.
  - intros [y [Hy E]]. apply text_eqb_true in E. subst. exact Hy.
  - intros H. exists x. split; [exact H|apply text_eqb_true; reflexivity].
Qed.

Lemma dedup_In l x : In x (dedup l) <-> In x l.
Proof.
  induction l as [|y l IH]; simpl; [tauto|].
  destruct (existsb (text_eqb y) l) eqn:E.
  - rewrite IH. split; [tauto|]. intros [->|H]; [|exact H].
    apply (mem_text_In x l). exact E.
  - simpl. rewrite IH. tauto.
Qed.

Lemma dedup_NoDup l : NoDup (dedup l).
Proof.
  induction l as [|y l IH]; simpl; [constructor|].
  destruct (existsb (text_eqb y) l) eqn:E; [exact IH|].
  constructor; [|exact IH].
  rewrite dedup_In. intros H. apply (mem_text_In y l) in H. unfold mem_text in H. congruence.
Qed.

Lemma variables_of_In c w :
  In w (variables_of c) <-> is_name w = true /\ occurs w (strip_comments c).
Proof.
  unfold variables_of, normalize. rewrite dedup_In, findall_var_at.
  split; intros [Hw H]; split; try exact Hw;
    [apply (unbrace_occurs _ _ Hw)|apply (unbrace_occurs _ _ Hw)]; exact H.
Qed.

Lemma name_plain_segment x seg :
  is_name x = true ->
  (seg = "{"%char :: "{"%char :: x ++ ["}"%char; "}"%char]
   \/ seg = "{"%char :: x ++ ["}"%char]) ->
  plain_segment seg.
Proof.
  intros Hx Hseg. split; [|split].
  - destruct Hseg as [->| ->]; discriminate.
  - assert (Hin : forall y, In y x -> y <> "%"%char /\ y <> "("%char).
    { intros y Hy. apply is_name_spec in Hx. destruct Hx as [_ Hx].
      pose proof (Hx y Hy) as Hw. split; intros ->; discriminate. }
    intros y Hy. destruct Hseg as [->| ->].
    + destruct Hy as [<-|[<-|Hy]]; [split; discriminate|split; discriminate|].
      apply in_app_or in Hy as [Hy|Hy]; [exact (Hin y Hy)|].
      destruct Hy as [<-|[<-|[]]]; split; discriminate.
    + destruct Hy as [<-|Hy]; [split; discriminate|].
      apply in_app_or in Hy as [Hy|Hy]; [exact (Hin y Hy)|].
      destruct Hy as [<-|[]]; split; discriminate.
  - intros y s' Hs. destruct Hseg as [->| ->]; injection Hs as <- _; discriminate.
Qed.

(** In [P ++ seg ++ Q] with [seg] a single braced group, an occurrence
    lies in [P], in [seg] or in [Q]. *)
Lemma occurs_around w P S0 Q :
  is_name w = true ->
  (exists s0, S0 = "{"%char :: s0) -> (exists s1, S0 = s1 ++ ["}"%char]) ->
  (occurs w (P ++ S0 ++ Q) <-> occurs w P \/ occurs w S0 \/ occurs w Q).
Proof.
  intros Hw Hs Hl.
  rewrite occurs_app; [|exact Hw|].
  2:{ right. destruct Hs as [s0 ->]. exists (s0 ++ Q). reflexivity. }
  rewrite (occurs_app w S0 Q Hw); [tauto|left; exact Hl].
Qed.

Lemma double_single_same A B x w :
  is_name x = true ->
  (In w (variables_of (A ++ s2l "{{" ++ x ++ s2l "}}" ++ B))
   <-> In w (variables_of (A ++ s2l "{" ++ x ++ s2l "}" ++ B))).
Proof.
  intros Hx. rewrite !variables_of_In.
  set (seg1 := "{"%char :: "{"%char :: x ++ ["}"%char; "}"%char]).
  set (seg2 := "{"%char :: x ++ ["}"%char]).
  assert (E1 : s2l "{{" ++ x ++ s2l "}}" ++ B = seg1 ++ B)
    by (unfold seg1; simpl; rewrite <- app_assoc; reflexivity).
  assert (E2 : s2l "{" ++ x ++ s2l "}" ++ B = seg2 ++ B)
    by (unfold seg2; simpl; rewrite <- app_assoc; reflexivity).
  rewrite E1, E2.
  assert (P1 : plain_segment seg1) by (apply (name_plain_segment x); [exact Hx|left; reflexivity]).
  assert (P2 : plain_segment seg2) by (apply (name_plain_segment x); [exact Hx|right; reflexivity]).
  destruct (strip_transparent (length A) A B (le_n _)) as [[P [Q H]]|[R H]].
  - rewrite (H seg1 P1), (H seg2 P2).
    split; intros [Hw Hocc]; split; try exact Hw.
    + rewrite occurs_around in Hocc |- *; try exact Hw;
        try (eexists; reflexivity);
        try (exists ("{"%char :: "{"%char :: x ++ ["}"%char]); unfold seg1; simpl;
             rewrite <- app_assoc; reflexivity);
        try (exists ("{"%char :: x); reflexivity).
      unfold seg1 in Hocc. unfold seg2.
      replace ("{"%char :: "{"%char :: x ++ ["}"%char; "}"%char])
        with ("{"%char :: ("{"%char :: x ++ ["}"%char]) ++ ["}"%char]) in Hocc
        by (simpl; rewrite <- app_assoc; reflexivity).
      rewrite (occurs_wrap w ("{"%char :: x ++ ["}"%char])) in Hocc;
        [exact Hocc|exact Hw|eexists; reflexivity|exists ("{"%char :: x); reflexivity].
    + rewrite occurs_around in Hocc |- *; try exact Hw;
        try (eexists; reflexivity);
        try (exists ("{"%char :: "{"%char :: x ++ ["}"%char]); unfold seg1; simpl;
             rewrite <- app_assoc; reflexivity);
        try (exists ("{"%char :: x); reflexivity).
      unfold seg1. unfold seg2 in Hocc.
      replace ("{"%char :: "{"%char :: x ++ ["}"%char; "}"%char])
        with ("{"%char :: ("{"%char :: x ++ ["}"%char]) ++ ["}"%char])
        by (simpl; rewrite <- app_assoc; reflexivity).
      rewrite (occurs_wrap w ("{"%char :: x ++ ["}"%char]));
        [exact Hocc|exact Hw|eexists; reflexivity|exists ("{"%char :: x); reflexivity].
  - rewrite (H seg1 P1), (H seg2 P2). reflexivity.
Qed.

(** C3 (derived variables), counterexample: in [(%a%{x}%)] the span has a
    [%] inside, so the code's [\(%[^%]*?%\)] does not remove it and [x] is
    a variable; stripping every [(%...%)] span whatever its characters
    (the reading [spec_variables]) leaves no variable. *)
Lemma variables_pct_inside_comment :
  variables_of (s2l "(%a%{x}%)") = [s2l "x"]
  /\ spec_variables (s2l "(%a%{x}%)") = [].
Proof. vm_compute. split; reflexivity. Qed.

(** C3 (derived variables), amended: the variables of a content string
    are exactly the distinct [\w+] names [w] such that [{w}] occurs in the
    content once the [(%...%)] spans without an inner [%] are removed (the
    [{{..}}] rewrite adds and removes none); consequently, for a name [x],
    a string containing [{{x}}] has the same variables as the string with
    [{{x}}] replaced by [{x}]. *)
Theorem variables_of_amended (c : text) :
  (forall w, In w (variables_of c) <-> is_name w = true /\ occurs w (strip_comments c))
  /\ NoDup (variables_of c)
  /\ (forall A B x, c = A ++ s2l "{{" ++ x ++ s2l "}}" ++ B -> is_name x = true ->
        forall w, In w (variables_of c)
                  <-> In w (variables_of (A ++ s2l "{" ++ x ++ s2l "}" ++ B))).
Proof.
  split; [|split].
  - intros w. apply variables_of_In.
  - apply dedup_NoDup.
  - intros A B x -> Hx w. apply double_single_same. exact Hx.
Qed.

Lemma variables_of_amended_witness :
  s2l "Hi {{name}}! (%note%)" = s2l "Hi " ++ s2l "{{" ++ s2l "name" ++ s2l "}}" ++ s2l "! (%note%)"
  /\ is_name (s2l "name") = true
  /\ (forall w, In w (variables_of (s2l "Hi {{name}}! (%note%)"))
                <-> In w (variables_of (s2l "Hi {name}! (%note%)"))).
Proof.
  split; [reflexivity|]. split; [reflexivity|].
  apply (proj2 (proj2 (variables_of_amended (s2l "Hi {{name}}! (%note%)")))
           (s2l "Hi ") (s2l "! (%note%)") (s2l "name")); reflexivity.
Defined.

End Vars.


Module Proc.

(** ** Substitution of [\{(\w+)\}] *)

Lemma var_at_not_open x r : x <> "{"%char -> var_at (x :: r) = None.
Proof. intros Hx. unfold var_at. rewrite (Vars.ascii_eqb_false _ _ Hx). reflexivity. Qed.

Lemma re_sub_var_nobrace f u r :
  (forall x, In x u -> x <> "{"%char) -> re_sub var_at f (u ++ r) = u ++ re_sub var_at f r.
Proof.
  induction u as [|x u IH]; intros Hu; [reflexivity|].
  simpl. rewrite (re_sub_cons var_at var_at_shrinks).
  rewrite var_at_not_open by (apply Hu; left; reflexivity).
  rewrite IH; [reflexivity|]. intros y Hy. apply Hu. right. exact Hy.
Qed.

Lemma re_sub_var_name f w r :
  is_name w = true ->
  re_sub var_at f ("{"%char :: w ++ "}"%char :: r) = f w ++ re_sub var_at f r.
Proof.
  intros Hw. rewrite (re_sub_cons var_at var_at_shrinks), Vars.var_at_intro by exact Hw.
  reflexivity.
Qed.

Lemma re_sub_var_open f r :
  var_at ("{"%char :: r) = None ->
  re_sub var_at f ("{"%char :: r) = "{"%char :: re_sub var_at f r.
Proof. intros H. rewrite (re_sub_cons var_at var_at_shrinks), H. reflexivity. Qed.

(** ** The unknown-keyword check *)

Lemma filter_none {A} (f : A -> bool) l :
  (forall x, In x l -> f x = false) -> filter f l = [].
Proof.
  induction l as [|x l IH]; intros H; simpl; [reflexivity|].
  rewrite (H x (or_introl eq_refl)). apply IH. intros y Hy. apply H. right. exact Hy.
Qed.

Lemma unknown_kwargs_In d (kw : dict pyval) k :
  In k (filter (fun k => negb (mem_text k (variables_of (content d)))) (dedup (map fst kw)))
  <-> In k (map fst kw) /\ ~ In k (variables_of (content d)).
Proof.
  rewrite filter_In, Vars.dedup_In.
  destruct (mem_text k (variables_of (content d))) eqn:E.
  - apply Vars.mem_text_In in E. simpl. split; [intros [_ H]; discriminate|tauto].
  - assert (Hn : ~ In k (variables_of (content d))).
    { intros H. apply Vars.mem_text_In in H. congruence. }
    simpl. tauto.
Qed.

Lemma process_rendered d (kw : dict pyval) :
  (forall k, In k (map fst kw) -> In k (variables_of (content d))) ->
  process d kw = Rendered (re_sub var_at (render_var (resolve d kw)) (normalize (content d))).
Proof.
  intros H. unfold process. cbv zeta.
  rewrite filter_none; [reflexivity|].
  intros x Hx. apply Vars.dedup_In, H, Vars.mem_text_In in Hx.
  change (dedup (re_findall var_at (normalize (content d)))) with (variables_of (content d)).
  rewrite Hx. reflexivity.
Qed.

Lemma process_error d (kw : dict pyval) k :
  In k (map fst kw) -> ~ In k (variables_of (content d)) ->
  process d kw =
  ValueError (unknown_kwargs_prefix ++ join (s2l ", ")
    (sort_texts (filter (fun k => negb (mem_text k (variables_of (content d))))
                        (dedup (map fst kw))))).
Proof.
  intros Hk Hn. unfold process. cbv zeta.
  change (dedup (re_findall var_at (normalize (content d)))) with (variables_of (content d)).
  pose proof (proj2 (unknown_kwargs_In d kw k) (conj Hk Hn)) as Hin.
  destruct (filter _ _) as [|x l]; [destruct Hin|reflexivity].
Qed.

(** ** [sorted] *)

Lemma text_ltb_asym a b : text_ltb a b = true -> text_ltb b a = false.
Proof.
  revert b. induction a as [|c a IH]; intros [|d b]; simpl; try discriminate; try reflexivity.
  destruct (nat_of_ascii c <? nat_of_ascii d) eqn:E1.
  - intros _. apply Nat.ltb_lt in E1.
    assert (E2 : (nat_of_ascii d <? nat_of_ascii c) = false) by (apply Nat.ltb_ge; lia).
    rewrite E2. reflexivity.
  - destruct (nat_of_ascii d <? nat_of_ascii c) eqn:E2; [discriminate|].
    apply IH.
Qed.

Lemma text_leb_total a b : text_leb a b = false -> text_leb b a = true.
Proof.
  unfold text_leb. intros H. apply negb_false_iff in H.
  rewrite (text_ltb_asym _ _ H). reflexivity.
Qed.

Lemma insert_sorted_perm x l : Permutation (insert_sorted x l) (x :: l).
Proof.
  induction l as [|y l IH]; simpl; [reflexivity|].
  destruct (text_leb x y); [reflexivity|].
  transitivity (y :: x :: l); [constructor; exact IH|constructor].
Qed.

Lemma sort_texts_perm l : Permutation (sort_texts l) l.
Proof.
  induction l as [|x l IH]; simpl; [reflexivity|].
  rewrite insert_sorted_perm. constructor. exact IH.
Qed.

Lemma insert_sorted_sorted x l : Sorted text_le l -> Sorted text_le (insert_sorted x l).
Proof.
  induction l as [|y l IH]; intros H; simpl.
  - repeat constructor.
  - destruct (text_leb x y) eqn:E.
    + constructor; [exact H|constructor; exact E].
    + apply Sorted_inv in H as [Hl Hhd]. constructor; [apply IH; exact Hl|].
      destruct l as [|z l']; simpl.
      * constructor. apply text_leb_total. exact E.
      * destruct (text_leb x z); constructor.
        -- apply text_leb_total. exact E.
        -- inversion Hhd. assumption.
Qed.

Lemma sort_texts_sorted l : Sorted text_le (sort_texts l).
Proof.
  induction l as [|x l IH]; simpl; [constructor|]. apply insert_sorted_sorted. exact IH.
Qed.

(** ** Properties of [process] *)

(** C4 (substitution): when every keyword is a placeholder, [process]
    returns the comment-stripped, [{{}}]-normalised content with each
    [\w+] placeholder [{w}] replaced, left to right, by the rendering of
    its resolved value; the value is the keyword's if given, else the
    default's, else none; a value is rendered with [str], and a missing
    one leaves [{w}] as it is. Text without [{], and a [{] that starts
    no placeholder, is copied. *)
Theorem process_substitutes d (kw : dict pyval) :
  (forall k, In k (map fst kw) -> In k (variables_of (content d))) ->
  let subst := re_sub var_at (render_var (resolve d kw)) in
  process d kw = Rendered (subst (normalize (content d)))
  /\ (forall v x, dict_get v kw = Some x -> resolve d kw v = x)
  /\ (forall v s, dict_get v kw = None -> dict_get v (defaults d) = Some s ->
        resolve d kw v = PyStr s)
  /\ (forall v, dict_get v kw = None -> dict_get v (defaults d) = None ->
        resolve d kw v = PyNone)
  /\ (forall w r, is_name w = true ->
        subst ("{"%char :: w ++ "}"%char :: r) = render_var (resolve d kw) w ++ subst r)
  /\ (forall w, resolve d kw w = PyNone -> render_var (resolve d kw) w = ch "{" ++ w ++ ch "}")
  /\ (forall w s, resolve d kw w = PyStr s -> render_var (resolve d kw) w = s)
  /\ (forall u r, (forall x, In x u -> x <> "{"%char) -> subst (u ++ r) = u ++ subst r)
  /\ (forall r, var_at ("{"%char :: r) = None -> subst ("{"%char :: r) = "{"%char :: subst r).
Proof.
  intros H subst. split; [|split; [|split; [|split; [|split; [|split; [|split; [|split]]]]]]].
  - apply process_rendered. exact H.
  - intros v x Hx. unfold resolve. rewrite Hx. reflexivity.
  - intros v s Hk Hd. unfold resolve. rewrite Hk, Hd. reflexivity.
  - intros v Hk Hd. unfold resolve. rewrite Hk, Hd. reflexivity.
  - intros w r Hw. apply re_sub_var_name. exact Hw.
  - intros w Hw. unfold render_var. rewrite Hw. reflexivity.
  - intros w s Hw. unfold render_var. rewrite Hw. reflexivity.
  - intros u r Hu. apply re_sub_var_nobrace. exact Hu.
  - intros r Hr. apply re_sub_var_open. exact Hr.
Qed.

Lemma process_substitutes_witness :
  let d := mkPrompt [(s2l "format_version", s2l "1.0")] [(s2l "greet", s2l "hi")]
             (s2l "Hello {name}, {{greet}} {x}(% note %)") in
  let kw := [(s2l "name", PyStr (s2l "Ann"))] in
  process d kw = Rendered (s2l "Hello Ann, hi {x}")
  /\ process d kw = Rendered (re_sub var_at (render_var (resolve d kw)) (normalize (content d))).
Proof.
  intros d kw. split; [vm_compute; reflexivity|].
  apply (process_substitutes d kw).
  intros k [<-|[]]. apply Vars.mem_text_In. vm_compute. reflexivity.
Defined.

(** C5 (unknown keywords): when some keyword is not a placeholder,
    [process] fails with the [ValueError] whose message is the fixed
    prefix followed by the offending keywords, each once, sorted by code
    point and joined with [", "]; no output is produced. *)
Theorem process_unknown_kwargs d (kw : dict pyval) :
  (exists k, In k (map fst kw) /\ ~ In k (variables_of (content d))) ->
  exists ks,
    process d kw = ValueError (unknown_kwargs_prefix ++ join (s2l ", ") ks)
    /\ (forall k, In k ks <-> In k (map fst kw) /\ ~ In k (variables_of (content d)))
    /\ NoDup ks
    /\ Sorted text_le ks.
Proof.
  intros [k [Hk Hn]].
  set (extra := filter (fun k => negb (mem_text k (variables_of (content d))))
                       (dedup (map fst kw))).
  exists (sort_texts extra). split; [|split; [|split]].
  - apply (process_error d kw k Hk Hn).
  - intros k'. rewrite (sort_texts_perm extra). apply unknown_kwargs_In.
  - apply (Permutation_NoDup (Permutation_sym (sort_texts_perm extra))).
    apply NoDup_filter. apply Vars.dedup_NoDup.
  - apply sort_texts_sorted.
Qed.

Lemma process_unknown_kwargs_witness :
  let d := mkPrompt [(s2l "format_version", s2l "1.0")] []
             (s2l "Hello {var1} {var2}") in
  let kw := [(s2l "var2", PyStr (s2l "y")); (s2l "zeta", PyStr (s2l "z"));
             (s2l "badkey", PyStr (s2l "z"))] in
  process d kw = ValueError (unknown_kwargs_prefix ++ s2l "badkey, zeta")
  /\ exists ks,
    process d kw = ValueError (unknown_kwargs_prefix ++ join (s2l ", ") ks)
    /\ (forall k, In k ks <-> In k (map fst kw) /\ ~ In k (variables_of (content d)))
    /\ NoDup ks
    /\ Sorted text_le ks.
Proof.
  intros d kw. split; [vm_compute; reflexivity|].
  apply (process_unknown_kwargs d kw).
  exists (s2l "badkey"). split.
  - right. right. left. reflexivity.
  - intros H. apply Vars.mem_text_In in H. vm_compute in H. discriminate.
Defined.

(** C10 (explicit [None]): a keyword given as [None] is used as the
    value even when the document has a default for it: the placeholder
    resolves to no value and its [{v}] stays in the output as is. *)
Theorem explicit_none_keeps_placeholder d (kw : dict pyval) v s :
  dict_get v kw = Some PyNone ->
  dict_get v (defaults d) = Some s ->
  (forall k, In k (map fst kw) -> In k (variables_of (content d))) ->
  resolve d kw v = PyNone
  /\ render_var (resolve d kw) v = ch "{" ++ v ++ ch "}"
  /\ (forall u r, normalize (content d) = u ++ "{"%char :: v ++ "}"%char :: r ->
        (forall x, In x u -> x <> "{"%char) ->
        process d kw = Rendered (u ++ "{"%char :: v ++ "}"%char
                                   :: re_sub var_at (render_var (resolve d kw)) r)).
Proof.
  intros Hk Hd Hkw.
  assert (Hr : resolve d kw v = PyNone) by (unfold resolve; rewrite Hk; reflexivity).
  assert (Hv : render_var (resolve d kw) v = ch "{" ++ v ++ ch "}")
    by (unfold render_var; rewrite Hr; reflexivity).
  split; [exact Hr|split; [exact Hv|]].
  intros u r Hn Hu. rewrite (process_rendered d kw Hkw), Hn, re_sub_var_nobrace by exact Hu.
  assert (Hw : is_name v = true).
  { assert (Hin : In v (variables_of (content d))).
    { apply Hkw. clear -Hk. induction kw as [|[k x] kw IH]; simpl in *; [discriminate|].
      destruct (text_eqb v k) eqn:E; [left; symmetry; apply Vars.text_eqb_true; exact E|].
      right. apply IH. exact Hk. }
    apply Vars.variables_of_In in Hin. exact (proj1 Hin). }
  rewrite re_sub_var_name by exact Hw. rewrite Hv. unfold ch. simpl.
  rewrite <- app_assoc. reflexivity.
Qed.

Lemma explicit_none_keeps_placeholder_witness :
  let d := mkPrompt [(s2l "format_version", s2l "1.0")] [(s2l "name", s2l "World")]
             (s2l "Hello {name}!") in
  let kw := [(s2l "name", PyNone)] in
  process d kw = Rendered (s2l "Hello {name}!")
  /\ resolve d kw (s2l "name") = PyNone
  /\ render_var (resolve d kw) (s2l "name") = ch "{" ++ s2l "name" ++ ch "}"
  /\ (forall u r, normalize (content d) = u ++ "{"%char :: s2l "name" ++ "}"%char :: r ->
        (forall x, In x u -> x <> "{"%char) ->
        process d kw = Rendered (u ++ "{"%char :: s2l "name" ++ "}"%char
                                   :: re_sub var_at (render_var (resolve d kw)) r)).
Proof.
  intros d kw. split; [vm_compute; reflexivity|].
  apply (explicit_none_keeps_placeholder d kw (s2l "name") (s2l "World")).
  - reflexivity.
  - reflexivity.
  - intros k [<-|[]]. apply Vars.mem_text_In. vm_compute. reflexivity.
Defined.

End Proc.


Module Parser.

Lemma parse_loop_cons i raw L st :
  parse_loop i (raw :: L) st = (st' <- parse_step st i raw ;; parse_loop (S i) L st').
Proof. reflexivity. Qed.

Lemma parse_loop_app M N : forall i st,
  parse_loop i (M ++ N) st = (st' <- parse_loop i M st ;; parse_loop (i + length M) N st').
Proof.
  induction M as [|raw M IH]; intros i st.
  - simpl. rewrite Nat.add_0_r. reflexivity.
  - simpl app. rewrite !parse_loop_cons.
    destruct (parse_step st i raw) as [s1|e]; [|reflexivity].
    cbv beta iota delta [bind]. rewrite IH. simpl length.
    replace (S i + length M) with (i + S (length M)) by lia. reflexivity.
Qed.

Lemma header_not_skipped line sec :
  header_fullmatch line = Some sec ->
  (match line with [] => true | _ => false end) || is_full_comment line = false.
Proof.
  destruct line as [|c r]; [discriminate|]. unfold header_fullmatch.
  destruct (Ascii.eqb c "[") eqn:E; [|discriminate].
  apply Ascii.eqb_eq in E. subst c. intros _. reflexivity.
Qed.

Lemma step_header st i raw sec :
  header_fullmatch (strip raw) = Some sec ->
  parse_step st i raw = Ok (mkState (Some sec) None (st_metadata st) (st_defaults st) (st_content st)).
Proof.
  intros Hh. unfold parse_step. cbv zeta.
  rewrite (header_not_skipped _ _ Hh), Hh. reflexivity.
Qed.

Lemma content_lines_cons raw L :
  content_lines (raw :: L) =
  if (match strip raw with [] => true | _ => false end) || is_full_comment (strip raw)
  then content_lines L
  else match clean_content_line (strip raw) with
       | [] => content_lines L
       | l => l :: content_lines L
       end.
Proof. reflexivity. Qed.

(** ** Properties of the parser *)

(** C6 (content lines), counterexample: a trailing inline comment is
    removed when the document is parsed, not kept verbatim. *)
Lemma content_trailing_comment_removed :
  parse (s2l "[METADATA]" ++ nl ++ s2l "@format_version 1.0" ++ nl ++ s2l "[CONTENT]"
         ++ nl ++ s2l "Hello (%c%)")
  = Ok (mkPrompt [(s2l "format_version", s2l "1.0")] [] (s2l "Hello")).
Proof. vm_compute. reflexivity. Qed.

(** C7 (continuation lines): on the text of the repository test
    [test_multiline_values], each continuation line is stored without its
    indentation: the value of [description] is
    [\nThis is a\nmultiline description] and that of [var1] is
    [\nThis is a\nmultiline value], not the values with the
    indentation [  ] kept before each continuation line. *)
Theorem multiline_values_indent_lost :
  let t := s2l "[METADATA]" ++ nl ++ s2l "@format_version 1.0" ++ nl
           ++ s2l "@description >" ++ nl ++ s2l "  This is a" ++ nl
           ++ s2l "  multiline description" ++ nl ++ nl
           ++ s2l "[DEFAULTS]" ++ nl ++ s2l "@var1 >" ++ nl ++ s2l "  This is a" ++ nl
           ++ s2l "  multiline value" ++ nl ++ nl
           ++ s2l "[CONTENT]" ++ nl ++ s2l "Using {var1} here." in
  exists d, parse t = Ok d
  /\ dict_get (s2l "description") (metadata d)
     = Some (nl ++ s2l "This is a" ++ nl ++ s2l "multiline description")
  /\ dict_get (s2l "var1") (defaults d)
     = Some (nl ++ s2l "This is a" ++ nl ++ s2l "multiline value")
  /\ dict_get (s2l "description") (metadata d)
     <> Some (nl ++ s2l "  This is a" ++ nl ++ s2l "  multiline description")
  /\ dict_get (s2l "var1") (defaults d)
     <> Some (nl ++ s2l "  This is a" ++ nl ++ s2l "  multiline value").
Proof.
  intros t. eexists. split; [vm_compute; reflexivity|].
  split; [vm_compute; reflexivity|]. split; [vm_compute; reflexivity|].
  split; vm_compute; discriminate.
Qed.

(** C8 (stray lines): in a METADATA or DEFAULTS section with no open
    multiline key, a non-blank line that is neither a full-line comment
    nor a header nor an [@] line leaves the parser state unchanged: it
    is ignored and raises no error. *)
Theorem stray_line_ignored st i raw sec :
  current_section st = Some sec -> sec <> CONTENT ->
  (current_key st = None \/ current_key st = Some []) ->
  strip raw <> [] -> is_full_comment (strip raw) = false ->
  header_fullmatch (strip raw) = None -> startswith (s2l "@") (strip raw) = false ->
  parse_step st i raw = Ok st.
Proof.
  intros Hs Hsec Hk Hne Hfc Hh Hat.
  unfold parse_step. cbv zeta.
  assert (Hb : (match strip raw with [] => true | _ => false end) = false)
    by (destruct (strip raw); [congruence|reflexivity]).
  rewrite Hb, Hfc, Hh. cbv beta iota delta [orb].
  rewrite Hs.
  destruct sec; [| |congruence]; cbv beta iota; rewrite Hat;
    destruct Hk as [Hk|Hk]; rewrite Hk; reflexivity.
Qed.

Lemma stray_line_ignored_witness :
  let st := mkState (Some METADATA) None [(s2l "format_version", s2l "1.0")] [] [] in
  parse_step st 2 (s2l "foo") = Ok st.
Proof.
  intros st. apply (stray_line_ignored st 2 (s2l "foo") METADATA);
    try reflexivity; try discriminate. left. reflexivity.
Defined.

(** C8 (stray lines), counterexample: a plain line inside [[METADATA]]
    does not make parsing fail. *)
Lemma stray_line_parses :
  parse (s2l "[METADATA]" ++ nl ++ s2l "@format_version 1.0" ++ nl ++ s2l "foo" ++ nl
         ++ s2l "[CONTENT]" ++ nl ++ s2l "Hi")
  = Ok (mkPrompt [(s2l "format_version", s2l "1.0")] [] (s2l "Hi")).
Proof. vm_compute. reflexivity. Qed.

End Parser.

(* ------------------------------------------------------------------ *)
(** ** Ordered dictionaries *)

Module Dict.

Lemma text_eqb_refl a : text_eqb a a = true.
Proof. apply Vars.text_eqb_true. reflexivity. Qed.

Lemma text_eqb_sym a b : text_eqb a b = text_eqb b a.
Proof.
  destruct (text_eqb a b) eqn:E, (text_eqb b a) eqn:F; try reflexivity.
  - apply Vars.text_eqb_true in E. subst. rewrite text_eqb_refl in F. discriminate.
  - apply Vars.text_eqb_true in F. subst. rewrite text_eqb_refl in E. discriminate.
Qed.

Lemma text_eqb_neq a b : a <> b -> text_eqb a b = false.
Proof.
  intros H. destruct (text_eqb a b) eqn:E; [|reflexivity].
  apply Vars.text_eqb_true in E. contradiction.
Qed.

Lemma dict_get_set {V} k k' (v : V) d :
  dict_get k' (dict_set k v d) = if text_eqb k' k then Some v else dict_get k' d.
Proof.
  induction d as [|[k0 v0] d IH]; simpl.
  - reflexivity.
  - destruct (text_eqb k k0) eqn:E.
    + apply Vars.text_eqb_true in E. subst k0. simpl.
      destruct (text_eqb k' k); reflexivity.
    + simpl. rewrite IH.
      destruct (text_eqb k' k0) eqn:F; [|reflexivity].
      apply Vars.text_eqb_true in F. subst k0.
      rewrite text_eqb_sym, E. reflexivity.
Qed.

Lemma dict_get_None {V} k (d : dict V) : ~ In k (map fst d) -> dict_get k d = None.
Proof.
  induction d as [|[k0 v0] d IH]; simpl; intros H; [reflexivity|].
  rewrite text_eqb_neq by (intros ->; apply H; left; reflexivity).
  apply IH. intros Hk. apply H. right. exact Hk.
Qed.

Lemma dict_get_notin {V} k (d : dict V) : dict_get k d = None -> ~ In k (map fst d).
Proof.
  induction d as [|[k0 v0] d IH]; simpl; [tauto|].
  destruct (text_eqb k k0) eqn:E; [discriminate|].
  intros H [->|Hk]; [rewrite text_eqb_refl in E; discriminate|exact (IH H Hk)].
Qed.

Lemma dict_get_In {V} k (d : dict V) v : dict_get k d = Some v -> In k (map fst d).
Proof.
  induction d as [|[k0 v0] d IH]; simpl; [discriminate|].
  destruct (text_eqb k k0) eqn:E.
  - apply Vars.text_eqb_true in E. subst. left. reflexivity.
  - intros H. right. exact (IH H).
Qed.

Lemma dict_mem_set {V} k k' (v : V) d :
  dict_mem k' (dict_set k v d) = text_eqb k' k || dict_mem k' d.
Proof. unfold dict_mem. rewrite dict_get_set. destruct (text_eqb k' k); reflexivity. Qed.

Lemma dict_keys_set {V} k (v : V) d :
  map fst (dict_set k v d) = if dict_mem k d then map fst d else map fst d ++ [k].
Proof.
  unfold dict_mem. induction d as [|[k0 v0] d IH]; simpl; [reflexivity|].
  destruct (text_eqb k k0) eqn:E; simpl; [reflexivity|].
  rewrite IH. destruct (dict_get k d); reflexivity.
Qed.

Lemma dict_set_NoDup {V} k (v : V) d :
  NoDup (map fst d) -> NoDup (map fst (dict_set k v d)).
Proof.
  intros H. rewrite dict_keys_set. unfold dict_mem.
  destruct (dict_get k d) eqn:E; [exact H|].
  apply NoDup_app; [exact H|repeat constructor; simpl; tauto|].
  intros x Hx [<-|[]]. apply (dict_get_notin k d E). exact Hx.
Qed.

Lemma dict_get_app_None {V} k (a b : dict V) :
  dict_get k a = None -> dict_get k b = None -> dict_get k (a ++ b) = None.
Proof.
  induction a as [|[k0 v0] a IH]; simpl; [tauto|].
  destruct (text_eqb k k0); [discriminate|]. exact IH.
Qed.

Lemma dict_set_absent {V} k (v : V) d : dict_get k d = None -> dict_set k v d = d ++ [(k, v)].
Proof.
  induction d as [|[k0 v0] d IH]; simpl; [reflexivity|].
  destruct (text_eqb k k0); [discriminate|]. intros H. rewrite (IH H). reflexivity.
Qed.

Lemma dict_get_del_other {V} k k' (d : dict V) :
  k' <> k -> dict_get k' (dict_del k d) = dict_get k' d.
Proof.
  intros Hne. induction d as [|[k0 v0] d IH]; simpl; [reflexivity|].
  destruct (text_eqb k k0) eqn:E.
  - apply Vars.text_eqb_true in E. subst k0. rewrite (text_eqb_neq k' k Hne). reflexivity.
  - simpl. rewrite IH. reflexivity.
Qed.

Lemma dict_get_del_same {V} k (d : dict V) :
  NoDup (map fst d) -> dict_get k (dict_del k d) = None.
Proof.
  induction d as [|[k0 v0] d IH]; simpl; intros Hd; [reflexivity|].
  inversion Hd as [|x l Hx Hd' Heq]; subst.
  destruct (text_eqb k k0) eqn:E.
  - apply Vars.text_eqb_true in E. subst k0. apply dict_get_None. exact Hx.
  - simpl. rewrite E. exact (IH Hd').
Qed.

Lemma dict_del_keys_In {V} k x (d : dict V) :
  In x (map fst (dict_del k d)) -> In x (map fst d).
Proof.
  induction d as [|[k0 v0] d IH]; simpl; [tauto|].
  destruct (text_eqb k k0); simpl; [tauto|]. intros [H|H]; [left; exact H|right; exact (IH H)].
Qed.

Lemma dict_del_NoDup {V} k (d : dict V) :
  NoDup (map fst d) -> NoDup (map fst (dict_del k d)).
Proof.
  induction d as [|[k0 v0] d IH]; simpl; intros Hd; [constructor|].
  inversion Hd as [|x l Hx Hd' Heq]; subst.
  destruct (text_eqb k k0); [exact Hd'|]. simpl. constructor; [|exact (IH Hd')].
  intros H. apply Hx. exact (dict_del_keys_In k k0 d H).
Qed.

Lemma dict_del_absent {V} k (d : dict V) : dict_get k d = None -> dict_del k d = d.
Proof.
  induction d as [|[k0 v0] d IH]; simpl; [reflexivity|].
  destruct (text_eqb k k0); [discriminate|]. intros H. rewrite (IH H). reflexivity.
Qed.

Lemma dict_del_set {V} k (v : V) d : dict_del k (dict_set k v d) = dict_del k d.
Proof.
  induction d as [|[k0 v0] d IH]; simpl.
  - rewrite text_eqb_refl. reflexivity.
  - destruct (text_eqb k k0) eqn:E; simpl; rewrite E; [reflexivity|]. rewrite IH. reflexivity.
Qed.

Lemma dict_update_cons {V} (d : dict V) k v m :
  dict_update d ((k, v) :: m) = dict_update (dict_set k v d) m.
Proof. reflexivity. Qed.

Lemma dict_update_get {V} k (m : dict V) : forall d,
  NoDup (map fst m) ->
  dict_get k (dict_update d m) = match dict_get k m with Some v => Some v | None => dict_get k d end.
Proof.
  induction m as [|[k0 v0] m IH]; intros d Hm; [reflexivity|].
  inversion Hm as [|x l Hx Hm' Heq]; subst.
  rewrite dict_update_cons, (IH _ Hm'), dict_get_set. simpl.
  destruct (text_eqb k k0) eqn:E; [|reflexivity].
  apply Vars.text_eqb_true in E. subst k0. rewrite (dict_get_None k m Hx). reflexivity.
Qed.

Lemma dict_update_NoDup {V} (m : dict V) : forall d,
  NoDup (map fst d) -> NoDup (map fst (dict_update d m)).
Proof.
  induction m as [|[k0 v0] m IH]; intros d Hd; [exact Hd|].
  rewrite dict_update_cons. apply IH, dict_set_NoDup, Hd.
Qed.

Lemma dict_update_fresh {V} (m : dict V) : forall d,
  NoDup (map fst m) -> (forall k, In k (map fst m) -> dict_get k d = None) ->
  dict_update d m = d ++ m.
Proof.
  induction m as [|[k0 v0] m IH]; intros d Hm Hd; [rewrite app_nil_r; reflexivity|].
  inversion Hm as [|x l Hx Hm' Heq]; subst.
  rewrite dict_update_cons, dict_set_absent by (apply Hd; left; reflexivity).
  rewrite IH; [rewrite <- app_assoc; reflexivity|exact Hm'|].
  intros k Hk. rewrite dict_get_app_None; [reflexivity|apply Hd; right; exact Hk|].
  simpl. rewrite text_eqb_neq; [reflexivity|]. intros ->. contradiction.
Qed.

End Dict.

(* ------------------------------------------------------------------ *)
(** ** Properties of the document edits *)

Module Edit.

(** [add_metadata(k, v)] and [add_default(k, v)] map [k] to [v] and leave
    every other key, the other section and the content as they were. *)
Theorem add_lookup k v d :
  (forall k', dict_get k' (metadata (add_metadata k v d)) =
              if text_eqb k' k then Some v else dict_get k' (metadata d))
  /\ defaults (add_metadata k v d) = defaults d /\ content (add_metadata k v d) = content d
  /\ (forall k', dict_get k' (defaults (add_default k v d)) =
                 if text_eqb k' k then Some v else dict_get k' (defaults d))
  /\ metadata (add_default k v d) = metadata d /\ content (add_default k v d) = content d.
Proof.
  repeat split; intros; simpl; apply Dict.dict_get_set.
Qed.

(** On a dictionary without repeated keys (every Python dict),
    [remove_metadata(k)] and [remove_default(k)] make [k] absent and keep
    every other key. *)
Theorem remove_lookup k d :
  NoDup (map fst (metadata d)) -> NoDup (map fst (defaults d)) ->
  (forall k', dict_get k' (metadata (remove_metadata k d)) =
              if text_eqb k' k then None else dict_get k' (metadata d))
  /\ (forall k', dict_get k' (defaults (remove_default k d)) =
                 if text_eqb k' k then None else dict_get k' (defaults d)).
Proof.
  intros Hm Hd. split; intros k'.
  - unfold remove_metadata, dict_mem.
    destruct (text_eqb k' k) eqn:E.
    + apply Vars.text_eqb_true in E. subst k'.
      destruct (dict_get k (metadata d)) eqn:G; [|exact G].
      apply Dict.dict_get_del_same. exact Hm.
    + assert (Hne : k' <> k) by (intros ->; rewrite Dict.text_eqb_refl in E; discriminate).
      destruct (dict_get k (metadata d)); [|reflexivity].
      apply Dict.dict_get_del_other. exact Hne.
  - unfold remove_default, dict_mem.
    destruct (text_eqb k' k) eqn:E.
    + apply Vars.text_eqb_true in E. subst k'.
      destruct (dict_get k (defaults d)) eqn:G; [|exact G].
      apply Dict.dict_get_del_same. exact Hd.
    + assert (Hne : k' <> k) by (intros ->; rewrite Dict.text_eqb_refl in E; discriminate).
      destruct (dict_get k (defaults d)); [|reflexivity].
      apply Dict.dict_get_del_other. exact Hne.
Qed.

Lemma remove_lookup_witness :
  NoDup (map fst (metadata (mkPrompt [(s2l "format_version", s2l "0.0.1"); (s2l "name", s2l "x")]
                                     [(s2l "who", s2l "ana")] (s2l "Hi {who}"))))
  /\ NoDup (map fst (defaults (mkPrompt [(s2l "format_version", s2l "0.0.1"); (s2l "name", s2l "x")]
                                       [(s2l "who", s2l "ana")] (s2l "Hi {who}"))))
  /\ dict_get (s2l "name") (metadata (remove_metadata (s2l "name")
        (mkPrompt [(s2l "format_version", s2l "0.0.1"); (s2l "name", s2l "x")]
                  [(s2l "who", s2l "ana")] (s2l "Hi {who}")))) = None.
Proof.
  assert (H1 : NoDup (map fst [(s2l "format_version", s2l "0.0.1"); (s2l "name", s2l "x")])).
  { simpl. constructor; [simpl; intros [H|[]]; discriminate|].
    constructor; [simpl; tauto|constructor]. }
  assert (H2 : NoDup (map fst [(s2l "who", s2l "ana")])).
  { simpl. constructor; [simpl; tauto|constructor]. }
  split; [exact H1|]. split; [exact H2|].
  destruct (remove_lookup (s2l "name")
              (mkPrompt [(s2l "format_version", s2l "0.0.1"); (s2l "name", s2l "x")]
                        [(s2l "who", s2l "ana")] (s2l "Hi {who}")) H1 H2) as [Hm _].
  rewrite Hm. reflexivity.
Defined.

(** Adding a key and removing it again is the same as only removing it. *)
Theorem add_then_remove k v d :
  remove_metadata k (add_metadata k v d) = remove_metadata k d
  /\ remove_default k (add_default k v d) = remove_default k d.
Proof.
  destruct d as [md ds c]. unfold remove_metadata, add_metadata, remove_default, add_default.
  simpl. rewrite !Dict.dict_mem_set, Dict.text_eqb_refl. simpl.
  rewrite !Dict.dict_del_set. unfold dict_mem.
  split.
  - destruct (dict_get k md) eqn:E; [reflexivity|]. rewrite (Dict.dict_del_absent k md E). reflexivity.
  - destruct (dict_get k ds) eqn:E; [reflexivity|]. rewrite (Dict.dict_del_absent k ds E). reflexivity.
Qed.

(** [update_metadata(m)] and [update_defaults(m)]: a key of [m] takes its
    value from [m], any other key keeps its value. *)
Theorem update_lookup m d k :
  NoDup (map fst m) ->
  dict_get k (metadata (update_metadata m d)) =
    match dict_get k m with Some v => Some v | None => dict_get k (metadata d) end
  /\ dict_get k (defaults (update_defaults m d)) =
    match dict_get k m with Some v => Some v | None => dict_get k (defaults d) end.
Proof.
  intros Hm. split; simpl; apply Dict.dict_update_get; exact Hm.
Qed.

Lemma update_lookup_witness :
  NoDup (map fst [(s2l "name", s2l "y")])
  /\ dict_get (s2l "name")
       (metadata (update_metadata [(s2l "name", s2l "y")]
                    (mkPrompt [(s2l "format_version", s2l "0.0.1"); (s2l "name", s2l "x")] []
                              (s2l "Hi")))) = Some (s2l "y").
Proof.
  assert (H : NoDup (map fst [(s2l "name", s2l "y")])) by (simpl; constructor; [simpl; tauto|constructor]).
  split; [exact H|].
  destruct (update_lookup [(s2l "name", s2l "y")]
              (mkPrompt [(s2l "format_version", s2l "0.0.1"); (s2l "name", s2l "x")] [] (s2l "Hi"))
              (s2l "name") H) as [E _].
  rewrite E. reflexivity.
Defined.

Lemma remove_metadata_NoDup k d :
  NoDup (map fst (metadata d)) -> NoDup (map fst (metadata (remove_metadata k d))).
Proof.
  intros H. unfold remove_metadata. destruct (dict_mem k (metadata d)); [|exact H].
  apply Dict.dict_del_NoDup. exact H.
Qed.

Lemma remove_default_NoDup k d :
  NoDup (map fst (defaults d)) -> NoDup (map fst (defaults (remove_default k d))).
Proof.
  intros H. unfold remove_default. destruct (dict_mem k (defaults d)); [|exact H].
  apply Dict.dict_del_NoDup. exact H.
Qed.

Lemma remove_default_metadata k d : metadata (remove_default k d) = metadata d.
Proof. unfold remove_default. destruct (dict_mem k (defaults d)); reflexivity. Qed.

Lemma remove_metadata_defaults k d : defaults (remove_metadata k d) = defaults d.
Proof. unfold remove_metadata. destruct (dict_mem k (metadata d)); reflexivity. Qed.

(** [remove_metadata_keys(keys)] and [remove_default_keys(keys)] remove
    exactly the listed keys, present or not. *)
Theorem remove_keys_lookup keys d k :
  NoDup (map fst (metadata d)) -> NoDup (map fst (defaults d)) ->
  dict_get k (metadata (remove_metadata_keys keys d)) =
    (if mem_text k keys then None else dict_get k (metadata d))
  /\ dict_get k (defaults (remove_default_keys keys d)) =
    (if mem_text k keys then None else dict_get k (defaults d)).
Proof.
  unfold remove_metadata_keys, remove_default_keys, mem_text.
  revert d. induction keys as [|k0 keys IH]; intros d Hm Hd; [split; reflexivity|].
  simpl fold_left. simpl existsb.
  destruct (IH (remove_metadata k0 d)) as [IH1 _];
    [apply remove_metadata_NoDup; exact Hm|rewrite remove_metadata_defaults; exact Hd|].
  destruct (IH (remove_default k0 d)) as [_ IH2];
    [rewrite remove_default_metadata; exact Hm|apply remove_default_NoDup; exact Hd|].
  rewrite IH1, IH2.
  destruct (remove_lookup k0 d Hm Hd) as [R1 R2]. rewrite R1, R2.
  destruct (text_eqb k k0) eqn:E; simpl.
  - destruct (existsb (text_eqb k) keys); split; reflexivity.
  - split; reflexivity.
Qed.

Lemma remove_keys_lookup_witness :
  NoDup (map fst (metadata (mkPrompt [(s2l "format_version", s2l "0.0.1"); (s2l "name", s2l "x")]
                                     [(s2l "who", s2l "ana")] (s2l "Hi {who}"))))
  /\ NoDup (map fst (defaults (mkPrompt [(s2l "format_version", s2l "0.0.1"); (s2l "name", s2l "x")]
                                       [(s2l "who", s2l "ana")] (s2l "Hi {who}"))))
  /\ dict_get (s2l "who") (defaults (remove_default_keys [s2l "who"; s2l "other"]
        (mkPrompt [(s2l "format_version", s2l "0.0.1"); (s2l "name", s2l "x")]
                  [(s2l "who", s2l "ana")] (s2l "Hi {who}")))) = None.
Proof.
  assert (H1 : NoDup (map fst [(s2l "format_version", s2l "0.0.1"); (s2l "name", s2l "x")])).
  { simpl. constructor; [simpl; intros [H|[]]; discriminate|].
    constructor; [simpl; tauto|constructor]. }
  assert (H2 : NoDup (map fst [(s2l "who", s2l "ana")])).
  { simpl. constructor; [simpl; tauto|constructor]. }
  split; [exact H1|]. split; [exact H2|].
  destruct (remove_keys_lookup [s2l "who"; s2l "other"]
              (mkPrompt [(s2l "format_version", s2l "0.0.1"); (s2l "name", s2l "x")]
                        [(s2l "who", s2l "ana")] (s2l "Hi {who}")) (s2l "who") H1 H2) as [_ E].
  rewrite E. reflexivity.
Defined.

(** [text] is [metadata_text()], [defaults_text()] (left out when there
    are no defaults) and [content_text()], separated by blank lines. *)
Theorem text_sections d :
  to_text d = metadata_text d ++ nl ++ nl
              ++ (match defaults_text d with [] => [] | t => t ++ nl ++ nl end)
              ++ content_text d
  /\ (defaults_text d = [] <-> defaults d = []).
Proof.
  unfold to_text, metadata_text, defaults_text, content_text.
  destruct (defaults d) as [|kv ds]; split.
  - reflexivity.
  - tauto.
  - simpl. rewrite <- !app_assoc. reflexivity.
  - split; discriminate.
Qed.

End Edit.

(* ------------------------------------------------------------------ *)
(** ** Properties of the derived variables *)

Module Info.

Lemma re_sub_unmatched {M} (at_ : matcher M)
  (at_shrinks : forall s m rest, at_ s = Some (m, rest) -> length rest < length s) f t :
  (forall a b, t = a ++ b -> at_ b = None) -> re_sub at_ f t = t.
Proof.
  induction t as [|c r IH]; intros H; [reflexivity|].
  rewrite (re_sub_cons at_ at_shrinks), (H [] (c :: r) eq_refl).
  rewrite IH; [reflexivity|]. intros a b Hab. apply (H (c :: a) b). rewrite Hab. reflexivity.
Qed.

Lemma re_sub_var_id f t :
  (forall w, In w (re_findall var_at t) -> f w = ch "{" ++ w ++ ch "}") ->
  re_sub var_at f t = t.
Proof.
  remember (length t) as n eqn:Hn. assert (Hle : length t <= n) by lia. clear Hn.
  revert t Hle. induction n as [|n IH]; intros t Hle H.
  - destruct t; [reflexivity|simpl in Hle; lia].
  - destruct t as [|c r]; [reflexivity|].
    rewrite (re_sub_cons var_at var_at_shrinks).
    rewrite (re_findall_cons var_at var_at_shrinks) in H.
    destruct (var_at (c :: r)) as [[w rest]|] eqn:E.
    + pose proof (var_at_shrinks _ _ _ E) as Hs.
      apply Vars.var_at_some in E as [E _]. rewrite (H w (or_introl eq_refl)).
      rewrite IH; [|simpl in *; lia|intros x Hx; apply H; right; exact Hx].
      rewrite E. simpl. rewrite <- app_assoc. reflexivity.
    + rewrite IH; [reflexivity|simpl in *; lia|exact H].
Qed.

Lemma dict_get_map_keys {V} (g : text -> V) w l :
  dict_get w (map (fun v => (v, g v)) l) = if mem_text w l then Some (g w) else None.
Proof.
  unfold mem_text. induction l as [|v l IH]; simpl; [reflexivity|].
  destruct (text_eqb w v) eqn:E; simpl; [|exact IH].
  apply Vars.text_eqb_true in E. subst. reflexivity.
Qed.

Lemma no_pct_suffix (t a b : text) : ~ In "%"%char t -> t = a ++ b -> ~ In "%"%char b.
Proof. intros H -> Hb. apply H, in_or_app. right. exact Hb. Qed.

Lemma comment_at_no_pct s : ~ In "%"%char s -> comment_at s = None.
Proof.
  intros H. unfold comment_at. destruct s as [|c [|d r]]; try reflexivity.
  destruct (Ascii.eqb d "%") eqn:E.
  - apply Ascii.eqb_eq in E. subst. exfalso. apply H. right. left. reflexivity.
  - rewrite andb_false_r. reflexivity.
Qed.

Lemma inline_comment_at_no_pct s : ~ In "%"%char s -> inline_comment_at s = None.
Proof.
  intros H. unfold inline_comment_at. destruct s as [|c [|d r]]; try reflexivity.
  destruct (Ascii.eqb d "%") eqn:E.
  - apply Ascii.eqb_eq in E. subst. exfalso. apply H. right. left. reflexivity.
  - rewrite andb_false_r. reflexivity.
Qed.

Lemma find_pct_close_nonl_shorter r rest :
  find_pct_close_nonl r = Some rest -> length rest < length r.
Proof.
  induction r as [|c r IH]; simpl; [discriminate|].
  destruct r as [|d r2]; [discriminate|].
  destruct (Ascii.eqb c "%" && Ascii.eqb d ")"); [intros [= <-]; simpl; lia|].
  destruct (Ascii.eqb c "010"); [discriminate|].
  intros H. specialize (IH H). simpl in *. lia.
Qed.

Lemma inline_comment_at_shrinks s m rest :
  inline_comment_at s = Some (m, rest) -> length rest < length s.
Proof.
  unfold inline_comment_at. destruct s as [|c [|d r]]; try discriminate.
  destruct (Ascii.eqb c "(" && Ascii.eqb d "%"); [|discriminate].
  destruct (find_pct_close_nonl r) eqn:E; [|discriminate].
  intros [= _ <-]. apply find_pct_close_nonl_shorter in E. simpl. lia.
Qed.

(** [get_variables_info()] has one entry per variable of the content (a
    [\w+] name written [{name}] outside the [(%...%)] comments, doubled
    braces included), no key twice, and each entry holds [has_default]
    and [default_value] as the defaults give them. *)
Theorem variables_info_lookup d w info :
  NoDup (map fst (get_variables_info d))
  /\ (dict_get w (get_variables_info d) = Some info <->
      (is_name w = true /\ occurs w (strip_comments (content d)))
      /\ info = (dict_mem w (defaults d), dict_get w (defaults d))).
Proof.
  unfold get_variables_info. split.
  - rewrite map_map. simpl. rewrite map_id. apply Vars.dedup_NoDup.
  - rewrite (dict_get_map_keys (fun v => (dict_mem v (defaults d), dict_get v (defaults d)))).
    rewrite <- Vars.variables_of_In, <- Vars.mem_text_In.
    destruct (mem_text w (variables_of (content d))).
    + split; [intros [= <-]; split; reflexivity|intros [_ ->]; reflexivity].
    + split; [discriminate|intros [H _]; discriminate].
Qed.

(** [process()] with no keyword arguments, on a prompt whose defaults
    give no variable a value, substitutes nothing: the result is the
    content with its comments removed and [{{...}}] turned into [{...}]. *)
Theorem process_without_values d :
  (forall w, In w (variables_of (content d)) -> dict_get w (defaults d) = None) ->
  process d [] = Rendered (normalize (content d)).
Proof.
  intros H. rewrite Proc.process_rendered by (intros k []).
  f_equal. apply re_sub_var_id. intros w Hw.
  assert (Hv : In w (variables_of (content d))) by (apply Vars.dedup_In; exact Hw).
  unfold render_var, resolve. simpl. rewrite (H w Hv). reflexivity.
Qed.

Lemma process_without_values_witness :
  (forall w, In w (variables_of (s2l "Hola {name} (% nota %){{x}}")) ->
     dict_get w (defaults (mkPrompt [] [(s2l "other", s2l "v")] (s2l "Hola {name} (% nota %){{x}}"))) = None)
  /\ process (mkPrompt [] [(s2l "other", s2l "v")] (s2l "Hola {name} (% nota %){{x}}")) []
     = Rendered (s2l "Hola {name} {x}").
Proof.
  assert (H : forall w, In w (variables_of (s2l "Hola {name} (% nota %){{x}}")) ->
     dict_get w (defaults (mkPrompt [] [(s2l "other", s2l "v")] (s2l "Hola {name} (% nota %){{x}}"))) = None).
  { intros w Hw. simpl. rewrite Dict.text_eqb_neq; [reflexivity|].
    intros ->. apply Vars.mem_text_In in Hw. vm_compute in Hw. discriminate. }
  split; [exact H|].
  rewrite (process_without_values (mkPrompt [] [(s2l "other", s2l "v")] (s2l "Hola {name} (% nota %){{x}}")) H).
  vm_compute. reflexivity.
Defined.

(** When the content has no [%] at all, the validator's variable check
    ([_validate_variables], which keeps [{{...}}] and drops single-line
    [(%...%)] only) finds the same names as [process]. *)
Theorem validator_variables_agree c w :
  ~ In "%"%char c -> (In w (validator_variables c) <-> In w (variables_of c)).
Proof.
  intros H. unfold validator_variables. rewrite Vars.dedup_In, Vars.variables_of_In.
  unfold strip_comments.
  rewrite (re_sub_unmatched inline_comment_at inline_comment_at_shrinks)
    by (intros a b Hab; apply inline_comment_at_no_pct, (no_pct_suffix c a b H Hab)).
  rewrite (re_sub_unmatched comment_at comment_at_shrinks)
    by (intros a b Hab; apply comment_at_no_pct, (no_pct_suffix c a b H Hab)).
  apply Vars.findall_var_at.
Qed.

Lemma validator_variables_agree_witness :
  ~ In "%"%char (s2l "Hi {{name}} and {x}")
  /\ (In (s2l "name") (validator_variables (s2l "Hi {{name}} and {x}"))
      <-> In (s2l "name") (variables_of (s2l "Hi {{name}} and {x}"))).
Proof.
  assert (H : ~ In "%"%char (s2l "Hi {{name}} and {x}")).
  { intros Hin.
    assert (E : existsb (Ascii.eqb "%") (s2l "Hi {{name}} and {x}") = true)
      by (apply existsb_exists; exists "%"%char; split; [exact Hin|apply Ascii.eqb_refl]).
    vm_compute in E. discriminate. }
  split; [exact H|]. exact (validator_variables_agree _ _ H).
Defined.

End Info.

(* ------------------------------------------------------------------ *)
(** ** Properties of the builder and of [create] *)

Module Builder.

Definition fv : text := s2l "format_version".

Lemma startswith_app p x : startswith p (p ++ x) = true.
Proof. induction p as [|c p IH]; simpl; [reflexivity|]. rewrite Ascii.eqb_refl. exact IH. Qed.

Lemma startswith_split p k : startswith p k = true -> k = p ++ skipn (length p) k.
Proof.
  revert k. induction p as [|c p IH]; intros [|d k]; simpl; try discriminate; try reflexivity.
  intros H. apply andb_prop in H as [H1 H2]. apply Ascii.eqb_eq in H1. subst d.
  f_equal. exact (IH k H2).
Qed.

Lemma build_ok b p : build b = BOk p -> p = mkPrompt (b_metadata b) (b_defaults b) (b_content b).
Proof. unfold build. destruct (b_content b); [discriminate|]. intros [= <-]. reflexivity. Qed.

Lemma metadata_dict_fv b m :
  dict_get fv (b_metadata (builder_metadata_dict b m)) =
  Some (match dict_get fv (b_metadata b) with Some v => v | None => s2l "0.0.1" end).
Proof. simpl. rewrite Dict.dict_get_set, Dict.text_eqb_refl. reflexivity. Qed.

Lemma metadata_dict_other b m k :
  NoDup (map fst m) -> k <> fv ->
  dict_get k (b_metadata (builder_metadata_dict b m)) =
  match dict_get k m with Some v => Some v | None => dict_get k (b_metadata b) end.
Proof.
  intros Hm Hk. unfold builder_metadata_dict. cbn [b_metadata]. fold fv.
  rewrite Dict.dict_get_set, (Dict.text_eqb_neq k fv Hk).
  apply Dict.dict_update_get. exact Hm.
Qed.

Lemma init_other k : k <> fv -> dict_get k (b_metadata builder_init) = None.
Proof.
  intros Hk. change ((if text_eqb k fv then Some (s2l "0.0.1") else @dict_get text k []) = None).
  rewrite (Dict.text_eqb_neq k fv Hk). reflexivity.
Qed.

Lemma apply_fv_mem b c b' :
  builder_apply b c = BOk b' -> dict_mem fv (b_metadata b) = true -> dict_mem fv (b_metadata b') = true.
Proof.
  destruct c as [m|k [v|]|m|k [v|]|t]; simpl; intros H; try discriminate; injection H as <-;
    simpl; intros Hm; try exact Hm.
  - rewrite Dict.dict_mem_set, Dict.text_eqb_refl. reflexivity.
  - rewrite Dict.dict_mem_set, Hm, orb_true_r. reflexivity.
Qed.

Lemma apply_fv_get b c b' x :
  builder_apply b c = BOk b' -> (forall k v, c = CallMetadataKey k v -> k <> fv) ->
  dict_get fv (b_metadata b) = Some x -> dict_get fv (b_metadata b') = Some x.
Proof.
  destruct c as [m|k [v|]|m|k [v|]|t]; simpl; intros H Hc; try discriminate; injection H as <-;
    intros Hx; try exact Hx.
  - rewrite metadata_dict_fv, Hx. reflexivity.
  - simpl. rewrite Dict.dict_get_set, Dict.text_eqb_neq, Hx; [reflexivity|].
    intros E. apply (Hc k (Some v) eq_refl). symmetry. exact E.
Qed.

Lemma run_fv calls : forall b b',
  builder_run b calls = BOk b' ->
  (dict_mem fv (b_metadata b) = true -> dict_mem fv (b_metadata b') = true)
  /\ (forall x, (forall k v, In (CallMetadataKey k v) calls -> k <> fv) ->
      dict_get fv (b_metadata b) = Some x -> dict_get fv (b_metadata b') = Some x).
Proof.
  induction calls as [|c calls IH]; intros b b' H.
  - injection H as <-. split; [tauto|intros x _ Hx; exact Hx].
  - simpl in H. destruct (builder_apply b c) as [b1|e] eqn:E; [|discriminate].
    destruct (IH b1 b' H) as [IH1 IH2]. split.
    + intros Hm. apply IH1. exact (apply_fv_mem b c b1 E Hm).
    + intros x Hc Hx. apply IH2; [intros k v Hk; apply (Hc k v); right; exact Hk|].
      apply (apply_fv_get b c b1 x E); [|exact Hx].
      intros k v ->. apply (Hc k v). left. reflexivity.
Qed.

(** Every prompt built by a chain of builder calls has [format_version];
    unless [metadata("format_version", v)] is called, it is ["0.0.1"]: the
    dictionary form of [metadata] and the other calls never change it. *)
Theorem built_format_version calls b p :
  builder_run builder_init calls = BOk b -> build b = BOk p ->
  dict_mem fv (metadata p) = true
  /\ ((forall k v, In (CallMetadataKey k v) calls -> k <> fv) ->
      dict_get fv (metadata p) = Some (s2l "0.0.1")).
Proof.
  intros Hr Hb. apply build_ok in Hb. subst p. simpl.
  destruct (run_fv calls builder_init b Hr) as [H1 H2]. split.
  - apply H1. reflexivity.
  - intros Hc. apply H2; [exact Hc|reflexivity].
Qed.

Lemma built_format_version_witness :
  builder_run builder_init
    [CallMetadataDict [(s2l "format_version", s2l "9.9"); (s2l "name", s2l "x")];
     CallDefaultsKey (s2l "who") (Some (s2l "ana")); CallContent (s2l "  Hi {who} ")]
  = BOk (mkBuilder [(s2l "format_version", s2l "0.0.1"); (s2l "name", s2l "x")]
                   [(s2l "who", s2l "ana")] (s2l "Hi {who}"))
  /\ build (mkBuilder [(s2l "format_version", s2l "0.0.1"); (s2l "name", s2l "x")]
                      [(s2l "who", s2l "ana")] (s2l "Hi {who}"))
     = BOk (mkPrompt [(s2l "format_version", s2l "0.0.1"); (s2l "name", s2l "x")]
                     [(s2l "who", s2l "ana")] (s2l "Hi {who}"))
  /\ dict_get fv [(s2l "format_version", s2l "0.0.1"); (s2l "name", s2l "x")] = Some (s2l "0.0.1").
Proof.
  assert (Hr : builder_run builder_init
    [CallMetadataDict [(s2l "format_version", s2l "9.9"); (s2l "name", s2l "x")];
     CallDefaultsKey (s2l "who") (Some (s2l "ana")); CallContent (s2l "  Hi {who} ")]
    = BOk (mkBuilder [(s2l "format_version", s2l "0.0.1"); (s2l "name", s2l "x")]
                     [(s2l "who", s2l "ana")] (s2l "Hi {who}"))) by (vm_compute; reflexivity).
  assert (Hb : build (mkBuilder [(s2l "format_version", s2l "0.0.1"); (s2l "name", s2l "x")]
                      [(s2l "who", s2l "ana")] (s2l "Hi {who}"))
     = BOk (mkPrompt [(s2l "format_version", s2l "0.0.1"); (s2l "name", s2l "x")]
                     [(s2l "who", s2l "ana")] (s2l "Hi {who}"))) by reflexivity.
  split; [exact Hr|]. split; [exact Hb|].
  destruct (built_format_version _ _ _ Hr Hb) as [_ H].
  apply H. intros k v [E|[E|[E|[]]]]; discriminate.
Defined.

Lemma create_b1_fv md :
  dict_get fv (b_metadata (match md with Some m => builder_metadata_dict builder_init m
                                  | None => builder_init end)) = Some (s2l "0.0.1").
Proof. destruct md as [m|]; [apply metadata_dict_fv|reflexivity]. Qed.

(** [create(...)] always produces [format_version] ["0.0.1"], whatever
    the [metadata] dictionary or a [meta_format_version] argument says. *)
Theorem create_format_version md ds c kw p :
  create md ds c kw = BOk p -> dict_get fv (metadata p) = Some (s2l "0.0.1").
Proof.
  unfold create. destruct (split_prefixed kw) as [meta dflt]. intros H.
  apply build_ok in H. subst p.
  destruct dflt, meta, c, ds, md;
    do 4 (cbn [metadata b_metadata builder_defaults_dict builder_content];
          rewrite ?metadata_dict_fv); reflexivity.
Qed.

Lemma create_format_version_witness :
  create (Some [(s2l "format_version", s2l "2.0")]) None (Some (s2l "Hi"))
         [(s2l "meta_format_version", s2l "3.0")]
  = BOk (mkPrompt [(s2l "format_version", s2l "0.0.1")] [] (s2l "Hi"))
  /\ dict_get fv (metadata (mkPrompt [(s2l "format_version", s2l "0.0.1")] [] (s2l "Hi")))
     = Some (s2l "0.0.1").
Proof.
  assert (H : create (Some [(s2l "format_version", s2l "2.0")]) None (Some (s2l "Hi"))
         [(s2l "meta_format_version", s2l "3.0")]
         = BOk (mkPrompt [(s2l "format_version", s2l "0.0.1")] [] (s2l "Hi")))
    by (vm_compute; reflexivity).
  split; [exact H|]. exact (create_format_version _ _ _ _ _ H).
Defined.

Lemma create_content_field md ds c kw :
  b_content (let b1 := match md with Some m => builder_metadata_dict builder_init m
                                    | None => builder_init end in
             let b2 := match ds with Some m => builder_defaults_dict b1 m | None => b1 end in
             let b3 := match c with Some t => builder_content b2 t | None => b2 end in
             let '(meta, dflt) := split_prefixed kw in
             let b4 := match meta with [] => b3 | _ => builder_metadata_dict b3 meta end in
             match dflt with [] => b4 | _ => builder_defaults_dict b4 dflt end)
  = match c with Some t => strip t | None => [] end.
Proof.
  destruct (split_prefixed kw) as [meta dflt].
  destruct dflt, meta, c, ds, md; reflexivity.
Qed.

(** [create(...)] fails with "El contenido del prompt no puede estar vacío"
    exactly when [content] is not given or is blank; otherwise the prompt's
    content is [content.strip()]. *)
Theorem create_content md ds c kw :
  match c with
  | Some t => match strip t with
              | [] => create md ds c kw = BErr ContentEmpty
              | _ => exists p, create md ds c kw = BOk p /\ content p = strip t
              end
  | None => create md ds c kw = BErr ContentEmpty
  end.
Proof.
  pose proof (create_content_field md ds c kw) as Hc.
  assert (Hb : create md ds c kw = build (
             let b1 := match md with Some m => builder_metadata_dict builder_init m
                                    | None => builder_init end in
             let b2 := match ds with Some m => builder_defaults_dict b1 m | None => b1 end in
             let b3 := match c with Some t => builder_content b2 t | None => b2 end in
             let '(meta, dflt) := split_prefixed kw in
             let b4 := match meta with [] => b3 | _ => builder_metadata_dict b3 meta end in
             match dflt with [] => b4 | _ => builder_defaults_dict b4 dflt end)).
  { unfold create. destruct (split_prefixed kw). reflexivity. }
  rewrite Hb. revert Hc.
  generalize (let b1 := match md with Some m => builder_metadata_dict builder_init m
                                    | None => builder_init end in
             let b2 := match ds with Some m => builder_defaults_dict b1 m | None => b1 end in
             let b3 := match c with Some t => builder_content b2 t | None => b2 end in
             let '(meta, dflt) := split_prefixed kw in
             let b4 := match meta with [] => b3 | _ => builder_metadata_dict b3 meta end in
             match dflt with [] => b4 | _ => builder_defaults_dict b4 dflt end).
  intros b Hc. unfold build. rewrite Hc.
  destruct c as [t|]; [|reflexivity].
  destruct (strip t) as [|x r]; [reflexivity|].
  eexists. split; reflexivity.
Qed.

Lemma prefix_eqb p k j : text_eqb (p ++ k) (p ++ j) = text_eqb k j.
Proof.
  destruct (text_eqb k j) eqn:E.
  - apply Vars.text_eqb_true in E. subst. apply Dict.text_eqb_refl.
  - apply Dict.text_eqb_neq. intros H. apply app_inv_head in H. subst.
    rewrite Dict.text_eqb_refl in E. discriminate.
Qed.

Lemma eqb_prefix_false p k k0 : startswith p k0 = false -> text_eqb (p ++ k) k0 = false.
Proof.
  intros H. apply Dict.text_eqb_neq. intros <-. rewrite startswith_app in H. discriminate.
Qed.

Lemma prefixed_fold kw : forall acc,
  NoDup (map fst kw) ->
  (forall k, dict_get k (fst (fold_left prefixed_step kw acc)) =
     match dict_get (s2l "meta_" ++ k) kw with Some v => Some v | None => dict_get k (fst acc) end)
  /\ (forall k, dict_get k (snd (fold_left prefixed_step kw acc)) =
     match dict_get (s2l "default_" ++ k) kw with Some v => Some v | None => dict_get k (snd acc) end)
  /\ (NoDup (map fst (fst acc)) -> NoDup (map fst (fst (fold_left prefixed_step kw acc))))
  /\ (NoDup (map fst (snd acc)) -> NoDup (map fst (snd (fold_left prefixed_step kw acc)))).
Proof.
  induction kw as [|[k0 v0] kw IH]; intros [a1 a2] Hkw.
  { repeat split; intros; auto. }
  inversion Hkw as [|x l Hx Hkw' Heq]; subst.
  cbn [fold_left].
  destruct (startswith (s2l "meta_") k0) eqn:Em.
  - assert (Hs : prefixed_step (a1, a2) (k0, v0) = (dict_set (skipn 5 k0) v0 a1, a2))
      by (unfold prefixed_step; rewrite Em; reflexivity).
    rewrite Hs.
    pose proof (startswith_split _ _ Em) as Ek. simpl length in Ek.
    set (j := skipn 5 k0) in *.
    destruct (IH (dict_set j v0 a1, a2) Hkw') as [I1 [I2 [I3 I4]]]. cbn [fst snd] in *.
    repeat split.
    + intros k. rewrite I1. cbn [dict_get]. rewrite Ek. rewrite prefix_eqb.
      rewrite Dict.dict_get_set.
      destruct (text_eqb k j) eqn:E; [|reflexivity].
      apply Vars.text_eqb_true in E. subst k.
      rewrite (Dict.dict_get_None (s2l "meta_" ++ j) kw); [reflexivity|]. rewrite <- Ek. exact Hx.
    + intros k. rewrite I2. cbn [dict_get].
      rewrite (eqb_prefix_false _ k k0); [reflexivity|]. rewrite Ek. reflexivity.
    + intros H. apply I3, Dict.dict_set_NoDup, H.
    + exact I4.
  - destruct (startswith (s2l "default_") k0) eqn:Ed.
    + assert (Hs : prefixed_step (a1, a2) (k0, v0) = (a1, dict_set (skipn 8 k0) v0 a2))
        by (unfold prefixed_step; rewrite Em, Ed; reflexivity).
      rewrite Hs.
      pose proof (startswith_split _ _ Ed) as Ek. simpl length in Ek.
      set (j := skipn 8 k0) in *.
      destruct (IH (a1, dict_set j v0 a2) Hkw') as [I1 [I2 [I3 I4]]]. cbn [fst snd] in *.
      repeat split.
      * intros k. rewrite I1. cbn [dict_get].
        rewrite (eqb_prefix_false _ k k0 Em). reflexivity.
      * intros k. rewrite I2. cbn [dict_get]. rewrite Ek. rewrite prefix_eqb.
        rewrite Dict.dict_get_set.
        destruct (text_eqb k j) eqn:E; [|reflexivity].
        apply Vars.text_eqb_true in E. subst k.
        rewrite (Dict.dict_get_None (s2l "default_" ++ j) kw); [reflexivity|]. rewrite <- Ek. exact Hx.
      * exact I3.
      * intros H. apply I4, Dict.dict_set_NoDup, H.
    + assert (Hs : prefixed_step (a1, a2) (k0, v0) = (a1, a2))
        by (unfold prefixed_step; rewrite Em, Ed; reflexivity).
      rewrite Hs.
      destruct (IH (a1, a2) Hkw') as [I1 [I2 [I3 I4]]]. cbn [fst snd] in *.
      repeat split.
      * intros k. rewrite I1. cbn [dict_get].
        rewrite (eqb_prefix_false _ k k0 Em). reflexivity.
      * intros k. rewrite I2. cbn [dict_get].
        rewrite (eqb_prefix_false _ k k0 Ed). reflexivity.
      * exact I3.
      * exact I4.
Qed.

Lemma meta_stage_other b meta k :
  NoDup (map fst meta) -> k <> fv ->
  dict_get k (b_metadata (match meta with [] => b | _ => builder_metadata_dict b meta end)) =
  match dict_get k meta with Some v => Some v | None => dict_get k (b_metadata b) end.
Proof.
  intros Hm Hk. destruct meta as [|kv meta]; [reflexivity|].
  apply metadata_dict_other; assumption.
Qed.

Lemma defaults_stage b dflt k :
  NoDup (map fst dflt) ->
  dict_get k (b_defaults (match dflt with [] => b | _ => builder_defaults_dict b dflt end)) =
  match dict_get k dflt with Some v => Some v | None => dict_get k (b_defaults b) end.
Proof.
  intros Hd. destruct dflt as [|kv dflt]; [reflexivity|].
  apply Dict.dict_update_get. exact Hd.
Qed.

(** [create(metadata, defaults, content, **kwargs)]: a [meta_k] keyword
    argument sets metadata key [k] over the [metadata] dictionary, a
    [default_k] one sets default [k] over the [defaults] dictionary
    ([format_version] apart, see [create_format_version]). *)
Theorem create_fields md ds c kw p :
  NoDup (map fst kw) ->
  (forall m, md = Some m -> NoDup (map fst m)) ->
  (forall m, ds = Some m -> NoDup (map fst m)) ->
  create md ds c kw = BOk p ->
  (forall k, k <> fv ->
     dict_get k (metadata p) =
       match dict_get (s2l "meta_" ++ k) kw with
       | Some v => Some v
       | None => match md with Some m => dict_get k m | None => None end
       end)
  /\ (forall k,
     dict_get k (defaults p) =
       match dict_get (s2l "default_" ++ k) kw with
       | Some v => Some v
       | None => match ds with Some m => dict_get k m | None => None end
       end).
Proof.
  intros Hkw Hmd Hds H.
  destruct (prefixed_fold kw ([], []) Hkw) as [P1 [P2 [P3 P4]]].
  fold (split_prefixed kw) in P1, P2, P3, P4.
  unfold create in H. destruct (split_prefixed kw) as [meta dflt]. cbn [fst snd] in P1, P2, P3, P4.
  specialize (P3 (NoDup_nil _)). specialize (P4 (NoDup_nil _)).
  apply build_ok in H. subst p. cbn [metadata defaults]. split.
  - intros k Hk.
    replace (b_metadata (match dflt with [] => _ | _ => _ end)) with
      (b_metadata (match meta with [] => (match c with Some t => builder_content
          (match ds with Some m => builder_defaults_dict
             (match md with Some m => builder_metadata_dict builder_init m | None => builder_init end) m
           | None => (match md with Some m => builder_metadata_dict builder_init m | None => builder_init end) end) t
        | None => (match ds with Some m => builder_defaults_dict
             (match md with Some m => builder_metadata_dict builder_init m | None => builder_init end) m
           | None => (match md with Some m => builder_metadata_dict builder_init m | None => builder_init end) end) end)
        | _ => builder_metadata_dict (match c with Some t => builder_content
          (match ds with Some m => builder_defaults_dict
             (match md with Some m => builder_metadata_dict builder_init m | None => builder_init end) m
           | None => (match md with Some m => builder_metadata_dict builder_init m | None => builder_init end) end) t
        | None => (match ds with Some m => builder_defaults_dict
             (match md with Some m => builder_metadata_dict builder_init m | None => builder_init end) m
           | None => (match md with Some m => builder_metadata_dict builder_init m | None => builder_init end) end) end) meta end))
      by (destruct dflt; reflexivity).
    rewrite (meta_stage_other _ _ _ P3 Hk), P1. cbn [dict_get].
    destruct (dict_get (s2l "meta_" ++ k) kw) as [v|]; [reflexivity|].
    replace (b_metadata (match c with Some t => _ | None => _ end)) with
      (b_metadata (match md with Some m => builder_metadata_dict builder_init m | None => builder_init end))
      by (destruct c, ds; reflexivity).
    destruct md as [m|].
    + rewrite (metadata_dict_other _ _ _ (Hmd m eq_refl) Hk), (init_other k Hk).
      destruct (dict_get k m); reflexivity.
    + exact (init_other k Hk).
  - intros k. rewrite (defaults_stage _ _ _ P4), P2. cbn [dict_get].
    destruct (dict_get (s2l "default_" ++ k) kw) as [v|]; [reflexivity|].
    replace (b_defaults (match meta with [] => _ | _ => _ end)) with
      (b_defaults (match ds with Some m => builder_defaults_dict
             (match md with Some m => builder_metadata_dict builder_init m | None => builder_init end) m
           | None => (match md with Some m => builder_metadata_dict builder_init m | None => builder_init end) end))
      by (destruct meta, c; reflexivity).
    destruct ds as [m|].
    + cbn [b_defaults builder_defaults_dict].
      replace (b_defaults (match md with Some m => _ | None => _ end)) with (@nil (text * text))
        by (destruct md; reflexivity).
      rewrite (Dict.dict_update_get _ _ _ (Hds m eq_refl)).
      destruct (dict_get k m); reflexivity.
    + destruct md; reflexivity.
Qed.

Lemma create_fields_witness :
  NoDup (map fst [(s2l "meta_name", s2l "B"); (s2l "default_who", s2l "eva")])
  /\ (forall m, Some [(s2l "name", s2l "A")] = Some m -> NoDup (map fst m))
  /\ (forall m, Some [(s2l "who", s2l "ana"); (s2l "x", s2l "1")] = Some m -> NoDup (map fst m))
  /\ create (Some [(s2l "name", s2l "A")]) (Some [(s2l "who", s2l "ana"); (s2l "x", s2l "1")])
            (Some (s2l "Hi {who}")) [(s2l "meta_name", s2l "B"); (s2l "default_who", s2l "eva")]
     = BOk (mkPrompt [(s2l "format_version", s2l "0.0.1"); (s2l "name", s2l "B")]
                     [(s2l "who", s2l "eva"); (s2l "x", s2l "1")] (s2l "Hi {who}"))
  /\ dict_get (s2l "name") (metadata (mkPrompt [(s2l "format_version", s2l "0.0.1"); (s2l "name", s2l "B")]
                     [(s2l "who", s2l "eva"); (s2l "x", s2l "1")] (s2l "Hi {who}"))) = Some (s2l "B").
Proof.
  assert (H1 : NoDup (map fst [(s2l "meta_name", s2l "B"); (s2l "default_who", s2l "eva")])).
  { simpl. constructor; [simpl; intros [H|[]]; discriminate|constructor; [simpl; tauto|constructor]]. }
  assert (H2 : forall m, Some [(s2l "name", s2l "A")] = Some m -> NoDup (map fst m)).
  { intros m [= <-]. simpl. constructor; [simpl; tauto|constructor]. }
  assert (H3 : forall m, Some [(s2l "who", s2l "ana"); (s2l "x", s2l "1")] = Some m -> NoDup (map fst m)).
  { intros m [= <-]. simpl. constructor; [simpl; intros [H|[]]; discriminate|constructor; [simpl; tauto|constructor]]. }
  assert (H4 : create (Some [(s2l "name", s2l "A")]) (Some [(s2l "who", s2l "ana"); (s2l "x", s2l "1")])
            (Some (s2l "Hi {who}")) [(s2l "meta_name", s2l "B"); (s2l "default_who", s2l "eva")]
     = BOk (mkPrompt [(s2l "format_version", s2l "0.0.1"); (s2l "name", s2l "B")]
                     [(s2l "who", s2l "eva"); (s2l "x", s2l "1")] (s2l "Hi {who}")))
    by (vm_compute; reflexivity).
  split; [exact H1|]. split; [exact H2|]. split; [exact H3|]. split; [exact H4|].
  destruct (create_fields _ _ _ _ _ H1 H2 H3 H4) as [Hm _].
  rewrite (Hm (s2l "name")); [reflexivity|discriminate].
Defined.

(** [to_builder().build()]: the metadata keep every key and value except
    [format_version], which becomes ["0.0.1"] (and is added when absent);
    the defaults are kept as they are; the content is stripped, and a
    blank content makes [build] fail. *)
Theorem to_builder_build d :
  NoDup (map fst (metadata d)) -> NoDup (map fst (defaults d)) ->
  match strip (content d) with
  | [] => build (to_builder d) = BErr ContentEmpty
  | c => exists p, build (to_builder d) = BOk p
         /\ (forall k, dict_get k (metadata p) =
               if text_eqb k fv then Some (s2l "0.0.1") else dict_get k (metadata d))
         /\ defaults p = defaults d /\ content p = c
  end.
Proof.
  intros Hm Hd. unfold to_builder, build.
  cbn [b_content builder_content].
  destruct (strip (content d)) as [|x r] eqn:Ec; [reflexivity|].
  eexists. split; [reflexivity|]. cbn [metadata defaults content]. split; [|split].
  - intros k. cbn [b_metadata builder_content builder_defaults_dict].
    destruct (text_eqb k fv) eqn:E.
    + apply Vars.text_eqb_true in E. subst k.
      rewrite metadata_dict_fv. reflexivity.
    + assert (Hk : k <> fv) by (intros ->; rewrite Dict.text_eqb_refl in E; discriminate).
      rewrite (metadata_dict_other _ _ _ Hm Hk), (init_other k Hk).
      destruct (dict_get k (metadata d)); reflexivity.
  - cbn [b_defaults builder_content builder_defaults_dict builder_metadata_dict builder_init].
    apply Dict.dict_update_fresh; [exact Hd|]. intros k _. reflexivity.
  - reflexivity.
Qed.

Lemma to_builder_build_witness :
  NoDup (map fst (metadata (mkPrompt [(s2l "name", s2l "x"); (s2l "format_version", s2l "2.0")]
                                     [(s2l "who", s2l "ana")] (s2l " Hi {who}  "))))
  /\ NoDup (map fst (defaults (mkPrompt [(s2l "name", s2l "x"); (s2l "format_version", s2l "2.0")]
                                       [(s2l "who", s2l "ana")] (s2l " Hi {who}  "))))
  /\ exists p, build (to_builder (mkPrompt [(s2l "name", s2l "x"); (s2l "format_version", s2l "2.0")]
                                           [(s2l "who", s2l "ana")] (s2l " Hi {who}  "))) = BOk p
               /\ dict_get fv (metadata p) = Some (s2l "0.0.1") /\ content p = s2l "Hi {who}".
Proof.
  assert (H1 : NoDup (map fst [(s2l "name", s2l "x"); (s2l "format_version", s2l "2.0")])).
  { simpl. constructor; [simpl; intros [H|[]]; discriminate|constructor; [simpl; tauto|constructor]]. }
  assert (H2 : NoDup (map fst [(s2l "who", s2l "ana")])).
  { simpl. constructor; [simpl; tauto|constructor]. }
  split; [exact H1|]. split; [exact H2|].
  pose proof (to_builder_build (mkPrompt [(s2l "name", s2l "x"); (s2l "format_version", s2l "2.0")]
                                 [(s2l "who", s2l "ana")] (s2l " Hi {who}  ")) H1 H2) as H.
  assert (E : strip (content (mkPrompt [(s2l "name", s2l "x"); (s2l "format_version", s2l "2.0")]
                                 [(s2l "who", s2l "ana")] (s2l " Hi {who}  "))) = s2l "Hi {who}")
    by (vm_compute; reflexivity).
  rewrite E in H. hnf in H. destruct H as [p [Hb [Hm [_ Hc]]]].
  exists p. split; [exact Hb|]. split; [|exact Hc].
  rewrite Hm, Dict.text_eqb_refl. reflexivity.
Defined.

End Builder.

(* ------------------------------------------------------------------ *)
(** ** [str.strip] *)

Module Strip.

Definition hd_ok (s : text) : Prop :=
  match s with [] => True | c :: _ => is_space c = false end.

Definition last_ok (s : text) : Prop := hd_ok (rev s).

Definition stripped (s : text) : Prop := hd_ok s /\ last_ok s.

Lemma lstrip_hd s : hd_ok (lstrip s).
Proof.
  induction s as [|c s IH]; simpl; [exact I|].
  destruct (is_space c) eqn:E; [exact IH|exact E].
Qed.

Lemma lstrip_id s : hd_ok s -> lstrip s = s.
Proof. destruct s as [|c s]; simpl; [reflexivity|]. intros ->. reflexivity. Qed.

Lemma lstrip_suffix s :
  exists A, s = A ++ lstrip s /\ forall c, In c A -> is_space c = true.
Proof.
  induction s as [|c s [A [HA Hsp]]]; simpl.
  - exists []. split; [reflexivity|intros _ []].
  - destruct (is_space c) eqn:E.
    + exists (c :: A). split; [simpl; congruence|]. intros x [<-|Hx]; [exact E|exact (Hsp x Hx)].
    + exists []. split; [reflexivity|intros _ []].
Qed.

Lemma hd_ok_app a b : a <> [] -> hd_ok a -> hd_ok (a ++ b).
Proof. destruct a as [|c a]; [congruence|]. simpl. tauto. Qed.

Lemma last_ok_app a b : b <> [] -> last_ok b -> last_ok (a ++ b).
Proof.
  unfold last_ok. intros Hb H. rewrite rev_app_distr. apply hd_ok_app; [|exact H].
  intros E. apply Hb. rewrite <- (rev_involutive b), E. reflexivity.
Qed.

Lemma lstrip_last s : last_ok s -> last_ok (lstrip s).
Proof.
  destruct (lstrip_suffix s) as [A [HA _]]. intros H.
  destruct (lstrip s) as [|c z] eqn:E; [exact I|].
  rewrite HA in H. unfold last_ok in *. rewrite rev_app_distr in H.
  remember (rev (c :: z)) as w eqn:Hw. destruct w as [|x w].
  - simpl in Hw. destruct (rev z); discriminate.
  - exact H.
Qed.

Lemma strip_stripped x : stripped (strip x).
Proof.
  unfold strip, rstrip, stripped, last_ok. rewrite rev_involutive. split.
  - apply lstrip_last. unfold last_ok. rewrite rev_involutive. apply lstrip_hd.
  - apply lstrip_hd.
Qed.

Lemma stripped_strip s : stripped s -> strip s = s.
Proof.
  intros [H1 H2]. unfold strip, rstrip. rewrite (lstrip_id s H1), (lstrip_id _ H2).
  apply rev_involutive.
Qed.

Lemma strip_idem x : strip (strip x) = strip x.
Proof. apply stripped_strip, strip_stripped. Qed.

Lemma strip_decomp s :
  exists A B, s = A ++ strip s ++ B
    /\ (forall c, In c A -> is_space c = true) /\ (forall c, In c B -> is_space c = true).
Proof.
  destruct (lstrip_suffix s) as [A [HA SA]].
  destruct (lstrip_suffix (rev (lstrip s))) as [B' [HB SB]].
  exists A, (rev B'). split; [|split; [exact SA|]].
  - unfold strip, rstrip. rewrite HA at 1. f_equal.
    set (y := rev (lstrip s)) in *.
    transitivity (rev y); [unfold y; symmetry; apply rev_involutive|].
    rewrite HB at 1. rewrite rev_app_distr. reflexivity.
  - intros c Hc. apply SB. apply in_rev. exact Hc.
Qed.

Lemma join_nonempty sep l L : l <> [] -> join sep (l :: L) <> [].
Proof.
  intros Hl. destruct L as [|l2 L]; [exact Hl|]. simpl.
  destruct l; [congruence|discriminate].
Qed.

Lemma join_hd sep l L : l <> [] -> hd_ok l -> hd_ok (join sep (l :: L)).
Proof.
  intros Hl H. destruct L as [|l2 L]; [exact H|]. simpl. apply hd_ok_app; assumption.
Qed.

Lemma join_last sep L :
  L <> [] -> (forall l, In l L -> l <> [] /\ last_ok l) -> last_ok (join sep L).
Proof.
  induction L as [|l L IH]; intros HL H; [congruence|].
  destruct L as [|l2 L]; [apply H; left; reflexivity|].
  change (join sep (l :: l2 :: L)) with (l ++ sep ++ join sep (l2 :: L)).
  rewrite app_assoc. apply last_ok_app.
  - apply join_nonempty. apply H. right. left. reflexivity.
  - apply IH; [discriminate|]. intros x Hx. apply H. right. exact Hx.
Qed.

Lemma join_stripped sep L :
  L <> [] -> (forall l, In l L -> l <> [] /\ stripped l) -> stripped (join sep L).
Proof.
  intros HL H. split.
  - destruct L as [|l L]; [congruence|]. apply join_hd; apply H; left; reflexivity.
  - apply join_last; [exact HL|]. intros l Hl. split; apply H; exact Hl.
Qed.

End Strip.

(* ------------------------------------------------------------------ *)
(** ** More properties of the parser *)

Module ParseX.

Ltac step_cases H leaf :=
  repeat match type of H with
  | Ok _ = Ok _ => injection H as <-; leaf
  | Err _ = Ok _ => discriminate H
  | Ok _ = Err _ => discriminate H
  | Err _ = Err _ => leaf
  | context[if ?b then _ else _] => let E := fresh "E" in destruct b eqn:E
  | context[match ?x with _ => _ end] => let E := fresh "E" in destruct x eqn:E
  end.

Lemma step_error st i raw e :
  parse_step st i raw = Err e -> exists n k, e = EmptyMetadataValue n k.
Proof.
  intros H. unfold parse_step in H. cbv zeta in H.
  step_cases H ltac:(injection H as <-; eexists; eexists; reflexivity).
Qed.

Lemma loop_error L : forall i st e,
  parse_loop i L st = Err e -> exists n k, e = EmptyMetadataValue n k.
Proof.
  induction L as [|raw L IH]; intros i st e H; [discriminate|].
  rewrite Parser.parse_loop_cons in H.
  destruct (parse_step st i raw) as [s1|e1] eqn:E.
  - exact (IH _ _ _ H).
  - injection H as <-. exact (step_error _ _ _ _ E).
Qed.

Lemma parse_lines_not_empty L : parse_lines L <> Err EmptyText.
Proof.
  unfold parse_lines.
  destruct (check_order (header_positions 0 L [])) as [[]|e] eqn:Ec.
  - cbv beta iota delta [bind].
    destruct (parse_loop 0 L init_state) as [st|e] eqn:E.
    + destruct (st_content st); [discriminate|].
      destruct (dict_mem (s2l "format_version") (st_metadata st)); discriminate.
    + intros H. injection H as ->. destruct (loop_error _ _ _ _ E) as [n [k Hk]]. discriminate.
  - cbv beta iota delta [bind]. intros H. injection H as ->. revert Ec. unfold check_order.
    destruct (position_of CONTENT (header_positions 0 L [])) as [c|];
      destruct (position_of DEFAULTS (header_positions 0 L [])) as [d|]; try discriminate.
    destruct (c <? d); discriminate.
Qed.

(** [PromptParser(text)] fails with "El texto del prompt no puede estar
    vacío" exactly when the text is blank: no later check raises it. *)
Theorem parse_empty_text t : parse t = Err EmptyText <-> strip t = [].
Proof.
  unfold parse. destruct (strip t) as [|c r].
  - split; reflexivity.
  - split; [intros H; exfalso; exact (parse_lines_not_empty _ H)|discriminate].
Qed.

Lemma step_content st i raw st' :
  parse_step st i raw = Ok st' ->
  exists suf, st_content st' = st_content st ++ suf
    /\ forall l, In l suf -> l <> [] /\ Strip.stripped l.
Proof.
  intros H. unfold parse_step in H. cbv zeta in H.
  step_cases H ltac:(first
    [ exists []; rewrite app_nil_r; split; [reflexivity|intros _ []]
    | exists []; simpl; rewrite app_nil_r; split; [reflexivity|intros _ []]
    | eexists; split; [reflexivity|];
      intros l [<-|[]]; split; [discriminate|];
      match goal with E : clean_content_line _ = _ |- _ => rewrite <- E end;
      apply Strip.strip_stripped ]).
Qed.

Lemma loop_content L : forall i st st',
  parse_loop i L st = Ok st' ->
  exists suf, st_content st' = st_content st ++ suf
    /\ forall l, In l suf -> l <> [] /\ Strip.stripped l.
Proof.
  induction L as [|raw L IH]; intros i st st' H.
  - injection H as <-. exists []. rewrite app_nil_r. split; [reflexivity|intros _ []].
  - rewrite Parser.parse_loop_cons in H.
    destruct (parse_step st i raw) as [s1|e] eqn:E; [|discriminate].
    destruct (step_content _ _ _ _ E) as [s2 [E2 H2]].
    destruct (IH _ _ _ H) as [s3 [E3 H3]].
    exists (s2 ++ s3). split; [rewrite E3, E2, app_assoc; reflexivity|].
    intros l Hl. apply in_app_or in Hl as [Hl|Hl]; [exact (H2 l Hl)|exact (H3 l Hl)].
Qed.

(** A parsed prompt has [format_version] in its metadata, and its content
    is one or more non-blank stripped lines joined by newlines: it is
    never empty and [strip] leaves it unchanged. *)
Theorem parse_result_shape t d :
  parse t = Ok d ->
  dict_mem (s2l "format_version") (metadata d) = true
  /\ (exists L, L <> [] /\ content d = join nl L /\ forall l, In l L -> l <> [] /\ strip l = l)
  /\ strip (content d) = content d.
Proof.
  unfold parse. destruct (strip t); [discriminate|].
  unfold parse_lines. destruct (check_order _) as [[]|e]; [|discriminate].
  cbv beta iota delta [bind].
  destruct (parse_loop 0 _ init_state) as [st|e] eqn:E; [|discriminate].
  destruct (loop_content _ _ _ _ E) as [suf [Es Hs]]. simpl in Es.
  rewrite Es.
  destruct suf as [|l L]; [discriminate|].
  destruct (dict_mem (s2l "format_version") (st_metadata st)) eqn:F; [|discriminate].
  intros H. injection H as <-. cbn [metadata content]. split; [exact F|].
  assert (HL : forall x, In x (l :: L) -> x <> [] /\ Strip.stripped x) by exact Hs.
  split.
  - exists (l :: L). split; [discriminate|]. split; [reflexivity|].
    intros x Hx. split; [apply HL, Hx|]. apply Strip.stripped_strip, HL, Hx.
  - exact (Strip.stripped_strip _ (Strip.join_stripped (ch "010") (l :: L) ltac:(discriminate) HL)).
Qed.

Lemma parse_result_shape_witness :
  parse (s2l "[METADATA]" ++ nl ++ s2l "@format_version 0.0.1" ++ nl
         ++ s2l "[CONTENT]" ++ nl ++ s2l "  Hola  " ++ nl ++ nl ++ s2l "mundo (% fin %)")
  = Ok (mkPrompt [(s2l "format_version", s2l "0.0.1")] [] (s2l "Hola" ++ nl ++ s2l "mundo"))
  /\ strip (content (mkPrompt [(s2l "format_version", s2l "0.0.1")] [] (s2l "Hola" ++ nl ++ s2l "mundo")))
     = content (mkPrompt [(s2l "format_version", s2l "0.0.1")] [] (s2l "Hola" ++ nl ++ s2l "mundo")).
Proof.
  assert (H : parse (s2l "[METADATA]" ++ nl ++ s2l "@format_version 0.0.1" ++ nl
         ++ s2l "[CONTENT]" ++ nl ++ s2l "  Hola  " ++ nl ++ nl ++ s2l "mundo (% fin %)")
    = Ok (mkPrompt [(s2l "format_version", s2l "0.0.1")] [] (s2l "Hola" ++ nl ++ s2l "mundo")))
    by (vm_compute; reflexivity).
  split; [exact H|]. exact (proj2 (proj2 (parse_result_shape _ _ H))).
Defined.

Lemma step_tracks st i raw st' :
  parse_step st i raw = Ok st' ->
  (forall s, current_section st' = Some s ->
     current_section st = Some s \/ header_fullmatch (strip raw) = Some s)
  /\ (st_metadata st' = st_metadata st \/ current_section st = Some METADATA)
  /\ (st_content st' = st_content st \/ current_section st = Some CONTENT).
Proof.
  intros H. unfold parse_step in H. cbv zeta in H.
  step_cases H ltac:(split; [intros s0 Hs0; simpl in Hs0 |- *;
                             first [left; congruence|right; congruence]
                            |split; simpl; first [left; reflexivity|right; congruence]]).
Qed.

Lemma loop_tracks (Hs : section -> Prop) L : forall i st st',
  parse_loop i L st = Ok st' ->
  (forall l s, In l L -> header_fullmatch (strip l) = Some s -> Hs s) ->
  (forall s, current_section st = Some s -> Hs s) ->
  (st_metadata st <> [] -> Hs METADATA) -> (st_content st <> [] -> Hs CONTENT) ->
  (st_metadata st' <> [] -> Hs METADATA) /\ (st_content st' <> [] -> Hs CONTENT).
Proof.
  induction L as [|raw L IH]; intros i st st' H HL Hc Hm Ht.
  - injection H as <-. split; assumption.
  - rewrite Parser.parse_loop_cons in H.
    destruct (parse_step st i raw) as [s1|e] eqn:E; [|discriminate].
    destruct (step_tracks _ _ _ _ E) as [T1 [T2 T3]].
    apply (IH _ s1 _ H).
    + intros l s Hl Hh. apply (HL l s); [right; exact Hl|exact Hh].
    + intros s Hs1. destruct (T1 s Hs1) as [Ho|Hh]; [exact (Hc s Ho)|].
      apply (HL raw s); [left; reflexivity|exact Hh].
    + intros Hne. destruct T2 as [Eq|Cm]; [apply Hm; congruence|exact (Hc _ Cm)].
    + intros Hne. destruct T3 as [Eq|Cc]; [apply Ht; congruence|exact (Hc _ Cc)].
Qed.

Definition section_name (s : section) : text :=
  match s with
  | METADATA => s2l "METADATA"
  | DEFAULTS => s2l "DEFAULTS"
  | CONTENT => s2l "CONTENT"
  end.

Lemma section_of_name_some n s : section_of_name n = Some s -> n = section_name s.
Proof.
  unfold section_of_name.
  destruct (text_eqb n (s2l "METADATA")) eqn:E1;
    [intros [= <-]; apply Vars.text_eqb_true; exact E1|].
  destruct (text_eqb n (s2l "DEFAULTS")) eqn:E2;
    [intros [= <-]; apply Vars.text_eqb_true; exact E2|].
  destruct (text_eqb n (s2l "CONTENT")) eqn:E3;
    [intros [= <-]; apply Vars.text_eqb_true; exact E3|discriminate].
Qed.

Lemma dropwhile_spaces A Z :
  (forall c, In c A -> is_space c = true) -> dropwhile is_space (A ++ Z) = dropwhile is_space Z.
Proof.
  induction A as [|c A IH]; intros H; [reflexivity|].
  simpl. rewrite (H c (or_introl eq_refl)). apply IH. intros x Hx. apply H. right. exact Hx.
Qed.

Lemma firstn_skipn_prefix (X W : text) :
  firstn (length X) (X ++ W) = X /\ skipn (length X) (X ++ W) = W.
Proof. induction X as [|x X IH]; simpl; [split; reflexivity|]. destruct IH as [-> ->]. split; reflexivity. Qed.

Lemma try_hit N X W :
  upper X = N -> text_eqb (upper (firstn (length N) (X ++ W))) N = true
                 /\ skipn (length N) (X ++ W) = W.
Proof.
  intros H. assert (Hl : length N = length X) by (rewrite <- H; apply length_map).
  rewrite Hl. destruct (firstn_skipn_prefix X W) as [-> ->].
  split; [rewrite H; apply Dict.text_eqb_refl|reflexivity].
Qed.

Lemma try_miss n X W y N' :
  upper X = y :: N' -> n <> [] -> hd "000"%char n <> y ->
  text_eqb (upper (firstn (length n) (X ++ W))) n = false.
Proof.
  intros H Hn Hy. destruct X as [|x X]; [discriminate|]. destruct n as [|z n]; [congruence|].
  injection H as Hx _. apply Dict.text_eqb_neq. simpl. intros E. injection E as E _.
  apply Hy. simpl. congruence.
Qed.

Lemma header_prefix line s :
  header_fullmatch line = Some s -> section_prefix_match line = Some (section_name s).
Proof.
  unfold header_fullmatch. destruct line as [|c r]; [discriminate|].
  destruct (Ascii.eqb c "[") eqn:Ec; [|discriminate]. apply Ascii.eqb_eq in Ec. subst c.
  destruct (rev r) as [|e mid_rev] eqn:Er; [discriminate|].
  destruct (Ascii.eqb e "]") eqn:Ee; [|discriminate]. apply Ascii.eqb_eq in Ee. subst e.
  intros Hs. apply section_of_name_some in Hs.
  assert (Hr : r = rev mid_rev ++ ["]"%char]).
  { rewrite <- (rev_involutive r), Er. reflexivity. }
  destruct (Strip.strip_decomp (rev mid_rev)) as [A [B [Hm [SA SB]]]].
  destruct (Strip.strip_stripped (rev mid_rev)) as [Hhd _].
  set (X := strip (rev mid_rev)) in *.
  assert (Hr1 : dropwhile is_space r = X ++ B ++ ["]"%char]).
  { rewrite Hr, Hm, <- !app_assoc, (dropwhile_spaces A _ SA).
    destruct X as [|x X']; [destruct s; discriminate|].
    simpl. simpl in Hhd. rewrite Hhd. reflexivity. }
  assert (Hclose : dropwhile is_space (B ++ ["]"%char]) = ["]"%char])
    by (rewrite (dropwhile_spaces B _ SB); reflexivity).
  unfold section_prefix_match. rewrite Ascii.eqb_refl. cbv zeta. rewrite Hr1.
  destruct s; cbn [section_name] in Hs |- *.
  - destruct (try_hit _ X (B ++ ["]"%char]) Hs) as [T1 T2]. rewrite T1, T2, Hclose. reflexivity.
  - rewrite (try_miss (s2l "METADATA") X (B ++ ["]"%char]) "D" (s2l "EFAULTS") Hs)
      by (discriminate || (simpl; discriminate)).
    destruct (try_hit _ X (B ++ ["]"%char]) Hs) as [T1 T2]. rewrite T1, T2, Hclose. reflexivity.
  - rewrite (try_miss (s2l "METADATA") X (B ++ ["]"%char]) "C" (s2l "ONTENT") Hs)
      by (discriminate || (simpl; discriminate)).
    rewrite (try_miss (s2l "DEFAULTS") X (B ++ ["]"%char]) "C" (s2l "ONTENT") Hs)
      by (discriminate || (simpl; discriminate)).
    destruct (try_hit _ X (B ++ ["]"%char]) Hs) as [T1 T2]. rewrite T1, T2, Hclose. reflexivity.
Qed.

Lemma positions_mem lines : forall i pos n,
  (exists l, In l lines /\ section_prefix_match (strip l) = Some n) \/ dict_mem n pos = true ->
  dict_mem n (section_positions_from i lines pos) = true.
Proof.
  induction lines as [|l lines IH]; intros i pos n H.
  - destruct H as [[l [[] _]]|H]. exact H.
  - simpl. apply IH.
    destruct H as [[l' [[<-|Hl] Hp]]|H].
    + right. rewrite Hp, Dict.dict_mem_set, Dict.text_eqb_refl. reflexivity.
    + left. exists l'. split; assumption.
    + right. destruct (section_prefix_match (strip l)) as [m|]; [|exact H].
      rewrite Dict.dict_mem_set, H, orb_true_r. reflexivity.
Qed.

(** A text the parser accepts always passes the validator's presence
    check: [_validate_sections_presence] reports neither a missing
    [METADATA] nor a missing [CONTENT] section. *)
Theorem parse_sections_present t d :
  parse t = Ok d ->
  validate_sections_presence (calculate_section_positions (splitlines t)) = [].
Proof.
  unfold parse. destruct (strip t); [discriminate|].
  unfold parse_lines. destruct (check_order _) as [[]|e]; [|discriminate].
  cbv beta iota delta [bind].
  destruct (parse_loop 0 _ init_state) as [st|e] eqn:E; [|discriminate].
  intros H.
  assert (Hc : st_content st <> []) by (intros Hc; rewrite Hc in H; discriminate).
  assert (Hm : st_metadata st <> []).
  { intros Hm. rewrite Hm in H. destruct (st_content st); discriminate. }
  destruct (loop_tracks (fun s => exists l, In l (splitlines t) /\ header_fullmatch (strip l) = Some s)
              (splitlines t) 0 init_state st E) as [Hmeta Hcont].
  - intros l s Hl Hh. exists l. split; assumption.
  - intros s Hs. discriminate.
  - intros Hne. exfalso. apply Hne. reflexivity.
  - intros Hne. exfalso. apply Hne. reflexivity.
  - destruct (Hmeta Hm) as [l1 [Hl1 Hh1]]. destruct (Hcont Hc) as [l2 [Hl2 Hh2]].
    unfold validate_sections_presence, calculate_section_positions.
    rewrite (positions_mem _ 0 [] (s2l "METADATA")),  (positions_mem _ 0 [] (s2l "CONTENT")).
    + reflexivity.
    + left. exists l2. split; [exact Hl2|exact (header_prefix _ _ Hh2)].
    + left. exists l1. split; [exact Hl1|exact (header_prefix _ _ Hh1)].
Qed.

Lemma parse_sections_present_witness :
  parse (s2l "[ content ]" ++ nl ++ s2l "Hola" ++ nl ++ s2l "[Metadata]" ++ nl
         ++ s2l "@format_version 0.0.1")
  = Ok (mkPrompt [(s2l "format_version", s2l "0.0.1")] [] (s2l "Hola"))
  /\ validate_sections_presence (calculate_section_positions (splitlines
       (s2l "[ content ]" ++ nl ++ s2l "Hola" ++ nl ++ s2l "[Metadata]" ++ nl
        ++ s2l "@format_version 0.0.1"))) = [].
Proof.
  assert (H : parse (s2l "[ content ]" ++ nl ++ s2l "Hola" ++ nl ++ s2l "[Metadata]" ++ nl
         ++ s2l "@format_version 0.0.1")
    = Ok (mkPrompt [(s2l "format_version", s2l "0.0.1")] [] (s2l "Hola"))) by (vm_compute; reflexivity).
  split; [exact H|]. exact (parse_sections_present _ _ H).
Defined.

(** ** The content section of every parsed document *)

Lemma step_region st i raw st' :
  parse_step st i raw = Ok st' ->
  current_section st' = match header_fullmatch (strip raw) with
                        | Some s => Some s
                        | None => current_section st
                        end
  /\ st_content st' = st_content st ++ content_lines (content_region (current_section st) [raw]).
Proof.
  intros H. unfold parse_step in H. cbv zeta in H. cbn [content_region].
  destruct ((match strip raw with [] => true | _ => false end) || is_full_comment (strip raw)) eqn:Eb.
  - injection H as <-. destruct (header_fullmatch (strip raw)) as [sec|] eqn:Eh.
    + rewrite (Parser.header_not_skipped _ _ Eh) in Eb. discriminate Eb.
    + split; [reflexivity|].
      destruct (current_section st) as [[| |]|];
        try (change (content_lines []) with (@nil text); rewrite app_nil_r; reflexivity).
      rewrite Parser.content_lines_cons, Eb.
      change (content_lines []) with (@nil text). rewrite app_nil_r. reflexivity.
  - destruct (header_fullmatch (strip raw)) as [sec|] eqn:Eh.
    + injection H as <-. split; [reflexivity|].
      change (content_lines []) with (@nil text). rewrite app_nil_r. reflexivity.
    + destruct (current_section st) as [[| |]|] eqn:Ec.
      3:{ rewrite Parser.content_lines_cons, Eb.
          destruct (clean_content_line (strip raw)) as [|c l].
          - injection H as <-. rewrite Ec. split; [reflexivity|].
            change (content_lines []) with (@nil text). rewrite app_nil_r. reflexivity.
          - injection H as <-. split; reflexivity. }
      3:{ injection H as <-. rewrite Ec. split; [reflexivity|].
          change (content_lines []) with (@nil text). rewrite app_nil_r. reflexivity. }
      all: change (content_lines []) with (@nil text); rewrite app_nil_r;
        step_cases H ltac:(cbn [set_key set_field_dict current_section st_content];
                           rewrite ?Ec; split; reflexivity).
Qed.

Lemma loop_region L : forall i st st',
  parse_loop i L st = Ok st' ->
  st_content st' = st_content st ++ content_lines (content_region (current_section st) L).
Proof.
  induction L as [|raw L IH]; intros i st st' H.
  - injection H as <-. change (content_lines []) with (@nil text).
    rewrite app_nil_r. reflexivity.
  - rewrite Parser.parse_loop_cons in H.
    destruct (parse_step st i raw) as [s1|e] eqn:E; [|discriminate].
    destruct (step_region _ _ _ _ E) as [Hs Hc].
    rewrite (IH _ _ _ H), Hc, Hs, <- app_assoc. f_equal.
    cbn [content_region]. clear.
    destruct (header_fullmatch (strip raw)) as [sec|];
      [reflexivity|].
    destruct (current_section st) as [[| |]|]; try reflexivity.
    rewrite !Parser.content_lines_cons.
    destruct (_ || _); [reflexivity|].
    destruct (clean_content_line (strip raw)); reflexivity.
Qed.

Lemma find_pct_first r rest :
  find_pct r = Some rest -> exists p, r = p ++ "%"%char :: ")"%char :: rest /\ ~ In "%"%char p.
Proof.
  induction r as [|c r IH]; simpl; [discriminate|].
  destruct (Ascii.eqb c "%") eqn:E.
  - apply Ascii.eqb_eq in E. subst c. destruct r as [|d r2]; [discriminate|].
    destruct (Ascii.eqb d ")") eqn:E2; [|discriminate].
    apply Ascii.eqb_eq in E2. subst d. intros [= <-]. exists []. split; [reflexivity|intros []].
  - intros H. destruct (IH H) as [p [-> Hp]]. exists (c :: p). split; [reflexivity|].
    intros [Hc|Hc]; [subst c; discriminate E|exact (Hp Hc)].
Qed.

Lemma find_pct_free p rest :
  ~ In "%"%char p -> find_pct (p ++ "%"%char :: ")"%char :: rest) = Some rest.
Proof.
  induction p as [|c p IH]; intros Hp; [reflexivity|].
  rewrite <- app_comm_cons. cbn [find_pct].
  destruct (Ascii.eqb c "%") eqn:E.
  - apply Ascii.eqb_eq in E. subst c. exfalso. apply Hp. left. reflexivity.
  - apply IH. intros Hc. apply Hp. right. exact Hc.
Qed.

Lemma trailing_comment_at_span s m rest :
  trailing_comment_at s = Some (m, rest) ->
  exists p, s = "("%char :: "%"%char :: p ++ "%"%char :: ")"%char :: rest /\ ~ In "%"%char p
    /\ (rest = [] \/ rest = ["010"%char]).
Proof.
  unfold trailing_comment_at. destruct s as [|c [|d r]]; try discriminate.
  destruct (Ascii.eqb c "(") eqn:Ec; [|discriminate].
  destruct (Ascii.eqb d "%") eqn:Ed; [|discriminate].
  apply Ascii.eqb_eq in Ec, Ed. subst c d. cbn [andb].
  destruct (find_pct r) as [[|e [|e' r']]|] eqn:E; try discriminate.
  - intros [= _ <-]. apply find_pct_first in E as [p [-> Hp]].
    exists p. split; [reflexivity|]. split; [exact Hp|left; reflexivity].
  - destruct (Ascii.eqb e "010") eqn:Ee; [|discriminate].
    apply Ascii.eqb_eq in Ee. subst e. intros [= _ <-].
    apply find_pct_first in E as [p [-> Hp]].
    exists p. split; [reflexivity|]. split; [exact Hp|right; reflexivity].
Qed.

Lemma span_shape p rest :
  "("%char :: "%"%char :: p ++ "%"%char :: ")"%char :: rest
  = ("("%char :: "%"%char :: p ++ ["%"%char; ")"%char]) ++ rest.
Proof. cbn [app]. rewrite <- app_assoc. reflexivity. Qed.

Lemma trailing_comment_at_inner c P body :
  trailing_comment_at (c :: P ++ "("%char :: "%"%char :: body ++ ["%"%char; ")"%char]) = None.
Proof.
  destruct (trailing_comment_at _) as [[m rest]|] eqn:E; [exfalso|reflexivity].
  apply trailing_comment_at_span in E as [p [Hs [Hp [-> | ->]]]].
  - rewrite span_shape, app_nil_r in Hs.
    assert (Hs' : ("("%char :: "%"%char :: p) ++ ["%"%char; ")"%char]
                  = (c :: P ++ "("%char :: "%"%char :: body) ++ ["%"%char; ")"%char]).
    { cbn [app]. rewrite <- !app_assoc. cbn [app]. symmetry. exact Hs. }
    apply app_inv_tail in Hs'. injection Hs' as _ Hs'.
    destruct P as [|d P']; [discriminate Hs'|].
    injection Hs' as _ Hs'. apply Hp. rewrite Hs'.
    apply in_or_app. right. right. left. reflexivity.
  - assert (Hs' : ("("%char :: "%"%char :: p ++ ["%"%char; ")"%char]) ++ ["010"%char]
                  = (c :: P ++ "("%char :: "%"%char :: body ++ ["%"%char]) ++ [")"%char]).
    { cbn [app]. rewrite <- ?app_assoc. cbn [app]. rewrite <- ?app_assoc. cbn [app].
      rewrite <- ?app_assoc. cbn [app]. symmetry. exact Hs. }
    apply app_inj_tail in Hs' as [_ Hs']. discriminate Hs'.
Qed.

(** [comment_pattern.sub('', line)] removes a final [(%...%)] span with no
    [%] inside and keeps everything before it as it is. *)
Lemma re_sub_trailing_span P body :
  ~ In "%"%char body ->
  re_sub trailing_comment_at (fun _ => []) (P ++ "("%char :: "%"%char :: body ++ ["%"%char; ")"%char]) = P.
Proof.
  intros Hb. induction P as [|c P IH].
  - cbn [app]. rewrite (re_sub_cons trailing_comment_at trailing_comment_at_shrinks).
    unfold trailing_comment_at at 1. cbn [Ascii.eqb andb Bool.eqb].
    rewrite find_pct_free by exact Hb. reflexivity.
  - rewrite <- app_comm_cons, (re_sub_cons trailing_comment_at trailing_comment_at_shrinks),
      trailing_comment_at_inner, IH. reflexivity.
Qed.

(** A line with no final [(%...%)] span free of [%], and not ending in a
    newline, is left as it is by [comment_pattern.sub('', line)]. *)
Lemma re_sub_trailing_none s :
  (forall P body, s = P ++ "("%char :: "%"%char :: body ++ ["%"%char; ")"%char] -> In "%"%char body) ->
  (forall q, s <> q ++ ["010"%char]) ->
  re_sub trailing_comment_at (fun _ => []) s = s.
Proof.
  induction s as [|c r IH]; intros H1 H2; [reflexivity|].
  rewrite (re_sub_cons trailing_comment_at trailing_comment_at_shrinks).
  destruct (trailing_comment_at (c :: r)) as [[m rest]|] eqn:E.
  - exfalso. apply trailing_comment_at_span in E as [p [Hs [Hp [-> | ->]]]].
    + apply Hp, (H1 []). rewrite Hs, span_shape, app_nil_r. reflexivity.
    + apply (H2 ("("%char :: "%"%char :: p ++ ["%"%char; ")"%char])). rewrite Hs. apply span_shape.
  - f_equal. apply IH.
    + intros P body HP. apply (H1 (c :: P)). rewrite HP. reflexivity.
    + intros q Hq. apply (H2 (c :: q)). rewrite Hq. reflexivity.
Qed.

Lemma stripped_no_newline raw q : strip raw <> q ++ ["010"%char].
Proof.
  intros E. destruct (Strip.strip_stripped raw) as [_ H].
  unfold Strip.last_ok in H. rewrite E, rev_app_distr in H. discriminate H.
Qed.

(** C6 (content lines): for every parsed document, the content is
    [content_lines] of the lines read while the current section is
    CONTENT (all the lines after a [[CONTENT]] header up to the next
    section header), joined with [\n] in order: each line is trimmed,
    blank lines and full-line [(%...%)] comments are dropped, and empty
    cleaned lines are dropped. Cleaning a line removes a final
    [(%...%)] span with no [%] inside and trims what comes before it,
    which is otherwise kept as it is, inline comments included; a
    trimmed line with no such final span is kept verbatim. *)
Theorem parse_content_lines t d :
  parse t = Ok d ->
  content d = join nl (content_lines (content_region None (splitlines t)))
  /\ (forall P body, ~ In "%"%char body ->
        clean_content_line (P ++ "("%char :: "%"%char :: body ++ ["%"%char; ")"%char]) = strip P)
  /\ (forall raw,
        (forall P body, strip raw = P ++ "("%char :: "%"%char :: body ++ ["%"%char; ")"%char] ->
                        In "%"%char body) ->
        clean_content_line (strip raw) = strip raw).
Proof.
  intros Hp. split; [|split].
  - unfold parse in Hp. destruct (strip t); [discriminate|].
    unfold parse_lines in Hp. destruct (check_order _) as [[]|e]; [|discriminate].
    cbv beta iota delta [bind] in Hp.
    destruct (parse_loop 0 (splitlines t) init_state) as [st|e] eqn:E; [|discriminate].
    apply loop_region in E. cbn [st_content current_section init_state app] in E.
    rewrite E in Hp. destruct (content_lines _); [discriminate|].
    destruct (dict_mem _ _); [|discriminate]. injection Hp as <-. reflexivity.
  - intros P body Hb. unfold clean_content_line. rewrite re_sub_trailing_span by exact Hb.
    reflexivity.
  - intros raw H. unfold clean_content_line.
    rewrite re_sub_trailing_none; [apply Strip.strip_idem|exact H|apply stripped_no_newline].
Qed.

Lemma parse_content_lines_witness :
  let t := s2l "[CONTENT]" ++ nl ++ s2l "Hello (%c%)" ++ nl ++ s2l "(% note %)" ++ nl
           ++ s2l " a (%x%) (%y%)" ++ nl ++ s2l "[METADATA]" ++ nl ++ s2l "@format_version 1.0"
           ++ nl ++ s2l "[CONTENT]" ++ nl ++ s2l "  Bye (%a%) there" in
  let d := mkPrompt [(s2l "format_version", s2l "1.0")] []
             (s2l "Hello" ++ nl ++ s2l "a (%x%)" ++ nl ++ s2l "Bye (%a%) there") in
  parse t = Ok d
  /\ content_region None (splitlines t)
     = [s2l "Hello (%c%)"; s2l "(% note %)"; s2l " a (%x%) (%y%)"; s2l "  Bye (%a%) there"]
  /\ content d = join nl (content_lines (content_region None (splitlines t)))
  /\ clean_content_line (s2l "a (%x%) (%y%)") = s2l "a (%x%)"
  /\ clean_content_line (s2l "Bye (%a%) there") = s2l "Bye (%a%) there".
Proof.
  intros t d.
  assert (Hp : parse t = Ok d) by (vm_compute; reflexivity).
  destruct (parse_content_lines t d Hp) as [H1 [H2 H3]].
  split; [exact Hp|]. split; [vm_compute; reflexivity|]. split; [exact H1|]. split.
  - exact (H2 (s2l "a (%x%) ") (s2l "y") ltac:(intros [Hy|[]]; discriminate Hy)).
  - apply (H3 (s2l "Bye (%a%) there")).
    intros P body HP. exfalso.
    assert (HP' : s2l "Bye (%a%) ther" ++ [ "e"%char ]
                  = (P ++ "("%char :: "%"%char :: body ++ ["%"%char]) ++ [")"%char]).
    { change (s2l "Bye (%a%) ther" ++ ["e"%char]) with (strip (s2l "Bye (%a%) there")).
      rewrite HP, <- app_assoc. cbn [app]. rewrite <- app_assoc. reflexivity. }
    apply app_inj_tail in HP' as [_ HP']. discriminate HP'.
Defined.

End ParseX.

(* ------------------------------------------------------------------ *)
(** ** Serializing and parsing again *)

Module RoundTrip.

Definition field_line (kv : text * text) : text := s2l "@" ++ fst kv ++ s2l " " ++ snd kv.

Lemma no_break_no_nl v : existsb is_line_break v = false -> contains_char "010" v = false.
Proof.
  intros H. unfold contains_char. destruct (existsb (Ascii.eqb "010") v) eqn:E; [|reflexivity].
  apply existsb_exists in E as [c [Hc Ec]]. apply Ascii.eqb_eq in Ec. subst c.
  assert (existsb is_line_break v = true) by (apply existsb_exists; exists "010"%char; split; [exact Hc|reflexivity]).
  congruence.
Qed.

Lemma serialize_plain m :
  (forall k v, In (k, v) m -> existsb is_line_break v = false) ->
  serialize_section m = join nl (map field_line m).
Proof.
  intros H. unfold serialize_section.
  assert (E : flat_map serialize_field m = map field_line m).
  { induction m as [|[k v] m IH]; [reflexivity|]. cbn [flat_map map].
    unfold serialize_field at 1. rewrite no_break_no_nl by (apply (H k v); left; reflexivity).
    rewrite IH; [reflexivity|]. intros k' v' Hk. apply (H k' v'). right. exact Hk. }
  rewrite E. reflexivity.
Qed.

Lemma join_app sep A B : A <> [] -> B <> [] -> join sep (A ++ B) = join sep A ++ sep ++ join sep B.
Proof.
  intros HA HB. induction A as [|x A IH]; [congruence|].
  destruct A as [|y A].
  - destruct B as [|b B]; [congruence|]. reflexivity.
  - change ((x :: y :: A) ++ B) with (x :: ((y :: A) ++ B)).
    change (join sep (x :: (y :: A) ++ B)) with (x ++ sep ++ join sep ((y :: A) ++ B)).
    rewrite IH by discriminate.
    change (join sep (x :: y :: A)) with (x ++ sep ++ join sep (y :: A)).
    rewrite <- !app_assoc. reflexivity.
Qed.

Lemma splitlines_aux_plain l s cur :
  existsb is_line_break l = false -> splitlines_aux (l ++ s) cur = splitlines_aux s (rev l ++ cur).
Proof.
  revert cur. induction l as [|c l IH]; intros cur H; [reflexivity|].
  simpl in H. apply orb_false_elim in H as [Hc Hl].
  simpl. rewrite Hc, IH by exact Hl. rewrite <- app_assoc. reflexivity.
Qed.

Lemma splitlines_join P z :
  z <> [] -> (forall l, In l (P ++ [z]) -> existsb is_line_break l = false) ->
  splitlines (join nl (P ++ [z])) = P ++ [z].
Proof.
  unfold splitlines. intros Hz. induction P as [|x P IH]; intros H.
  - simpl. rewrite <- (app_nil_r z) at 1.
    rewrite splitlines_aux_plain by (apply H; left; reflexivity).
    rewrite app_nil_r. simpl.
    destruct (rev z) eqn:E; [apply (f_equal (@rev ascii)) in E; rewrite rev_involutive in E; simpl in E; congruence|].
    rewrite <- E, rev_involutive. reflexivity.
  - change ((x :: P) ++ [z]) with (x :: (P ++ [z])).
    assert (Hne : P ++ [z] <> []) by (destruct P; discriminate).
    replace (join nl (x :: P ++ [z])) with (x ++ nl ++ join nl (P ++ [z]))
      by (destruct (P ++ [z]); [congruence|reflexivity]).
    rewrite splitlines_aux_plain by (apply H; left; reflexivity).
    rewrite app_nil_r. simpl. rewrite rev_involutive, IH; [reflexivity|].
    intros l Hl. apply H. right. exact Hl.
Qed.

Lemma header_positions_app A B : forall i pos,
  header_positions i (A ++ B) pos = header_positions (i + length A) B (header_positions i A pos).
Proof.
  induction A as [|l A IH]; intros i pos; simpl; [rewrite Nat.add_0_r; reflexivity|].
  rewrite IH. f_equal. lia.
Qed.

Lemma header_positions_plain A : forall i pos,
  (forall l, In l A -> header_fullmatch (strip l) = None) -> header_positions i A pos = pos.
Proof.
  induction A as [|l A IH]; intros i pos H; [reflexivity|]. simpl.
  rewrite IH by (intros x Hx; apply H; right; exact Hx).
  rewrite (H l (or_introl eq_refl)).
  destruct (strip l) as [|c r]; [reflexivity|]. destruct (Ascii.eqb c "#"); reflexivity.
Qed.

Lemma field_line_shape k v :
  is_name k = true -> v <> [] -> strip v = v -> contains_char ">" v = false ->
  strip (field_line (k, v)) = field_line (k, v)
  /\ header_fullmatch (field_line (k, v)) = None
  /\ is_full_comment (field_line (k, v)) = false
  /\ contains_char ">" (field_line (k, v)) = false
  /\ split_once " " (tl (field_line (k, v))) = (k, Some v).
Proof.
  intros Hk Hv Hs Hg. apply Vars.is_name_spec in Hk as [Hk Hw].
  assert (Hsp : forall c, In c k -> c <> " "%char /\ c <> ">"%char).
  { intros c Hc. specialize (Hw c Hc). split; intros ->; discriminate. }
  split; [|split; [reflexivity|split; [reflexivity|split]]].
  - apply Strip.stripped_strip. split; [reflexivity|].
    unfold field_line. cbn [fst snd]. rewrite app_assoc, app_assoc.
    apply Strip.last_ok_app; [exact Hv|]. rewrite <- Hs. apply Strip.strip_stripped.
  - unfold field_line, contains_char. cbn [fst snd]. simpl. rewrite existsb_app. simpl.
    unfold contains_char in Hg. rewrite Hg.
    destruct (existsb (Ascii.eqb ">") k) eqn:E; [|reflexivity].
    apply existsb_exists in E as [c [Hc Ec]]. apply Ascii.eqb_eq in Ec. subst c.
    exfalso. apply (proj2 (Hsp _ Hc)). reflexivity.
  - unfold field_line. cbn [fst snd]. simpl tl.
    clear Hk Hw. induction k as [|c k IH]; [reflexivity|].
    rewrite <- app_comm_cons.
    cbn [split_once]. rewrite Vars.ascii_eqb_false by (intros E; apply (proj1 (Hsp c (or_introl eq_refl))); congruence).
    rewrite IH; [reflexivity|]. intros x Hx. apply Hsp. right. exact Hx.
Qed.

Lemma name_stripped k : is_name k = true -> strip k = k.
Proof.
  intros Hk. apply Vars.is_name_spec in Hk as [Hk Hw].
  assert (Hns : forall c, In c k -> is_space c = false).
  { intros c Hc. specialize (Hw c Hc). revert Hw.
    destruct c as [[] [] [] [] [] [] [] []]; intros H;
      first [reflexivity | vm_compute in H; discriminate H]. }
  apply Strip.stripped_strip. split.
  - destruct k as [|c k]; [congruence|]. simpl. apply Hns. left. reflexivity.
  - unfold Strip.last_ok. destruct (rev k) as [|c r] eqn:E; [exact I|]. simpl.
    apply Hns. apply in_rev. rewrite E. left. reflexivity.
Qed.

Lemma set_field_section sec X st : current_section (set_field_dict sec X st) = current_section st.
Proof. destruct sec; reflexivity. Qed.

Lemma set_field_get sec X st : field_dict sec (set_field_dict sec X st) = X.
Proof. destruct sec; reflexivity. Qed.

Lemma set_field_twice sec X Y st :
  set_field_dict sec Y (set_field_dict sec X st) = set_field_dict sec Y st.
Proof. destruct sec; reflexivity. Qed.

Lemma set_field_same sec st : set_field_dict sec (field_dict sec st) st = st.
Proof. destruct sec, st; reflexivity. Qed.

Lemma step_field st i sec k v :
  current_section st = Some sec -> sec <> CONTENT ->
  is_name k = true -> v <> [] -> strip v = v -> contains_char ">" v = false ->
  parse_step st i (field_line (k, v)) = Ok (set_field_dict sec (dict_set k v (field_dict sec st)) st).
Proof.
  intros Hc Hs Hk Hv Hvs Hg.
  destruct (field_line_shape k v Hk Hv Hvs Hg) as [E1 [E2 [E3 [E4 E5]]]].
  assert (Hst : startswith (s2l "@") (field_line (k, v)) = true) by reflexivity.
  unfold parse_step. cbv zeta. rewrite E1, E3, E2, Hc.
  replace (match field_line (k, v) with [] => true | _ => false end) with false by reflexivity.
  cbn [orb].
  destruct sec; [| |congruence]; rewrite Hst, E4, E5; cbv iota beta;
    rewrite (name_stripped k Hk), Hvs; destruct v; [congruence| |congruence|]; reflexivity.
Qed.

Lemma loop_fields sec m : forall i st,
  current_section st = Some sec -> sec <> CONTENT ->
  (forall k v, In (k, v) m -> is_name k = true /\ v <> [] /\ strip v = v /\ contains_char ">" v = false) ->
  parse_loop i (map field_line m) st = Ok (set_field_dict sec (dict_update (field_dict sec st) m) st).
Proof.
  induction m as [|[k v] m IH]; intros i st Hc Hs Hm.
  - simpl. rewrite set_field_same. reflexivity.
  - destruct (Hm k v (or_introl eq_refl)) as [H1 [H2 [H3 H4]]].
    cbn [map]. rewrite Parser.parse_loop_cons, (step_field st i sec k v Hc Hs H1 H2 H3 H4).
    cbv beta iota delta [bind]. rewrite IH.
    + rewrite set_field_get, set_field_twice, Dict.dict_update_cons. reflexivity.
    + rewrite set_field_section. exact Hc.
    + exact Hs.
    + intros k' v' Hk'. apply Hm. right. exact Hk'.
Qed.

Lemma content_loop_full L : forall i st,
  current_section st = Some CONTENT ->
  (forall l, In l L -> header_fullmatch (strip l) = None) ->
  parse_loop i L st = Ok (mkState (Some CONTENT) (current_key st) (st_metadata st) (st_defaults st)
                                  (st_content st ++ content_lines L)).
Proof.
  induction L as [|raw L IH]; intros i st Hs HL.
  - destruct st as [cs ck m d c]. cbn in Hs |- *. subst cs. rewrite app_nil_r. reflexivity.
  - assert (Hh : header_fullmatch (strip raw) = None) by (apply HL; left; reflexivity).
    assert (HL' : forall l, In l L -> header_fullmatch (strip l) = None)
      by (intros l Hl; apply HL; right; exact Hl).
    rewrite Parser.parse_loop_cons, Parser.content_lines_cons. unfold parse_step. cbv zeta.
    destruct ((match strip raw with [] => true | _ => false end) || is_full_comment (strip raw)).
    + cbv beta iota delta [bind]. exact (IH (S i) st Hs HL').
    + rewrite Hh, Hs. destruct (clean_content_line (strip raw)) as [|c l].
      * cbv beta iota delta [bind]. exact (IH (S i) st Hs HL').
      * cbv beta iota delta [bind]. rewrite IH; [|reflexivity|exact HL']. cbn.
        rewrite <- app_assoc. reflexivity.
Qed.

Lemma content_lines_id L :
  (forall l, In l L -> l <> [] /\ strip l = l /\ is_full_comment l = false /\ clean_content_line l = l) ->
  content_lines L = L.
Proof.
  induction L as [|l L IH]; intros H; [reflexivity|].
  destruct (H l (or_introl eq_refl)) as [H1 [H2 [H3 H4]]].
  rewrite Parser.content_lines_cons, H2, H3, H4.
  rewrite IH by (intros x Hx; apply H; right; exact Hx).
  destruct l; [congruence|reflexivity].
Qed.

Lemma join_cons sep x l : l <> [] -> join sep (x :: l) = x ++ sep ++ join sep l.
Proof. destruct l; [congruence|reflexivity]. Qed.

Lemma strip_not_blank c r : is_space c = false -> strip (c :: r) <> [].
Proof.
  intros Hc E. destruct (Strip.strip_decomp (c :: r)) as [A [B [HE [HA HB]]]].
  rewrite E in HE. simpl in HE.
  assert (Hin : In c (A ++ B)) by (rewrite <- HE; left; reflexivity).
  apply in_app_or in Hin as [Hin|Hin]; [rewrite (HA c Hin) in Hc|rewrite (HB c Hin) in Hc]; discriminate.
Qed.

Lemma step_blank st i : parse_step st i [] = Ok st.
Proof. reflexivity. Qed.

Lemma header_positions_blank i B pos : header_positions i ([] :: B) pos = header_positions (S i) B pos.
Proof. reflexivity. Qed.

Lemma header_positions_header i h B pos s :
  header_fullmatch (strip h) = Some s ->
  header_positions i (h :: B) pos = header_positions (S i) B ((s, i) :: pos).
Proof.
  intros H. cbn [header_positions]. destruct (strip h) as [|c r]; [discriminate|].
  unfold header_fullmatch in H. destruct (Ascii.eqb c "[") eqn:E; [|discriminate].
  apply Ascii.eqb_eq in E. subst c. unfold header_fullmatch. rewrite H. reflexivity.
Qed.

Lemma fields_plain m :
  (forall k v, In (k, v) m -> is_name k = true /\ v <> [] /\ strip v = v /\ contains_char ">" v = false) ->
  forall l, In l (map field_line m) -> header_fullmatch (strip l) = None.
Proof.
  intros H l Hl. apply in_map_iff in Hl as [[k v] [E Hkv]]. subst l.
  destruct (H k v Hkv) as [H1 [H2 [H3 H4]]].
  destruct (field_line_shape k v H1 H2 H3 H4) as [E1 [E2 _]]. exact (eq_trans (f_equal header_fullmatch E1) E2).
Qed.

Lemma app_cons_ne {A} (x : list A) a y : x ++ a :: y <> [].
Proof. destruct x; discriminate. Qed.

Lemma map_ne {A B} (f : A -> B) l : l <> [] -> map f l <> [].
Proof. destruct l; [congruence|discriminate]. Qed.

Ltac ne_tac :=
  first [ discriminate | apply app_cons_ne | apply map_ne; assumption
        | intros ?E; apply app_eq_nil in E; destruct E as [_ E]; discriminate E
        | intros ?E; apply app_eq_nil in E; destruct E as [_ E]; contradiction
        | intros ?E; repeat (apply app_eq_nil in E; destruct E as [_ E]); discriminate E
        | assumption ].

(** Printing a document with [PromptObject.text] and reading the text again
    with [PromptParser] gives the document back, when the keys are names,
    every value is one non-empty trimmed line without [>], [format_version]
    is present, and the content is made of non-empty trimmed lines that are
    neither headers nor [(%...%)] comments and carry no trailing comment. *)
Theorem parse_to_text d L :
  NoDup (map fst (metadata d)) -> NoDup (map fst (defaults d)) ->
  dict_mem (s2l "format_version") (metadata d) = true ->
  (forall k v, In (k, v) (metadata d ++ defaults d) ->
     is_name k = true /\ v <> [] /\ strip v = v /\
     existsb is_line_break v = false /\ contains_char ">" v = false) ->
  L <> [] -> content d = join nl L ->
  (forall l, In l L -> l <> [] /\ strip l = l /\ existsb is_line_break l = false /\
     is_full_comment l = false /\ header_fullmatch l = None /\ clean_content_line l = l) ->
  parse (to_text d) = Ok d.
Proof.
  intros Hmd Hds Hfv Hf HL Hc Hl.
  destruct d as [md ds c]. cbn [metadata defaults content] in *. subst c.
  assert (Hfm : forall k v, In (k, v) md ->
            is_name k = true /\ v <> [] /\ strip v = v /\ contains_char ">" v = false).
  { intros k v H. destruct (Hf k v (in_or_app _ _ _ (or_introl H))) as [? [? [? [? ?]]]]. auto. }
  assert (Hfd : forall k v, In (k, v) ds ->
            is_name k = true /\ v <> [] /\ strip v = v /\ contains_char ">" v = false).
  { intros k v H. destruct (Hf k v (in_or_app _ _ _ (or_intror H))) as [? [? [? [? ?]]]]. auto. }
  assert (Hbm : forall k v, In (k, v) md -> existsb is_line_break v = false).
  { intros k v H. apply (Hf k v (in_or_app _ _ _ (or_introl H))). }
  assert (Hbd : forall k v, In (k, v) ds -> existsb is_line_break v = false).
  { intros k v H. apply (Hf k v (in_or_app _ _ _ (or_intror H))). }
  assert (Hmd0 : md <> []) by (intros ->; discriminate Hfv).
  assert (HLh : forall l, In l L -> header_fullmatch (strip l) = None).
  { intros l H. destruct (Hl l H) as [_ [E [_ [_ [E2 _]]]]]. rewrite E. exact E2. }
  assert (HLc : content_lines L = L).
  { apply content_lines_id. intros l H. destruct (Hl l H) as [? [? [_ [? [_ ?]]]]]. auto. }
  assert (Hbreak : forall l, In l L -> existsb is_line_break l = false) by (apply Hl).
  assert (Hfl : forall m, (forall k v, In (k, v) m -> existsb is_line_break v = false) ->
            (forall k v, In (k, v) m -> is_name k = true) ->
            forall l, In l (map field_line m) -> existsb is_line_break l = false).
  { intros m H1 H2 l Hin. apply in_map_iff in Hin as [[k v] [E Hkv]]. subst l.
    unfold field_line. cbn [fst snd]. rewrite !existsb_app, (H1 k v Hkv).
    destruct (proj1 (Vars.is_name_spec k) (H2 k v Hkv)) as [_ Hw].
    replace (existsb is_line_break k) with false; [reflexivity|].
    symmetry. apply Bool.not_true_iff_false. intros E.
    apply existsb_exists in E as [c [Hc Ec]]. specialize (Hw c Hc). revert Ec Hw.
    destruct c as [[] [] [] [] [] [] [] []]; vm_compute; congruence. }
  assert (Hflm := Hfl md Hbm (fun k v H => proj1 (Hfm k v H))).
  assert (Hfld := Hfl ds Hbd (fun k v H => proj1 (Hfd k v H))).
  assert (Hz : exists L' z, L = L' ++ [z] /\ z <> []).
  { destruct (exists_last HL) as [L' [z E]]. exists L', z. split; [exact E|].
    apply (Hl z). rewrite E. apply in_or_app. right. left. reflexivity. }
  destruct Hz as [L' [z [EL Hz]]].
  assert (Hmdu : dict_update [] md = md) by
    (rewrite Dict.dict_update_fresh; [reflexivity|exact Hmd|reflexivity]).
  assert (Hdsu : dict_update [] ds = ds) by
    (rewrite Dict.dict_update_fresh; [reflexivity|exact Hds|reflexivity]).
  unfold parse.
  destruct ds as [|kv0 ds0] eqn:Eds.
  - (* no defaults section *)
    set (Lines := s2l "[METADATA]" :: map field_line md ++ [] :: s2l "[CONTENT]" :: L).
    assert (Ht : to_text (mkPrompt md [] (join nl L)) = join nl Lines).
    { unfold to_text. cbn [metadata defaults content]. cbv zeta.
      rewrite (serialize_plain md Hbm). unfold Lines.
      rewrite (join_cons nl (s2l "[METADATA]")) by ne_tac.
      rewrite (join_app nl (map field_line md)) by ne_tac.
      rewrite (join_cons nl []) by ne_tac. rewrite (join_cons nl (s2l "[CONTENT]")) by exact HL.
      cbn [app join]. change (ch "010") with nl. rewrite <- !app_assoc. reflexivity. }
    rewrite Ht.
    destruct (strip (join nl Lines)) eqn:Es.
    { exfalso. revert Es. unfold Lines. rewrite (join_cons nl (s2l "[METADATA]")) by ne_tac.
      apply strip_not_blank. reflexivity. }
    assert (HS : splitlines (join nl Lines) = Lines).
    { assert (E : Lines = (s2l "[METADATA]" :: map field_line md ++ [] :: s2l "[CONTENT]" :: L') ++ [z]).
      { unfold Lines. rewrite EL. cbn [app]. rewrite <- app_assoc. reflexivity. }
      assert (HB : forall l, In l Lines -> existsb is_line_break l = false).
      { unfold Lines. intros l [<-|Hin]; [reflexivity|].
        apply in_app_or in Hin as [Hin|Hin]; [exact (Hflm l Hin)|].
        destruct Hin as [<-|[<-|Hin]]; [reflexivity|reflexivity|exact (Hbreak l Hin)]. }
      rewrite E. apply splitlines_join; [exact Hz|]. intros l Hin. apply HB. rewrite E. exact Hin. }
    rewrite HS. unfold parse_lines. unfold Lines.
    rewrite (header_positions_header 0 _ _ [] METADATA) by reflexivity.
    rewrite header_positions_app, (header_positions_plain (map field_line md)) by exact (fields_plain md Hfm).
    rewrite header_positions_blank.
    rewrite (header_positions_header _ _ _ _ CONTENT) by reflexivity.
    rewrite (header_positions_plain L) by exact HLh.
    cbv beta iota delta [bind check_order]. cbn [position_of section_eqb].
    rewrite Parser.parse_loop_cons, (Parser.step_header _ _ _ METADATA) by reflexivity.
    cbv beta iota delta [bind].
    rewrite Parser.parse_loop_app, (loop_fields METADATA) by (reflexivity || discriminate || exact Hfm).
    cbv beta iota delta [bind]. cbn [field_dict set_field_dict init_state st_metadata st_defaults st_content current_section current_key].
    rewrite Hmdu, Parser.parse_loop_cons, step_blank. cbv beta iota delta [bind].
    rewrite Parser.parse_loop_cons, (Parser.step_header _ _ _ CONTENT) by reflexivity.
    cbv beta iota delta [bind].
    rewrite content_loop_full by (reflexivity || exact HLh).
    cbn [st_content st_metadata st_defaults current_key]. rewrite HLc.
    destruct L as [|l0 L0]; [congruence|]. cbn [app]. rewrite Hfv. reflexivity.
  - (* with a defaults section *)
    rewrite <- Eds in *.
    assert (Hds0 : ds <> []) by (rewrite Eds; discriminate).
    set (Lines := s2l "[METADATA]" :: map field_line md ++ [] :: s2l "[DEFAULTS]" :: map field_line ds
                    ++ [] :: s2l "[CONTENT]" :: L).
    assert (Ht : to_text (mkPrompt md ds (join nl L)) = join nl Lines).
    { unfold to_text. cbn [metadata defaults content]. rewrite Eds. cbv zeta iota. rewrite <- Eds.
      rewrite (serialize_plain md Hbm), (serialize_plain ds Hbd). unfold Lines.
      rewrite (join_cons nl (s2l "[METADATA]")) by ne_tac.
      rewrite (join_app nl (map field_line md)) by ne_tac.
      rewrite (join_cons nl []) by ne_tac. rewrite (join_cons nl (s2l "[DEFAULTS]")) by ne_tac.
      rewrite (join_app nl (map field_line ds)) by ne_tac.
      rewrite (join_cons nl []) by ne_tac. rewrite (join_cons nl (s2l "[CONTENT]")) by exact HL.
      cbn [app join]. change (ch "010") with nl. rewrite <- !app_assoc. reflexivity. }
    rewrite Ht.
    destruct (strip (join nl Lines)) eqn:Es.
    { exfalso. revert Es. unfold Lines. rewrite (join_cons nl (s2l "[METADATA]")) by ne_tac.
      apply strip_not_blank. reflexivity. }
    assert (HS : splitlines (join nl Lines) = Lines).
    { assert (E : Lines = (s2l "[METADATA]" :: map field_line md ++ [] :: s2l "[DEFAULTS]"
                             :: map field_line ds ++ [] :: s2l "[CONTENT]" :: L') ++ [z]).
      { unfold Lines. rewrite EL. repeat (rewrite <- app_assoc || rewrite <- app_comm_cons). reflexivity. }
      assert (HB : forall l, In l Lines -> existsb is_line_break l = false).
      { unfold Lines. intros l [<-|Hin]; [reflexivity|].
        apply in_app_or in Hin as [Hin|Hin]; [exact (Hflm l Hin)|].
        destruct Hin as [<-|[<-|Hin]]; [reflexivity|reflexivity|].
        apply in_app_or in Hin as [Hin|Hin]; [exact (Hfld l Hin)|].
        destruct Hin as [<-|[<-|Hin]]; [reflexivity|reflexivity|exact (Hbreak l Hin)]. }
      rewrite E. apply splitlines_join; [exact Hz|]. intros l Hin. apply HB. rewrite E. exact Hin. }
    rewrite HS. unfold parse_lines. unfold Lines.
    rewrite (header_positions_header 0 _ _ [] METADATA) by reflexivity.
    rewrite header_positions_app, (header_positions_plain (map field_line md)) by exact (fields_plain md Hfm).
    rewrite header_positions_blank.
    rewrite (header_positions_header _ _ _ _ DEFAULTS) by reflexivity.
    rewrite header_positions_app, (header_positions_plain (map field_line ds)) by exact (fields_plain ds Hfd).
    rewrite header_positions_blank.
    rewrite (header_positions_header _ _ _ _ CONTENT) by reflexivity.
    rewrite (header_positions_plain L) by exact HLh.
    cbv beta iota delta [bind check_order]. cbn [position_of section_eqb].
    match goal with |- context[?a <? ?b] => replace (a <? b) with false by (symmetry; apply Nat.ltb_ge; lia) end.
    rewrite Parser.parse_loop_cons, (Parser.step_header _ _ _ METADATA) by reflexivity.
    cbv beta iota delta [bind].
    rewrite Parser.parse_loop_app, (loop_fields METADATA) by (reflexivity || discriminate || exact Hfm).
    cbv beta iota delta [bind]. cbn [field_dict set_field_dict init_state st_metadata st_defaults st_content current_section current_key].
    rewrite Hmdu, Parser.parse_loop_cons, step_blank. cbv beta iota delta [bind].
    rewrite Parser.parse_loop_cons, (Parser.step_header _ _ _ DEFAULTS) by reflexivity.
    cbv beta iota delta [bind].
    rewrite Parser.parse_loop_app, (loop_fields DEFAULTS) by (reflexivity || discriminate || exact Hfd).
    cbv beta iota delta [bind]. cbn [field_dict set_field_dict st_metadata st_defaults st_content current_section current_key].
    rewrite Hdsu, Parser.parse_loop_cons, step_blank. cbv beta iota delta [bind].
    rewrite Parser.parse_loop_cons, (Parser.step_header _ _ _ CONTENT) by reflexivity.
    cbv beta iota delta [bind].
    rewrite content_loop_full by (reflexivity || exact HLh).
    cbn [st_content st_metadata st_defaults current_key]. rewrite HLc.
    destruct L as [|l0 L0]; [congruence|]. cbn [app]. rewrite Hfv. reflexivity.
Qed.

Lemma parse_to_text_witness :
  parse (to_text (mkPrompt [(s2l "format_version", s2l "0.0.1"); (s2l "name", s2l "Greeting")]
                           [(s2l "tone", s2l "friendly")]
                           (s2l "Hello {name}." ++ nl ++ s2l "Be {tone}.")))
  = Ok (mkPrompt [(s2l "format_version", s2l "0.0.1"); (s2l "name", s2l "Greeting")]
                 [(s2l "tone", s2l "friendly")]
                 (s2l "Hello {name}." ++ nl ++ s2l "Be {tone}.")).
Proof.
  apply (parse_to_text _ [s2l "Hello {name}."; s2l "Be {tone}."]).
  - vm_compute. repeat constructor; intros H; repeat (destruct H as [H|H]; [discriminate H|]); exact H.
  - vm_compute. repeat constructor; intros H; repeat (destruct H as [H|H]; [discriminate H|]); exact H.
  - reflexivity.
  - intros k v H. vm_compute in H.
    repeat (destruct H as [H|H]; [injection H as <- <-;
      repeat split; first [vm_compute; reflexivity | discriminate] |]). destruct H.
  - discriminate.
  - reflexivity.
  - intros l H. vm_compute in H.
    repeat (destruct H as [H|H]; [subst l;
      repeat split; first [vm_compute; reflexivity | discriminate] |]). destruct H.
Defined.

Definition printed_lines (md ds : dict text) (L : list text) : list text :=
  s2l "[METADATA]" :: map field_line md
  ++ (match ds with [] => [] | _ => [] :: s2l "[DEFAULTS]" :: map field_line ds end)
  ++ [] :: s2l "[CONTENT]" :: L.

Lemma field_line_no_break k v :
  is_name k = true -> existsb is_line_break v = false -> existsb is_line_break (field_line (k, v)) = false.
Proof.
  intros Hk Hv. unfold field_line. cbn [fst snd]. rewrite !existsb_app, Hv.
  destruct (proj1 (Vars.is_name_spec k) Hk) as [_ Hw].
  replace (existsb is_line_break k) with false; [reflexivity|].
  symmetry. apply Bool.not_true_iff_false. intros E.
  apply existsb_exists in E as [c [Hc Ec]]. specialize (Hw c Hc). revert Ec Hw.
  destruct c as [[] [] [] [] [] [] [] []]; vm_compute; congruence.
Qed.

Lemma last_cons_ne {A} (a : A) l d : l <> [] -> last (a :: l) d = last l d.
Proof. destruct l; [congruence|reflexivity]. Qed.

Lemma last_app_ne {A} (P Q : list A) d : Q <> [] -> last (P ++ Q) d = last Q d.
Proof.
  intros HQ. induction P as [|x P IH]; [reflexivity|].
  rewrite <- app_comm_cons, last_cons_ne by ne_tac. exact IH.
Qed.

Lemma splitlines_printed md ds L :
  md <> [] ->
  (forall k v, In (k, v) (md ++ ds) -> is_name k = true /\ existsb is_line_break v = false) ->
  L <> [] -> last L [] <> [] -> (forall l, In l L -> existsb is_line_break l = false) ->
  splitlines (to_text (mkPrompt md ds (join nl L))) = printed_lines md ds L.
Proof.
  intros Hmd Hf HL Hlast Hb.
  assert (Hbm : forall k v, In (k, v) md -> existsb is_line_break v = false)
    by (intros k v H; apply (Hf k v (in_or_app _ _ _ (or_introl H)))).
  assert (Hbd : forall k v, In (k, v) ds -> existsb is_line_break v = false)
    by (intros k v H; apply (Hf k v (in_or_app _ _ _ (or_intror H)))).
  assert (Hfl : forall l, In l (map field_line (md ++ ds)) -> existsb is_line_break l = false).
  { intros l Hin. apply in_map_iff in Hin as [[k v] [E Hkv]]. subst l.
    destruct (Hf k v Hkv) as [H1 H2]. exact (field_line_no_break k v H1 H2). }
  assert (Hflm : forall l, In l (map field_line md) -> existsb is_line_break l = false)
    by (intros l H; apply Hfl; rewrite map_app; apply in_or_app; left; exact H).
  assert (Hfld : forall l, In l (map field_line ds) -> existsb is_line_break l = false)
    by (intros l H; apply Hfl; rewrite map_app; apply in_or_app; right; exact H).
  destruct (exists_last HL) as [L' [z EL]].
  assert (Hz : z <> []) by (rewrite EL, last_last in Hlast; exact Hlast).
  assert (HB : forall l, In l (printed_lines md ds L) -> existsb is_line_break l = false).
  { unfold printed_lines. intros l [<-|Hin]; [reflexivity|].
    apply in_app_or in Hin as [Hin|Hin]; [exact (Hflm l Hin)|].
    apply in_app_or in Hin as [Hin|Hin].
    - destruct ds; [destruct Hin|]. destruct Hin as [<-|[<-|Hin]]; [reflexivity|reflexivity|exact (Hfld l Hin)].
    - destruct Hin as [<-|[<-|Hin]]; [reflexivity|reflexivity|exact (Hb l Hin)]. }
  assert (Ht : to_text (mkPrompt md ds (join nl L)) = join nl (printed_lines md ds L)).
  { unfold to_text, printed_lines. cbn [metadata defaults content].
    destruct ds as [|kv0 ds0] eqn:Eds; cbv zeta iota.
    - rewrite (serialize_plain md Hbm).
      rewrite (join_cons nl (s2l "[METADATA]")) by ne_tac.
      rewrite (join_app nl (map field_line md)) by ne_tac.
      cbn [app]. rewrite (join_cons nl []) by ne_tac. rewrite (join_cons nl (s2l "[CONTENT]")) by exact HL.
      cbn [app join]. change (ch "010") with nl. rewrite <- !app_assoc. reflexivity.
    - rewrite <- Eds in *. assert (Hds0 : ds <> []) by (rewrite Eds; discriminate).
      rewrite (serialize_plain md Hbm), (serialize_plain ds Hbd).
      rewrite (join_cons nl (s2l "[METADATA]")) by ne_tac.
      rewrite (join_app nl (map field_line md)) by ne_tac.
      cbn [app]. rewrite (join_cons nl []) by ne_tac. rewrite (join_cons nl (s2l "[DEFAULTS]")) by ne_tac.
      rewrite (join_app nl (map field_line ds)) by ne_tac.
      rewrite (join_cons nl []) by ne_tac. rewrite (join_cons nl (s2l "[CONTENT]")) by exact HL.
      cbn [app join]. change (ch "010") with nl. rewrite <- !app_assoc. reflexivity. }
  rewrite Ht.
  assert (Ez : last (printed_lines md ds L) [] = z).
  { unfold printed_lines.
    rewrite last_cons_ne, !last_app_ne, !last_cons_ne by ne_tac.
    rewrite EL. apply last_last. }
  assert (E : printed_lines md ds L = removelast (printed_lines md ds L) ++ [z]).
  { rewrite <- Ez. apply app_removelast_last. unfold printed_lines. discriminate. }
  rewrite E. apply splitlines_join; [exact Hz|].
  intros l Hin. apply HB. rewrite E. exact Hin.
Qed.

Lemma positions_app A B : forall i pos,
  section_positions_from i (A ++ B) pos = section_positions_from (i + length A) B (section_positions_from i A pos).
Proof.
  induction A as [|l A IH]; intros i pos; simpl; [rewrite Nat.add_0_r; reflexivity|].
  rewrite IH. f_equal. lia.
Qed.

Lemma positions_plain A : forall i pos,
  (forall l, In l A -> section_prefix_match (strip l) = None) -> section_positions_from i A pos = pos.
Proof.
  induction A as [|l A IH]; intros i pos H; [reflexivity|]. simpl.
  rewrite (H l (or_introl eq_refl)). apply IH. intros x Hx. apply H. right. exact Hx.
Qed.

Lemma positions_header i h B pos n :
  section_prefix_match (strip h) = Some n ->
  section_positions_from i (h :: B) pos = section_positions_from (S i) B (dict_set n i pos).
Proof. intros H. simpl. rewrite H. reflexivity. Qed.

Lemma positions_blank i B pos : section_positions_from i ([] :: B) pos = section_positions_from (S i) B pos.
Proof. reflexivity. Qed.

Lemma fields_no_section m :
  forall l, In l (map field_line m) -> section_prefix_match (strip l) = None.
Proof.
  intros l Hl. apply in_map_iff in Hl as [[k v] [E _]]. subst l.
  unfold field_line. cbn [fst snd].
  destruct (Strip.strip_decomp (s2l "@" ++ k ++ s2l " " ++ v)) as [A [B [HE [HA _]]]].
  destruct A as [|a A].
  - destruct (strip (s2l "@" ++ k ++ s2l " " ++ v)) as [|c r] eqn:Es; [reflexivity|].
    simpl in HE. injection HE as Hc _. subst c. reflexivity.
  - simpl in HE. injection HE as Ha _. subst a. specialize (HA "@"%char (or_introl eq_refl)).
    discriminate HA.
Qed.

Lemma validate_order3 m df c :
  m <= df -> df <= c ->
  validate_sections_order (dict_set (s2l "CONTENT") c (dict_set (s2l "DEFAULTS") df
                            (dict_set (s2l "METADATA") m []))) = [].
Proof.
  intros H1 H2.
  change (dict_set (s2l "CONTENT") c (dict_set (s2l "DEFAULTS") df (dict_set (s2l "METADATA") m [])))
    with [(s2l "METADATA", m); (s2l "DEFAULTS", df); (s2l "CONTENT", c)].
  unfold validate_sections_order.
  change (dict_get (s2l "METADATA") [(s2l "METADATA", m); (s2l "DEFAULTS", df); (s2l "CONTENT", c)]) with (Some m).
  change (dict_get (s2l "DEFAULTS") [(s2l "METADATA", m); (s2l "DEFAULTS", df); (s2l "CONTENT", c)]) with (Some df).
  change (dict_get (s2l "CONTENT") [(s2l "METADATA", m); (s2l "DEFAULTS", df); (s2l "CONTENT", c)]) with (Some c).
  cbv iota beta.
  rewrite (proj2 (Nat.ltb_ge c m)), (proj2 (Nat.ltb_ge df m)), (proj2 (Nat.ltb_ge c df)) by lia.
  reflexivity.
Qed.

Lemma validate_order2 m c :
  m <= c ->
  validate_sections_order (dict_set (s2l "CONTENT") c (dict_set (s2l "METADATA") m [])) = [].
Proof.
  intros H1.
  change (dict_set (s2l "CONTENT") c (dict_set (s2l "METADATA") m []))
    with [(s2l "METADATA", m); (s2l "CONTENT", c)].
  unfold validate_sections_order.
  change (dict_get (s2l "METADATA") [(s2l "METADATA", m); (s2l "CONTENT", c)]) with (Some m).
  change (dict_get (s2l "DEFAULTS") [(s2l "METADATA", m); (s2l "CONTENT", c)]) with (@None nat).
  change (dict_get (s2l "CONTENT") [(s2l "METADATA", m); (s2l "CONTENT", c)]) with (Some c).
  cbv iota beta. rewrite (proj2 (Nat.ltb_ge c m)) by lia. reflexivity.
Qed.

Lemma extract_last lines pos c :
  dict_get (s2l "CONTENT") pos = Some c -> (forall n q, In (n, q) pos -> q <= c) ->
  extract_section lines pos (s2l "CONTENT") = skipn (S c) lines.
Proof.
  intros Hc Hq. unfold extract_section. rewrite Hc. cbv zeta.
  assert (Hf : forall e, fold_left (fun e (sp : text * nat) =>
                 if (S c <? snd sp) && (snd sp <? e) then snd sp else e) pos e = e).
  { clear Hc. induction pos as [|[n q] pos IH]; intros e; [reflexivity|].
    cbn [fold_left snd]. rewrite (proj2 (Nat.ltb_ge (S c) q)) by (specialize (Hq n q (or_introl eq_refl)); lia).
    cbn [andb]. apply IH. intros n' q' H. apply (Hq n' q'). right. exact H. }
  rewrite Hf. rewrite firstn_all2; [reflexivity|]. rewrite length_skipn. lia.
Qed.

Lemma skipn_prefix {A} (P Q : list A) n : n = length P -> skipn n (P ++ Q) = Q.
Proof. intros ->. induction P as [|x P IH]; [reflexivity|]. exact IH. Qed.

Lemma extract_last2 lines m c :
  m <= c ->
  extract_section lines (dict_set (s2l "CONTENT") c (dict_set (s2l "METADATA") m [])) (s2l "CONTENT")
  = skipn (S c) lines.
Proof.
  intros H. apply extract_last; [reflexivity|].
  change (dict_set (s2l "CONTENT") c (dict_set (s2l "METADATA") m []))
    with [(s2l "METADATA", m); (s2l "CONTENT", c)].
  intros n q [E|[E|[]]]; injection E as _ <-; lia.
Qed.

Lemma extract_last3 lines m df c :
  m <= c -> df <= c ->
  extract_section lines (dict_set (s2l "CONTENT") c (dict_set (s2l "DEFAULTS") df
                           (dict_set (s2l "METADATA") m []))) (s2l "CONTENT")
  = skipn (S c) lines.
Proof.
  intros H1 H2. apply extract_last; [reflexivity|].
  change (dict_set (s2l "CONTENT") c (dict_set (s2l "DEFAULTS") df (dict_set (s2l "METADATA") m [])))
    with [(s2l "METADATA", m); (s2l "DEFAULTS", df); (s2l "CONTENT", c)].
  intros n q [E|[E|[E|[]]]]; injection E as _ <-; lia.
Qed.

(** On a text printed by [PromptObject.text], [PromptValidator] reports
    no error from [_validate_sections_presence] nor from
    [_validate_sections_order], and the [CONTENT] section it extracts is
    exactly the list of content lines. This needs keys that
    are names, one-line values, content lines without line breaks that do
    not look like section headers, and a non-empty last content line. *)
Theorem validator_accepts_printed md ds L :
  md <> [] ->
  (forall k v, In (k, v) (md ++ ds) -> is_name k = true /\ existsb is_line_break v = false) ->
  L <> [] -> last L [] <> [] ->
  (forall l, In l L -> existsb is_line_break l = false /\ section_prefix_match (strip l) = None) ->
  validate_sections_presence (calculate_section_positions (splitlines (to_text (mkPrompt md ds (join nl L))))) = []
  /\ validate_sections_order (calculate_section_positions (splitlines (to_text (mkPrompt md ds (join nl L))))) = []
  /\ validator_section (to_text (mkPrompt md ds (join nl L))) (s2l "CONTENT") = L.
Proof.
  intros Hmd Hf HL Hlast Hl.
  assert (HS := splitlines_printed md ds L Hmd Hf HL Hlast (fun l H => proj1 (Hl l H))).
  assert (HLs : forall l, In l L -> section_prefix_match (strip l) = None) by (apply Hl).
  unfold validator_section. rewrite HS. unfold calculate_section_positions, printed_lines.
  destruct ds as [|kv0 ds0] eqn:Eds; cbv iota.
  - cbn [app].
    rewrite (positions_header 0 _ _ [] (s2l "METADATA")) by reflexivity.
    rewrite positions_app, (positions_plain (map field_line md)) by apply fields_no_section.
    rewrite positions_blank, (positions_header _ _ _ _ (s2l "CONTENT")) by reflexivity.
    rewrite (positions_plain L) by exact HLs.
    split; [reflexivity|]. split; [apply validate_order2; lia|].
    rewrite extract_last2 by lia.
    assert (EP : s2l "[METADATA]" :: map field_line md ++ [] :: s2l "[CONTENT]" :: L
                 = (s2l "[METADATA]" :: map field_line md ++ [[]; s2l "[CONTENT]"]) ++ L)
      by (cbn [app]; rewrite <- app_assoc; reflexivity).
    rewrite EP. apply skipn_prefix. cbn [length]. rewrite length_app. cbn [length]. lia.
  - rewrite <- Eds in *.
    rewrite (positions_header 0 _ _ [] (s2l "METADATA")) by reflexivity.
    rewrite positions_app, (positions_plain (map field_line md)) by apply fields_no_section.
    cbn [app]. rewrite positions_blank, (positions_header _ _ _ _ (s2l "DEFAULTS")) by reflexivity.
    rewrite positions_app, (positions_plain (map field_line ds)) by apply fields_no_section.
    rewrite positions_blank, (positions_header _ _ _ _ (s2l "CONTENT")) by reflexivity.
    rewrite (positions_plain L) by exact HLs.
    split; [reflexivity|]. split; [apply validate_order3; lia|].
    rewrite extract_last3 by lia.
    assert (EP : s2l "[METADATA]" :: map field_line md ++ [] :: s2l "[DEFAULTS]" :: map field_line ds
                   ++ [] :: s2l "[CONTENT]" :: L
                 = (s2l "[METADATA]" :: map field_line md ++ [] :: s2l "[DEFAULTS]" :: map field_line ds
                      ++ [[]; s2l "[CONTENT]"]) ++ L)
      by (repeat (rewrite <- app_assoc || rewrite <- app_comm_cons); reflexivity).
    refine (eq_trans (f_equal (skipn _) EP) _). apply skipn_prefix. cbn [length]. rewrite !length_app. cbn [length]. rewrite !length_app. cbn [length]. lia.
Qed.

Lemma validator_accepts_printed_witness :
  validate_sections_presence (calculate_section_positions (splitlines (to_text
    (mkPrompt [(s2l "format_version", s2l "0.0.1")] [(s2l "tone", s2l "warm")]
              (join nl [s2l "Be {tone}."; []; s2l "[note] keep it short"]))))) = []
  /\ validate_sections_order (calculate_section_positions (splitlines (to_text
    (mkPrompt [(s2l "format_version", s2l "0.0.1")] [(s2l "tone", s2l "warm")]
              (join nl [s2l "Be {tone}."; []; s2l "[note] keep it short"]))))) = []
  /\ validator_section (to_text
    (mkPrompt [(s2l "format_version", s2l "0.0.1")] [(s2l "tone", s2l "warm")]
              (join nl [s2l "Be {tone}."; []; s2l "[note] keep it short"]))) (s2l "CONTENT")
     = [s2l "Be {tone}."; []; s2l "[note] keep it short"].
Proof.
  apply validator_accepts_printed.
  - discriminate.
  - intros k v H. vm_compute in H.
    repeat (destruct H as [H|H]; [injection H as <- <-; split; vm_compute; reflexivity|]). destruct H.
  - discriminate.
  - discriminate.
  - intros l H. vm_compute in H.
    repeat (destruct H as [H|H]; [subst l; split; vm_compute; reflexivity|]). destruct H.
Defined.

End RoundTrip.
